(** * Bitstream (bsfUtility/Utility/BsBitstream.h)

    A shallow embedding of [bs::Bitstream] and the properties of its
    bit-level read, write, seek and growth operations.

    Conventions of the embedding:
    - [uint32_t], [int32_t] and [uint8_t] values are integers of [Z]; every
      place where the unsigned C++ arithmetic or a conversion can leave the
      range of its type is written with the conversion [u32], [s32] or [u8].
    - An [int32_t] addition that leaves the range of the type has no defined
      result in C++; it is written [int32_add] and yields a [Fault].
    - A buffer is a [list Z] of bytes.  A pointer into a caller's buffer is
      the suffix of the buffer that starts at the pointed-to byte, so that
      [data++] is the tail of the list.
    - [mData] is [None] for [nullptr].
    - Assertions are checked, as in a debug build.  An operation that trips
      an [assert], touches memory outside a buffer, or overflows a signed
      addition, yields a [Fault]; the three kinds are kept apart.
    - [bs_allocN] always hands out a block; what the block holds is a
      parameter of the embedding.
    - For the destructor and the calls of [bs_free] the blocks get addresses:
      [h_realloc], [h_reallocIfNeeded] and [h_destroy] are the functions with
      the allocator's bookkeeping next to the content of the buffer. *)

From Stdlib Require Import ZArith Lia Bool List.
From stdpp Require Import base list.

Local Open Scope Z_scope.

(* A lemma of a section depends on the section's variables only when its
   statement names them. *)
Set Default Proof Using "Type".

(** ** Machine integers *)

(** Conversion to [uint32_t]. *)
Definition u32 (z : Z) : Z := z mod 2 ^ 32.

(** Conversion to [int32_t]: the value modulo 2^32 in two's complement.
    This is the conversion only; signed arithmetic is [int32_add] below. *)
Definition s32 (z : Z) : Z := (z + 2 ^ 31) mod 2 ^ 32 - 2 ^ 31.

(** Conversion to [QuantType = uint8_t]. *)
Definition u8 (z : Z) : Z := z mod 2 ^ 8.

(** ** Faults and the result monad *)

Inductive fault : Type :=
| AssertionFailed   (* an [assert] of the source does not hold *)
| OutOfBounds       (* a read or write outside a buffer, or through nullptr *)
| SignedOverflow.   (* an [int32_t] addition leaves the range of the type *)

Inductive result (A : Type) : Type :=
| Ok (a : A)
| Fault (f : fault).

Arguments Ok {A} a.
Arguments Fault {A} f.

Definition bind {A B : Type} (r : result A) (k : A -> result B) : result B :=
  match r with
  | Ok a => k a
  | Fault f => Fault f
  end.

Notation "'do' x <- a ; b" := (bind a (fun x => b))
  (at level 10, x name, a at level 100, b at level 200).

(** [assert(b)] *)
Definition assert (b : bool) : result unit :=
  if b then Ok tt else Fault AssertionFailed.

(** [a + b] on two [int32_t] operands.  C++ leaves the sum undefined when it
    is not a value of [int32_t]; no result is given to it here. *)
Definition int32_add (a b : Z) : result Z :=
  if (- 2 ^ 31 <=? a + b) && (a + b <? 2 ^ 31) then Ok (a + b)
  else Fault SignedOverflow.

(** ** Memory *)

(** [*p] for a possibly null buffer pointer. *)
Definition deref (p : option (list Z)) : result (list Z) :=
  match p with
  | Some buf => Ok buf
  | None => Fault OutOfBounds
  end.

(** [buf[i]] as an rvalue of type [QuantType]: whatever the cell holds is
    read as a byte. *)
Definition load (buf : list Z) (i : Z) : result Z :=
  if i <? 0 then Fault OutOfBounds
  else match buf !! Z.to_nat i with
       | Some b => Ok (u8 b)
       | None => Fault OutOfBounds
       end.

(** [buf[i] = v] *)
Definition store (buf : list Z) (i : Z) (v : Z) : result (list Z) :=
  if i <? 0 then Fault OutOfBounds
  else if i <? Z.of_nat (length buf) then Ok (<[Z.to_nat i := v]> buf)
  else Fault OutOfBounds.

(** [memcpy(&dst[doff], src, n)]: the first [n] bytes of [src] replace the
    bytes [doff .. doff + n) of [dst]. *)
Definition memcpy (dst : list Z) (doff : Z) (src : list Z) (n : Z)
  : result (list Z) :=
  if (doff <? 0) || (n <? 0) then Fault OutOfBounds
  else if Z.of_nat (length dst) <? doff + n then Fault OutOfBounds
  else if Z.of_nat (length src) <? n then Fault OutOfBounds
  else Ok (take (Z.to_nat doff) dst ++ take (Z.to_nat n) src
             ++ drop (Z.to_nat (doff + n)) dst).

(** Bit [i] of a buffer: bit [i mod 8] of byte [i / 8]. *)
Definition getBit (buf : list Z) (i : Z) : bool :=
  match buf !! Z.to_nat (i / 8) with
  | Some b => Z.testbit b (i mod 8)
  | None => false
  end.

(** ** Helpers of other headers *)

(** Modelled from the spec: [Math::divideAndRoundUp] (Math/BsMath.h is not
    among the sources).  The growth policy rounds "up to a whole number of
    storage quanta"; on [uint32_t] operands that is [(n + d - 1) / d]. *)
Definition divideAndRoundUp (n d : Z) : Z := u32 (n + d - 1) / d.

(** Modelled from the spec: [Math::clamp] (Math/BsMath.h is not among the
    sources): the value "clamped to [[0, capacity]]", that is to
    [[minval, maxval]]. *)
Definition clamp (val minval maxval : Z) : Z :=
  Z.max (Z.min val maxval) minval.

(** ** Constants of the class *)

Definition BYTES_PER_QUANT : Z := 1.
Definition BITS_PER_QUANT : Z := BYTES_PER_QUANT * 8.

(** Modelled from the spec: [Bitwise::bitsLog2] (Utility/BsBitwise.h is not
    among the sources).  The constant is the base-2 logarithm of
    [BITS_PER_QUANT], so that [cursor >> BITS_PER_QUANT_LOG2] is the index of
    the storage quantum that holds bit [cursor]. *)
Definition BITS_PER_QUANT_LOG2 : Z := 3.

(** [Bitstream::LOG2] *)
Definition LOG2 (v : Z) : Z :=
  if v =? 2 then 4
  else if v =? 4 then 5
  else if v =? 8 then 6
  else 3.

(** ** The stream *)

Record Bitstream : Type := mkBitstream {
  mData : option (list Z);
  mMaxBits : Z;
  mNumBits : Z;
  mOwnsMemory : bool;
  mCursor : Z
}.

Definition tell (s : Bitstream) : Z := mCursor s.
Definition eof (s : Bitstream) : bool := mNumBits s <=? mCursor s.
Definition size (s : Bitstream) : Z := mNumBits s.
Definition capacity (s : Bitstream) : Z := mMaxBits s.
Definition data (s : Bitstream) : option (list Z) := mData s.

(** Number of bytes behind [mData] (none behind [nullptr]). *)
Definition bufLen (s : Bitstream) : Z :=
  match mData s with
  | Some buf => Z.of_nat (length buf)
  | None => 0
  end.

(** Bit [i] of the stream's buffer. *)
Definition streamBit (s : Bitstream) (i : Z) : bool :=
  match mData s with
  | Some buf => getBit buf i
  | None => false
  end.

(** Byte [i] of the stream's buffer. *)
Definition streamByte (s : Bitstream) (i : nat) : option Z :=
  match mData s with
  | Some buf => buf !! i
  | None => None
  end.

(** [Bitstream() = default] *)
Definition Bitstream_default : Bitstream :=
  mkBitstream None 0 0 true 0.

(** [Bitstream(QuantType* data, uint32_t count)] *)
Definition Bitstream_external (data : list Z) (count : Z) : Bitstream :=
  mkBitstream (Some data) count count false 0.

(** ** Well-formed states *)

Definition is_u32 (z : Z) : Prop := 0 <= z < 2 ^ 32.
Definition is_s32 (z : Z) : Prop := - 2 ^ 31 <= z < 2 ^ 31.

(** The fields have the values of their types, length and cursor are within
    the capacity, and a stream that owns its buffer has exactly
    [mMaxBits / 8] bytes behind [mData]. *)
Definition wf (s : Bitstream) : Prop :=
  is_u32 (mMaxBits s) /\ is_u32 (mNumBits s) /\ is_u32 (mCursor s) /\
  mNumBits s <= mMaxBits s /\ mCursor s <= mMaxBits s /\
  (mOwnsMemory s = true -> 8 * bufLen s = mMaxBits s).

(** The first multiple of [bits] at or after [c]. *)
Definition nextBoundary (c bits : Z) : Z := (c + bits - 1) / bits * bits.

(** [bits] rounded up to a whole number of storage quanta, and the number of
    bytes that hold [bits] bits (both in unbounded arithmetic). *)
Definition roundUpQuanta (bits : Z) : Z := nextBoundary bits BITS_PER_QUANT.
Definition bytesFor (bits : Z) : Z := (bits + BITS_PER_QUANT - 1) / BITS_PER_QUANT.

(** Allocators used to run the code on concrete inputs: the block handed
    out is all zero bits, respectively all one bits. *)
Definition zero_fill (n i : Z) : Z := 0.
Definition ones_fill (n i : Z) : Z := 255.

Section Bitstream.

(** [bs_allocN<uint8_t>(n)] hands out [n] bytes of uninitialised storage.
    Their content is the parameter [uninit]: byte [i] of a block of [n] bytes
    is [uninit n i] (reduced to a byte).  A stream only ever asks for blocks
    of strictly growing sizes, so this covers every content of every block. *)
Variable uninit : Z -> Z -> Z.

Definition bs_allocN (n : Z) : list Z :=
  map (fun i => u8 (uninit n (Z.of_nat i))) (seq 0 (Z.to_nat n)).

(** [Bitstream::realloc] *)
Definition realloc (s : Bitstream) (numBits : Z) : result Bitstream :=
  let numBits := u32 (divideAndRoundUp numBits BITS_PER_QUANT * BITS_PER_QUANT) in
  if numBits =? mMaxBits s then Ok s
  else
    do _ <- assert (mMaxBits s <? numBits);
    let numQuants := divideAndRoundUp numBits BITS_PER_QUANT in
    let buffer := bs_allocN numQuants in
    do buffer <-
      match mData s with
      | Some old =>
          let numBytes :=
            divideAndRoundUp (mMaxBits s) BITS_PER_QUANT * BYTES_PER_QUANT in
          memcpy buffer 0 old numBytes
      | None => Ok buffer
      end;
    Ok (mkBitstream (Some buffer) numBits (mNumBits s) (mOwnsMemory s) (mCursor s)).

(** [Bitstream::reallocIfNeeded] *)
Definition reallocIfNeeded (s : Bitstream) (numBits : Z) : result Bitstream :=
  if mMaxBits s <? numBits then
    if mOwnsMemory s then
      let newMaxBits := u32 (numBits + 4 * BITS_PER_QUANT + numBits / 2) in
      realloc s newMaxBits
    else
      do _ <- assert false;
      Ok s
  else Ok s.

(** [Bitstream(uint32_t capacity)] *)
Definition Bitstream_reserve (capacity : Z) : result Bitstream :=
  realloc Bitstream_default (u32 (capacity * 8)).

(** The [while (count > 0)] loop of [writeBits].  [data] is the source from
    the current source pointer on, [buf] the stream's buffer. *)
Fixpoint write_loop (destBitsMod destMask : Z) (data : list Z)
    (count destQuant : Z) (buf : list Z) : result (list Z) :=
  if 0 <? count then
    match data with
    | [] => Fault OutOfBounds
    | quant :: data =>
        let quant := u8 quant in
        do old <- load buf destQuant;
        do buf <- store buf destQuant
              (u8 (Z.lor (Z.shiftl quant destBitsMod) (Z.land old destMask)));
        let writtenBits := BITS_PER_QUANT - destBitsMod in
        do buf <-
          (if writtenBits <? count then
             do old <- load buf (destQuant + 1);
             store buf (destQuant + 1)
               (u8 (Z.lor (Z.shiftr quant writtenBits)
                          (Z.land old (u32 (Z.lnot destMask)))))
           else Ok buf);
        write_loop destBitsMod destMask data
          (count - Z.min BITS_PER_QUANT count) (destQuant + 1) buf
    end
  else Ok buf.

(** [Bitstream::writeBits].  Past the early return [count] is positive, so
    every path reads or writes through [mData]; the null check is done once. *)
Definition writeBits (s : Bitstream) (data : list Z) (count : Z)
  : result Bitstream :=
  if count =? 0 then Ok s
  else
    let newCursor := u32 (mCursor s + count) in
    do s <- reallocIfNeeded s newCursor;
    let destBitsMod := Z.land (mCursor s) (BITS_PER_QUANT - 1) in
    let destQuant := Z.shiftr (mCursor s) BITS_PER_QUANT_LOG2 in
    let destMask := u32 (Z.shiftl 1 BITS_PER_QUANT - 1) in
    do buf <- deref (mData s);
    do buf <-
      (if destBitsMod =? 0 then
         let numQuants := Z.shiftr count BITS_PER_QUANT_LOG2 in
         do buf <- memcpy buf destQuant data (numQuants * BYTES_PER_QUANT);
         write_loop destBitsMod destMask (drop (Z.to_nat numQuants) data)
           (count - numQuants * BITS_PER_QUANT) (destQuant + numQuants) buf
       else
         write_loop destBitsMod destMask data count destQuant buf);
    Ok (mkBitstream (Some buf) (mMaxBits s) (Z.max (mNumBits s) newCursor)
          (mOwnsMemory s) newCursor).

(** The [while (count > 0)] loop of [readBits].  [data] is the destination
    from the current destination pointer on; the result is its new content. *)
Fixpoint read_loop (srcBitsMod : Z) (buf : list Z) (data : list Z)
    (count srcQuant : Z) : result (list Z) :=
  if 0 <? count then
    match data with
    | [] => Fault OutOfBounds
    | _ :: data =>
        do b <- load buf srcQuant;
        let quant := u8 (Z.lor 0 (Z.shiftr b srcBitsMod)) in
        let readBits := BITS_PER_QUANT - srcBitsMod in
        do quant <-
          (if readBits <? count then
             do b <- load buf (srcQuant + 1);
             Ok (u8 (Z.lor quant (Z.shiftl b readBits)))
           else Ok quant);
        do data <- read_loop srcBitsMod buf data
                     (count - Z.min BITS_PER_QUANT count) (srcQuant + 1);
        Ok (quant :: data)
    end
  else Ok data.

(** [Bitstream::readBits]: the new stream state and the new content of the
    destination buffer [data]. *)
Definition readBits (s : Bitstream) (data : list Z) (count : Z)
  : result (Bitstream * list Z) :=
  if count =? 0 then Ok (s, data)
  else
    do _ <- assert (u32 (mCursor s + count) <=? mNumBits s);
    let newCursor := u32 (mCursor s + count) in
    let srcBitsMod := Z.land (mCursor s) (BITS_PER_QUANT - 1) in
    let srcQuant := Z.shiftr (mCursor s) BITS_PER_QUANT_LOG2 in
    do buf <- deref (mData s);
    do data <-
      (if srcBitsMod =? 0 then
         let numQuants := Z.shiftr count BITS_PER_QUANT_LOG2 in
         do data <- memcpy data 0 (drop (Z.to_nat srcQuant) buf)
                      (numQuants * BYTES_PER_QUANT);
         do rest <- read_loop srcBitsMod buf (drop (Z.to_nat numQuants) data)
                      (count - numQuants * BITS_PER_QUANT) (srcQuant + numQuants);
         Ok (take (Z.to_nat numQuants) data ++ rest)
       else
         read_loop srcBitsMod buf data count srcQuant);
    Ok (mkBitstream (mData s) (mMaxBits s) (mNumBits s) (mOwnsMemory s) newCursor,
        data).

(** [Bitstream::write<T>]: [value] is the object representation of the
    argument, [sizeof(value)] bytes. *)
Definition write (s : Bitstream) (value : list Z) : result Bitstream :=
  writeBits s value (u32 (Z.of_nat (length value) * 8)).

(** [Bitstream::read<T>] *)
Definition read (s : Bitstream) (value : list Z)
  : result (Bitstream * list Z) :=
  readBits s value (u32 (Z.of_nat (length value) * 8)).

(** [Bitstream::write(const bool&)] *)
Definition write_bool (s : Bitstream) (value : bool) : result Bitstream :=
  do s <- reallocIfNeeded s (u32 (mCursor s + 1));
  let destBitsMod := Z.land (mCursor s) (BITS_PER_QUANT - 1) in
  let destQuant := Z.shiftr (mCursor s) BITS_PER_QUANT_LOG2 in
  do buf <- deref (mData s);
  do old <- load buf destQuant;
  do buf <- store buf destQuant
        (if value
         then u8 (Z.lor old (u32 (Z.shiftl 1 destBitsMod)))
         else u8 (Z.land old (u32 (Z.lnot (u32 (Z.shiftl 1 destBitsMod))))));
  let cursor := u32 (mCursor s + 1) in
  Ok (mkBitstream (Some buf) (mMaxBits s) (Z.max (mNumBits s) cursor)
        (mOwnsMemory s) cursor).

(** [Bitstream::read(bool&)] *)
Definition read_bool (s : Bitstream) : result (Bitstream * bool) :=
  do _ <- assert (u32 (mCursor s + 1) <=? mNumBits s);
  let srcBitsMod := Z.land (mCursor s) (BITS_PER_QUANT - 1) in
  let srcQuant := Z.shiftr (mCursor s) BITS_PER_QUANT_LOG2 in
  do buf <- deref (mData s);
  do b <- load buf srcQuant;
  let value := negb (Z.land (Z.shiftr b srcBitsMod) 1 =? 0) in
  Ok (mkBitstream (mData s) (mMaxBits s) (mNumBits s) (mOwnsMemory s)
        (u32 (mCursor s + 1)),
      value).

(** [Bitstream::skip]; [(int32_t)mCursor + count] is a signed addition. *)
Definition skip (s : Bitstream) (count : Z) : result Bitstream :=
  do sum <- int32_add (s32 (mCursor s)) count;
  Ok (mkBitstream (mData s) (mMaxBits s) (mNumBits s) (mOwnsMemory s)
        (u32 (clamp sum 0 (s32 (mMaxBits s))))).

(** [Bitstream::seek] *)
Definition seek (s : Bitstream) (pos : Z) : Bitstream :=
  mkBitstream (mData s) (mMaxBits s) (mNumBits s) (mOwnsMemory s)
    (Z.min pos (mMaxBits s)).

(** [Bitstream::align]; the [uint32_t] argument of [skip] is converted to
    its [int32_t] parameter. *)
Definition align (s : Bitstream) (count : Z) : result Bitstream :=
  if count =? 0 then Ok s
  else
    let bits := u32 (count * 8) in
    skip s (s32 (u32 (bits -
      u32 (Z.land (u32 (mCursor s - 1)) (u32 (bits - 1)) + 1)))).

(** ** Operations as data, and runs of operations *)

Inductive operation : Type :=
| OpWriteBits (data : list Z) (count : Z)
| OpReadBits (data : list Z) (count : Z)
| OpWrite (value : list Z)
| OpRead (value : list Z)
| OpWriteBool (value : bool)
| OpReadBool
| OpSkip (count : Z)
| OpSeek (pos : Z)
| OpAlign (count : Z).

(** The effect of one operation on the stream (what a read delivers to its
    caller is dropped). *)
Definition step (s : Bitstream) (o : operation) : result Bitstream :=
  match o with
  | OpWriteBits data count => writeBits s data count
  | OpReadBits data count => do r <- readBits s data count; Ok (fst r)
  | OpWrite value => write s value
  | OpRead value => do r <- read s value; Ok (fst r)
  | OpWriteBool value => write_bool s value
  | OpReadBool => do r <- read_bool s; Ok (fst r)
  | OpSkip count => skip s count
  | OpSeek pos => Ok (seek s pos)
  | OpAlign count => align s count
  end.

Fixpoint run (s : Bitstream) (os : list operation) : result Bitstream :=
  match os with
  | [] => Ok s
  | o :: os => do s <- step s o; run s os
  end.

(** [seek(pos); write(value)] for each value of [values] in turn. *)
Fixpoint write_bools_at (s : Bitstream) (pos : Z) (values : list bool)
  : result Bitstream :=
  match values with
  | [] => Ok s
  | value :: values =>
      do s <- write_bool (seek s pos) value;
      write_bools_at s pos values
  end.

(** The arguments of an operation have the types of its parameters. *)
Definition well_typed (o : operation) : Prop :=
  match o with
  | OpWriteBits _ count | OpReadBits _ count | OpAlign count => is_u32 count
  | OpSeek pos => is_u32 pos
  | OpSkip count => is_s32 count
  | OpWrite _ | OpRead _ | OpWriteBool _ | OpReadBool => True
  end.

(** The three constructors. *)
Inductive constructed : Bitstream -> Prop :=
| constructed_default :
    constructed Bitstream_default
| constructed_reserve (capacity : Z) (s : Bitstream) :
    is_u32 capacity -> Bitstream_reserve capacity = Ok s -> constructed s
| constructed_external (data : list Z) (count : Z) :
    is_u32 count -> constructed (Bitstream_external data count).

(** The states a program can bring a stream into: a constructor, then any
    number of operations that complete (no assertion fails, no access leaves
    a buffer, no signed addition overflows). *)
Inductive reachable : Bitstream -> Prop :=
| reachable_constructed (s : Bitstream) :
    constructed s -> reachable s
| reachable_step (s : Bitstream) (o : operation) (s' : Bitstream) :
    reachable s -> well_typed o -> step s o = Ok s' -> reachable s'.

(** [write(value)] for each object of [values] in turn. *)
Fixpoint write_all (s : Bitstream) (values : list (list Z)) : result Bitstream :=
  match values with
  | [] => Ok s
  | value :: values => do s <- write s value; write_all s values
  end.

(** [write(value)] for each boolean of [values] in turn. *)
Fixpoint write_bools (s : Bitstream) (values : list bool) : result Bitstream :=
  match values with
  | [] => Ok s
  | value :: values => do s <- write_bool s value; write_bools s values
  end.

(** [n] times [read(value)] for a boolean: the final state and the values
    read, in order. *)
Fixpoint read_bools (s : Bitstream) (n : nat) : result (Bitstream * list bool) :=
  match n with
  | O => Ok (s, [])
  | S n =>
      do r <- read_bool s;
      do rs <- read_bools (fst r) n;
      Ok (fst rs, snd r :: snd rs)
  end.

(** [writeBits(data, count)] for each pair of [writes] in turn. *)
Fixpoint writeBits_all (s : Bitstream) (writes : list (list Z * Z))
  : result Bitstream :=
  match writes with
  | [] => Ok s
  | (data, count) :: writes =>
      do s <- writeBits s data count; writeBits_all s writes
  end.

End Bitstream.

(** ** Runs of [writeBits] *)

(** Bit [k] of the bits that the writes [(data, count)] of [writes] hand
    over, in the order of the writes. *)
Fixpoint sourceBit (writes : list (list Z * Z)) (k : Z) : bool :=
  match writes with
  | [] => false
  | (data, count) :: writes =>
      if k <? count then getBit data k else sourceBit writes (k - count)
  end.

(** The number of bits that [writes] hand over. *)
Fixpoint totalBits (writes : list (list Z * Z)) : Z :=
  match writes with
  | [] => 0
  | (_, count) :: writes => count + totalBits writes
  end.

(** The source of a write holds no set bit past its [count] bits. *)
Definition zero_padded (w : list Z * Z) : Prop :=
  is_u32 (snd w) /\ forall k, snd w <= k -> getBit (fst w) k = false.

(** The allocator hands out zeroed blocks. *)
Definition zeroing (uninit : Z -> Z -> Z) : Prop :=
  forall n i, u8 (uninit n i) = 0.

(** ** The allocator and the lifetime of a stream *)

(** Modelled from the spec: [bs_allocN] and [bs_free] as an allocator (its
    header is not among the sources).  A stream "exclusively owns its buffer
    (and must release it exactly once, on destruction)" or holds "a
    non-owning view into caller-managed memory"; to state that, blocks get
    addresses.  The heap records, for each block handed out so far, whether
    it is still live; a block's address is its index, and no address is
    handed out twice. *)
Definition heap : Type := list bool.

Definition is_live (h : heap) (a : nat) : bool :=
  match (h : list bool) !! a with
  | Some b => b
  | None => false
  end.

(** What an operation on the heap comes to: it completes, it trips an
    assertion or leaves a buffer, or it releases what is not a live block. *)
Inductive outcome (A : Type) : Type :=
| Done (a : A)
| Trap (f : fault)
| InvalidFree.

Arguments Done {A} a.
Arguments Trap {A} f.
Arguments InvalidFree {A}.

Definition obind {A B : Type} (r : outcome A) (k : A -> outcome B) : outcome B :=
  match r with
  | Done a => k a
  | Trap f => Trap f
  | InvalidFree => InvalidFree
  end.

Notation "'doo' x <- a ; b" := (obind a (fun x => b))
  (at level 10, x name, a at level 100, b at level 200).

Definition lift {A : Type} (r : result A) : outcome A :=
  match r with
  | Ok a => Done a
  | Fault f => Trap f
  end.

(** The address part of [bs_allocN]: a new live block. *)
Definition h_allocN (h : heap) : nat * heap := (length h, h ++ [true]).

(** [bs_free(p)] *)
Definition h_free (h : heap) (a : nat) : outcome heap :=
  if is_live h a then Done (<[a := false]> (h : list bool)) else InvalidFree.

(** A stream together with the address that its [mData] holds; [mData] of
    [stream] is the content of the block at that address. *)
Record Located : Type := mkLocated {
  address : option nat;
  stream : Bitstream
}.

(** [writeBits] from the line after [reallocIfNeeded(newCursor)] on. *)
Definition writeBits_in_place (s : Bitstream) (data : list Z)
    (count newCursor : Z) : result Bitstream :=
  let destBitsMod := Z.land (mCursor s) (BITS_PER_QUANT - 1) in
  let destQuant := Z.shiftr (mCursor s) BITS_PER_QUANT_LOG2 in
  let destMask := u32 (Z.shiftl 1 BITS_PER_QUANT - 1) in
  do buf <- deref (mData s);
  do buf <-
    (if destBitsMod =? 0 then
       let numQuants := Z.shiftr count BITS_PER_QUANT_LOG2 in
       do buf <- memcpy buf destQuant data (numQuants * BYTES_PER_QUANT);
       write_loop destBitsMod destMask (drop (Z.to_nat numQuants) data)
         (count - numQuants * BITS_PER_QUANT) (destQuant + numQuants) buf
     else
       write_loop destBitsMod destMask data count destQuant buf);
  Ok (mkBitstream (Some buf) (mMaxBits s) (Z.max (mNumBits s) newCursor)
        (mOwnsMemory s) newCursor).

(** [write(const bool&)] from the line after [reallocIfNeeded(mCursor + 1)]
    on. *)
Definition write_bool_in_place (s : Bitstream) (value : bool)
  : result Bitstream :=
  let destBitsMod := Z.land (mCursor s) (BITS_PER_QUANT - 1) in
  let destQuant := Z.shiftr (mCursor s) BITS_PER_QUANT_LOG2 in
  do buf <- deref (mData s);
  do old <- load buf destQuant;
  do buf <- store buf destQuant
        (if value
         then u8 (Z.lor old (u32 (Z.shiftl 1 destBitsMod)))
         else u8 (Z.land old (u32 (Z.lnot (u32 (Z.shiftl 1 destBitsMod))))));
  let cursor := u32 (mCursor s + 1) in
  Ok (mkBitstream (Some buf) (mMaxBits s) (Z.max (mNumBits s) cursor)
        (mOwnsMemory s) cursor).

Section Lifetime.

Variable uninit : Z -> Z -> Z.

(** [Bitstream::realloc], with the addresses of the blocks. *)
Definition h_realloc (h : heap) (o : Located) (numBits : Z)
  : outcome (heap * Located) :=
  let s := stream o in
  let numBits := u32 (divideAndRoundUp numBits BITS_PER_QUANT * BITS_PER_QUANT) in
  if numBits =? mMaxBits s then Done (h, o)
  else
    doo _ <- lift (assert (mMaxBits s <? numBits));
    let numQuants := divideAndRoundUp numBits BITS_PER_QUANT in
    let a := fst (h_allocN h) in
    let h := snd (h_allocN h) in
    let buffer := bs_allocN uninit numQuants in
    doo r <-
      match address o with
      | Some old =>
          let numBytes :=
            divideAndRoundUp (mMaxBits s) BITS_PER_QUANT * BYTES_PER_QUANT in
          doo content <- lift (deref (mData s));
          doo buffer <- lift (memcpy buffer 0 content numBytes);
          doo h <- h_free h old;
          Done (h, buffer)
      | None => Done (h, buffer)
      end;
    Done (fst r,
          mkLocated (Some a)
            (mkBitstream (Some (snd r)) numBits (mNumBits s) (mOwnsMemory s)
               (mCursor s))).

(** [Bitstream::reallocIfNeeded] *)
Definition h_reallocIfNeeded (h : heap) (o : Located) (numBits : Z)
  : outcome (heap * Located) :=
  let s := stream o in
  if mMaxBits s <? numBits then
    if mOwnsMemory s then
      let newMaxBits := u32 (numBits + 4 * BITS_PER_QUANT + numBits / 2) in
      h_realloc h o newMaxBits
    else
      doo _ <- lift (assert false);
      Done (h, o)
  else Done (h, o).

(** The constructors. *)
Definition h_default : Located := mkLocated None Bitstream_default.

Definition h_reserve (h : heap) (capacity : Z) : outcome (heap * Located) :=
  h_realloc h h_default (u32 (capacity * 8)).

Definition h_external (a : nat) (data : list Z) (count : Z) : Located :=
  mkLocated (Some a) (Bitstream_external data count).

(** [Bitstream::~Bitstream] *)
Definition h_destroy (h : heap) (o : Located) : outcome heap :=
  match address o with
  | Some a => if mOwnsMemory (stream o) then h_free h a else Done h
  | None => Done h
  end.

(** [Bitstream::writeBits] *)
Definition h_writeBits (h : heap) (o : Located) (data : list Z) (count : Z)
  : outcome (heap * Located) :=
  if count =? 0 then Done (h, o)
  else
    let newCursor := u32 (mCursor (stream o) + count) in
    doo r <- h_reallocIfNeeded h o newCursor;
    doo s <- lift (writeBits_in_place (stream (snd r)) data count newCursor);
    Done (fst r, mkLocated (address (snd r)) s).

(** [Bitstream::write(const bool&)] *)
Definition h_write_bool (h : heap) (o : Located) (value : bool)
  : outcome (heap * Located) :=
  doo r <- h_reallocIfNeeded h o (u32 (mCursor (stream o) + 1));
  doo s <- lift (write_bool_in_place (stream (snd r)) value);
  Done (fst r, mkLocated (address (snd r)) s).

(** One operation; those that do not write go through no allocator call. *)
Definition h_step (h : heap) (o : Located) (op : operation)
  : outcome (heap * Located) :=
  match op with
  | OpWriteBits data count => h_writeBits h o data count
  | OpWrite value =>
      h_writeBits h o value (u32 (Z.of_nat (length value) * 8))
  | OpWriteBool value => h_write_bool h o value
  | OpReadBits _ _ | OpRead _ | OpReadBool
  | OpSkip _ | OpSeek _ | OpAlign _ =>
      doo s <- lift (step uninit (stream o) op);
      Done (h, mkLocated (address o) s)
  end.

Fixpoint h_run (h : heap) (o : Located) (ops : list operation)
  : outcome (heap * Located) :=
  match ops with
  | [] => Done (h, o)
  | op :: ops => doo r <- h_step h o op; h_run (fst r) (snd r) ops
  end.

End Lifetime.

(** The blocks of [h0] are as they were, the blocks handed out since are
    released, but for the one [mData] points to. *)
Definition owned (h0 : heap) (h : heap) (o : Located) : Prop :=
  mOwnsMemory (stream o) = true /\
  exists k : nat,
    (address o = None /\ h = h0 ++ replicate k false) \/
    (address o = Some (length h0 + k)%nat /\
     h = h0 ++ replicate k false ++ [true]).

(** * Properties *)

(** ** The result monad *)

Lemma bind_Ok {A B : Type} (r : result A) (k : A -> result B) (b : B) :
  bind r k = Ok b -> exists a, r = Ok a /\ k a = Ok b.
Proof. destruct r as [a|f]; simpl; [eauto | discriminate]. Qed.

Lemma assert_Ok (b : bool) (u : unit) : assert b = Ok u -> b = true.
Proof. destruct b; [reflexivity | discriminate]. Qed.

(** Splits a hypothesis [(do x <- a; b) = Ok r] into its two steps. *)
Tactic Notation "inv_bind" hyp(H) "as" ident(a) ident(Ha) :=
  apply bind_Ok in H; destruct H as (a & Ha & H).

(** ** Machine integers *)

Lemma u32_range (z : Z) : 0 <= u32 z < 2 ^ 32.
Proof. unfold u32. apply Z.mod_pos_bound. lia. Qed.

Lemma u32_small (z : Z) : 0 <= z < 2 ^ 32 -> u32 z = z.
Proof. unfold u32. apply Z.mod_small. Qed.

Lemma s32_small (z : Z) : - 2 ^ 31 <= z < 2 ^ 31 -> s32 z = z.
Proof. unfold s32. intros H. rewrite Z.mod_small; lia. Qed.

Lemma s32_range (z : Z) : - 2 ^ 31 <= s32 z < 2 ^ 31.
Proof.
  unfold s32. pose proof (Z.mod_pos_bound (z + 2 ^ 31) (2 ^ 32)). lia.
Qed.

Lemma u8_testbit (z j : Z) :
  0 <= j < 8 -> Z.testbit (u8 z) j = Z.testbit z j.
Proof. intros H. unfold u8. apply Z.mod_pow2_bits_low. lia. Qed.

Lemma land_quant_mask (c : Z) : Z.land c (BITS_PER_QUANT - 1) = c mod 8.
Proof. change (BITS_PER_QUANT - 1) with (Z.ones 3). apply Z.land_ones. lia. Qed.

Lemma shiftr_quant_log2 (c : Z) : Z.shiftr c BITS_PER_QUANT_LOG2 = c / 8.
Proof. unfold BITS_PER_QUANT_LOG2. rewrite Z.shiftr_div_pow2 by lia. reflexivity. Qed.

(** ** Memory *)

Lemma load_Ok (buf : list Z) (i b : Z) :
  load buf i = Ok b ->
  0 <= i < Z.of_nat (length buf) /\
  exists c, buf !! Z.to_nat i = Some c /\ b = u8 c.
Proof.
  unfold load. destruct (Z.ltb_spec i 0); [discriminate |].
  destruct (buf !! Z.to_nat i) as [c|] eqn:E; [| discriminate].
  intros [= <-]. split; [| eauto].
  apply lookup_lt_Some in E. lia.
Qed.

Lemma store_Ok (buf : list Z) (i v : Z) (buf' : list Z) :
  store buf i v = Ok buf' ->
  0 <= i < Z.of_nat (length buf) /\ buf' = <[Z.to_nat i := v]> buf.
Proof.
  unfold store. destruct (Z.ltb_spec i 0); [discriminate |].
  destruct (Z.ltb_spec i (Z.of_nat (length buf))); [| discriminate].
  intros [= <-]. split; [lia | reflexivity].
Qed.

Lemma store_length (buf : list Z) (i v : Z) (buf' : list Z) :
  store buf i v = Ok buf' -> length buf' = length buf.
Proof. intros H. apply store_Ok in H as [_ ->]. apply length_insert. Qed.

Lemma memcpy_Ok (dst : list Z) (doff : Z) (src : list Z) (n : Z) (r : list Z) :
  memcpy dst doff src n = Ok r ->
  0 <= doff /\ 0 <= n /\ doff + n <= Z.of_nat (length dst) /\
  n <= Z.of_nat (length src) /\
  r = take (Z.to_nat doff) dst ++ take (Z.to_nat n) src
        ++ drop (Z.to_nat (doff + n)) dst.
Proof.
  unfold memcpy.
  destruct (Z.ltb_spec doff 0); [discriminate |].
  destruct (Z.ltb_spec n 0); [discriminate |]. simpl.
  destruct (Z.ltb_spec (Z.of_nat (length dst)) (doff + n)); [discriminate |].
  destruct (Z.ltb_spec (Z.of_nat (length src)) n); [discriminate |].
  intros [= <-]. repeat split; lia.
Qed.

Lemma memcpy_length (dst : list Z) (doff : Z) (src : list Z) (n : Z) (r : list Z) :
  memcpy dst doff src n = Ok r -> length r = length dst.
Proof.
  intros H. apply memcpy_Ok in H as (H1 & H2 & H3 & H4 & ->).
  rewrite !length_app, !length_take, length_drop. lia.
Qed.

(** Bytes below the copied range keep their value. *)
Lemma memcpy_lookup_below (dst : list Z) (doff : Z) (src : list Z) (n : Z)
    (r : list Z) (i : nat) :
  memcpy dst doff src n = Ok r -> Z.of_nat i < doff -> r !! i = dst !! i.
Proof.
  intros H Hi. apply memcpy_Ok in H as (H1 & H2 & H3 & H4 & ->).
  rewrite lookup_app_l by (rewrite length_take; lia).
  apply lookup_take_lt. lia.
Qed.

(** Bytes of the copied range come from the source. *)
Lemma memcpy_lookup_in (dst : list Z) (doff : Z) (src : list Z) (n : Z)
    (r : list Z) (i : nat) :
  memcpy dst doff src n = Ok r -> Z.of_nat i < n ->
  r !! (Z.to_nat doff + i)%nat = src !! i.
Proof.
  intros H Hi. apply memcpy_Ok in H as (H1 & H2 & H3 & H4 & ->).
  rewrite lookup_app_r by (rewrite length_take; lia).
  rewrite length_take.
  replace (Z.to_nat doff + i - Z.to_nat doff `min` length dst)%nat with i by lia.
  rewrite lookup_app_l by (rewrite length_take; lia).
  apply lookup_take_lt. lia.
Qed.

(** Bytes above the copied range keep their value. *)
Lemma memcpy_lookup_above (dst : list Z) (doff : Z) (src : list Z) (n : Z)
    (r : list Z) (i : nat) :
  memcpy dst doff src n = Ok r -> doff + n <= Z.of_nat i -> r !! i = dst !! i.
Proof.
  intros H Hi. apply memcpy_Ok in H as (H1 & H2 & H3 & H4 & ->).
  rewrite lookup_app_r by (rewrite length_take; lia).
  rewrite lookup_app_r by (rewrite !length_take; lia).
  rewrite !length_take, lookup_drop. f_equal. lia.
Qed.

(** ** Rounding to whole quanta *)

Lemma roundUp_quant (n : Z) :
  let nb := u32 (divideAndRoundUp n BITS_PER_QUANT * BITS_PER_QUANT) in
  0 <= nb <= 2 ^ 32 - 8 /\ nb mod 8 = 0 /\
  divideAndRoundUp nb BITS_PER_QUANT = nb / 8.
Proof.
  unfold divideAndRoundUp, u32. change BITS_PER_QUANT with 8.
  change (2 ^ 32) with 4294967296. cbv zeta.
  Z.div_mod_to_equations. lia.
Qed.

Lemma roundUp_quant_small (n : Z) :
  0 <= n -> n + 7 < 2 ^ 32 ->
  u32 (divideAndRoundUp n BITS_PER_QUANT * BITS_PER_QUANT) = (n + 7) / 8 * 8.
Proof.
  unfold divideAndRoundUp, u32. change BITS_PER_QUANT with 8.
  change (2 ^ 32) with 4294967296. intros H1 H2.
  Z.div_mod_to_equations. lia.
Qed.

(** ** Operations that never allocate *)

Lemma write_loop_eq (m mask : Z) (data : list Z) (count dq : Z) (buf : list Z) :
  write_loop m mask data count dq buf =
  if 0 <? count then
    match data with
    | [] => Fault OutOfBounds
    | quant :: data =>
        let quant := u8 quant in
        do old <- load buf dq;
        do buf <- store buf dq (u8 (Z.lor (Z.shiftl quant m) (Z.land old mask)));
        let writtenBits := BITS_PER_QUANT - m in
        do buf <-
          (if writtenBits <? count then
             do old <- load buf (dq + 1);
             store buf (dq + 1)
               (u8 (Z.lor (Z.shiftr quant writtenBits)
                          (Z.land old (u32 (Z.lnot mask)))))
           else Ok buf);
        write_loop m mask data (count - Z.min BITS_PER_QUANT count) (dq + 1) buf
    end
  else Ok buf.
Proof. destruct data; reflexivity. Qed.

(** A completed loop leaves the buffer's size alone and has written its
    [count] bits, from bit [m] of quantum [dq] on, inside the buffer. *)
Lemma write_loop_bounds (m mask : Z) (data : list Z) :
  forall (count dq : Z) (buf buf' : list Z),
  write_loop m mask data count dq buf = Ok buf' ->
  0 <= m < 8 -> 0 <= dq ->
  length buf' = length buf /\
  (0 < count -> 8 * dq + m + count <= 8 * Z.of_nat (length buf)).
Proof.
  induction data as [|quant data IH]; intros count dq buf buf' H Hm Hdq;
    rewrite write_loop_eq in H; destruct (Z.ltb_spec 0 count) as [Hc|Hc];
    try discriminate; try (injection H as <-; split; [reflexivity | lia]).
  cbv zeta in H. change BITS_PER_QUANT with 8 in H.
  inv_bind H as old Ha. inv_bind H as buf1 Ha0.
  pose proof (store_Ok _ _ _ _ Ha0) as [Hi1 _].
  apply store_length in Ha0.
  inv_bind H as buf2 Ha1.
  assert (Hbuf2 : length buf2 = length buf /\
                  (8 - m < count -> dq + 1 < Z.of_nat (length buf))).
  { destruct (Z.ltb_spec (8 - m) count) as [Hw|Hw].
    - inv_bind Ha1 as old1 Ha2. pose proof (store_Ok _ _ _ _ Ha1) as [Hi2 _].
      apply store_length in Ha1. split; [congruence | intros _; lia].
    - injection Ha1 as <-. split; [congruence | lia]. }
  destruct Hbuf2 as [Hl2 Hw2].
  apply IH in H; [| lia | lia]. destruct H as [Hl' Hrest].
  split; [congruence |]. intros _.
  rewrite Hl2 in Hrest.
  destruct (Z.le_gt_cases count 8) as [Hle|Hgt].
  - destruct (Z.le_gt_cases count (8 - m)); lia.
  - lia.
Qed.

Lemma readBits_wf (s : Bitstream) (data : list Z) (count : Z)
    (s' : Bitstream) (data' : list Z) :
  wf s -> readBits s data count = Ok (s', data') -> wf s'.
Proof.
  unfold readBits. intros Hwf H.
  destruct (Z.eqb_spec count 0) as [_|_].
  { injection H as <- _. exact Hwf. }
  inv_bind H as u Ha. apply assert_Ok in Ha. apply Z.leb_le in Ha.
  cbv zeta in H. inv_bind H as buf Hbuf. inv_bind H as d Hd.
  injection H as <- _.
  pose proof (u32_range (mCursor s + count)) as Hnc.
  unfold wf, is_u32, bufLen in *. simpl. intuition lia.
Qed.

Lemma read_bool_wf (s s' : Bitstream) (value : bool) :
  wf s -> read_bool s = Ok (s', value) -> wf s'.
Proof.
  unfold read_bool. intros Hwf H.
  inv_bind H as u Ha. apply assert_Ok in Ha. apply Z.leb_le in Ha.
  cbv zeta in H. inv_bind H as buf Hbuf. inv_bind H as b Hb.
  injection H as <- _.
  pose proof (u32_range (mCursor s + 1)) as Hnc.
  unfold wf, is_u32, bufLen in *. simpl. intuition lia.
Qed.

Lemma int32_add_Ok (a b c : Z) :
  int32_add a b = Ok c -> c = a + b /\ - 2 ^ 31 <= a + b < 2 ^ 31.
Proof.
  unfold int32_add. intros H.
  destruct (Z.leb_spec (- 2 ^ 31) (a + b)); [| discriminate].
  destruct (Z.ltb_spec (a + b) (2 ^ 31)); [| discriminate].
  injection H as <-. lia.
Qed.

Lemma int32_add_small (a b : Z) :
  - 2 ^ 31 <= a + b < 2 ^ 31 -> int32_add a b = Ok (a + b).
Proof.
  intros H. unfold int32_add.
  destruct (Z.leb_spec (- 2 ^ 31) (a + b)); [| lia].
  destruct (Z.ltb_spec (a + b) (2 ^ 31)); [reflexivity | lia].
Qed.

(** A [skip] that completes added within [int32_t]. *)
Lemma skip_Ok (s : Bitstream) (count : Z) (s' : Bitstream) :
  skip s count = Ok s' ->
  - 2 ^ 31 <= s32 (mCursor s) + count < 2 ^ 31 /\
  s' = mkBitstream (mData s) (mMaxBits s) (mNumBits s) (mOwnsMemory s)
         (u32 (clamp (s32 (mCursor s) + count) 0 (s32 (mMaxBits s)))).
Proof.
  unfold skip. intros H. inv_bind H as sum Hsum.
  apply int32_add_Ok in Hsum as [-> Hr]. injection H as <-. auto.
Qed.

Lemma skip_wf (s : Bitstream) (count : Z) (s' : Bitstream) :
  wf s -> skip s count = Ok s' -> wf s'.
Proof.
  intros (HM & HN & HC & HNM & HCM & Hown) H.
  apply skip_Ok in H as [Hv ->].
  unfold wf, bufLen, clamp in *. simpl.
  set (v := s32 (mCursor s) + count) in *.
  assert (Hres : 0 <= Z.max (Z.min v (s32 (mMaxBits s))) 0 <= mMaxBits s).
  { unfold is_u32 in *.
    destruct (Z.lt_ge_cases (mMaxBits s) (2 ^ 31)) as [Hlt|Hge].
    - rewrite (s32_small (mMaxBits s)) by lia. lia.
    - pose proof (s32_range (mMaxBits s)).
      assert (s32 (mMaxBits s) = mMaxBits s - 2 ^ 32).
      { unfold s32. replace (mMaxBits s + 2 ^ 31)
          with (mMaxBits s - 2 ^ 31 + 1 * 2 ^ 32) by lia.
        rewrite Z.mod_add by lia. rewrite Z.mod_small; lia. }
      lia. }
  unfold is_u32 in *. rewrite u32_small by (unfold is_u32; lia).
  intuition lia.
Qed.

Lemma seek_wf (s : Bitstream) (pos : Z) : wf s -> is_u32 pos -> wf (seek s pos).
Proof.
  unfold wf, seek, is_u32, bufLen. simpl. intuition lia.
Qed.

Lemma align_wf (s : Bitstream) (count : Z) (s' : Bitstream) :
  wf s -> align s count = Ok s' -> wf s'.
Proof.
  intros Hwf H. unfold align in H. destruct (count =? 0).
  - injection H as <-. exact Hwf.
  - eapply skip_wf; eauto.
Qed.

Lemma readBits_capacity (s : Bitstream) (data : list Z) (count : Z)
    (s' : Bitstream) (data' : list Z) :
  readBits s data count = Ok (s', data') ->
  mMaxBits s' = mMaxBits s /\ mOwnsMemory s' = mOwnsMemory s /\ mData s' = mData s.
Proof.
  unfold readBits. intros H. destruct (count =? 0).
  { injection H as <- _. auto. }
  inv_bind H as u Ha. cbv zeta in H. inv_bind H as buf Hbuf.
  inv_bind H as d Hd. injection H as <- _. auto.
Qed.

Lemma read_bool_capacity (s s' : Bitstream) (value : bool) :
  read_bool s = Ok (s', value) ->
  mMaxBits s' = mMaxBits s /\ mOwnsMemory s' = mOwnsMemory s /\ mData s' = mData s.
Proof.
  unfold read_bool. intros H.
  inv_bind H as u Ha. cbv zeta in H. inv_bind H as buf Hbuf.
  inv_bind H as b Hb. injection H as <- _. auto.
Qed.

Lemma skip_capacity (s : Bitstream) (count : Z) (s' : Bitstream) :
  skip s count = Ok s' ->
  mMaxBits s' = mMaxBits s /\ mOwnsMemory s' = mOwnsMemory s /\ mData s' = mData s.
Proof. intros H. apply skip_Ok in H as [_ ->]. auto. Qed.

Lemma align_capacity (s : Bitstream) (count : Z) (s' : Bitstream) :
  align s count = Ok s' ->
  mMaxBits s' = mMaxBits s /\ mOwnsMemory s' = mOwnsMemory s /\ mData s' = mData s.
Proof.
  unfold align. intros H. destruct (count =? 0).
  - injection H as <-. auto.
  - eapply skip_capacity; eauto.
Qed.

Section Growth.

Variable uninit : Z -> Z -> Z.

(** ** Allocation and growth *)

Lemma bs_allocN_length (n : Z) : length (bs_allocN uninit n) = Z.to_nat n.
Proof. unfold bs_allocN. rewrite length_map, length_seq. reflexivity. Qed.

(** What a completed [realloc] did: nothing, when the rounded size is the
    capacity; otherwise the capacity is the rounded size, which is larger,
    the buffer has that many bits, and the bytes of the old buffer are its
    first bytes. *)
Lemma realloc_Ok (s : Bitstream) (n : Z) (s' : Bitstream) :
  realloc uninit s n = Ok s' ->
  let nb := u32 (divideAndRoundUp n BITS_PER_QUANT * BITS_PER_QUANT) in
  (nb = mMaxBits s /\ s' = s) \/
  (mMaxBits s < nb /\ mMaxBits s' = nb /\ mNumBits s' = mNumBits s /\
   mOwnsMemory s' = mOwnsMemory s /\ mCursor s' = mCursor s /\
   exists buf', mData s' = Some buf' /\ 8 * Z.of_nat (length buf') = nb /\
     forall old, mData s = Some old ->
       forall i : nat,
         Z.of_nat i < divideAndRoundUp (mMaxBits s) BITS_PER_QUANT ->
         buf' !! i = old !! i).
Proof.
  intros H. pose proof (roundUp_quant n) as Hr.
  unfold realloc in H. cbv zeta in H, Hr |- *.
  set (nb := u32 (divideAndRoundUp n BITS_PER_QUANT * BITS_PER_QUANT)) in *.
  destruct Hr as (Hnb & Hmod & Hq).
  destruct (Z.eqb_spec nb (mMaxBits s)) as [E|E].
  { left. injection H as <-. auto. }
  right. inv_bind H as u Ha. apply assert_Ok in Ha. apply Z.ltb_lt in Ha.
  inv_bind H as buf' Ha0. injection H as <-. simpl.
  repeat (split; [solve [auto] |]).
  exists buf'. split; [reflexivity |].
  assert (Hlen : 8 * Z.of_nat (length (bs_allocN uninit (divideAndRoundUp nb BITS_PER_QUANT))) = nb).
  { rewrite bs_allocN_length, Hq. Z.div_mod_to_equations. lia. }
  destruct (mData s) as [old|] eqn:Eold.
  - split.
    + apply memcpy_length in Ha0. rewrite Ha0. exact Hlen.
    + intros old' [= <-] i Hi.
      change (BYTES_PER_QUANT) with 1 in Ha0. rewrite Z.mul_1_r in Ha0.
      apply (memcpy_lookup_in _ _ _ _ _ i) in Ha0; [| exact Hi].
      exact Ha0.
  - injection Ha0 as <-. split; [exact Hlen | discriminate].
Qed.

Lemma reallocIfNeeded_Ok (s : Bitstream) (n : Z) (s' : Bitstream) :
  reallocIfNeeded uninit s n = Ok s' ->
  (n <= mMaxBits s /\ s' = s) \/
  (mMaxBits s < n /\ mOwnsMemory s = true /\
   realloc uninit s (u32 (n + 4 * BITS_PER_QUANT + n / 2)) = Ok s').
Proof.
  unfold reallocIfNeeded.
  destruct (Z.ltb_spec (mMaxBits s) n) as [L|L].
  - destruct (mOwnsMemory s); [auto |]. discriminate.
  - intros [= <-]. left. auto.
Qed.

(** Growth changes neither length, cursor nor ownership, and never lowers
    the capacity. *)
Lemma reallocIfNeeded_fields (s : Bitstream) (n : Z) (s' : Bitstream) :
  reallocIfNeeded uninit s n = Ok s' ->
  mNumBits s' = mNumBits s /\ mOwnsMemory s' = mOwnsMemory s /\
  mCursor s' = mCursor s /\ mMaxBits s <= mMaxBits s' /\
  (mOwnsMemory s = false -> s' = s /\ n <= mMaxBits s).
Proof.
  intros H. apply reallocIfNeeded_Ok in H as [[H1 ->] | (H1 & H2 & H3)].
  - repeat split; auto; lia.
  - apply realloc_Ok in H3 as [[H3 ->] | (H3 & H4 & H5 & H6 & H7 & _)].
    + repeat split; auto; try lia; congruence.
    + repeat split; auto; try lia; congruence.
Qed.

(** A stream that owns its buffer keeps exactly [mMaxBits / 8] bytes. *)
Lemma reallocIfNeeded_owned (s : Bitstream) (n : Z) (s' : Bitstream) :
  reallocIfNeeded uninit s n = Ok s' ->
  8 * bufLen s = mMaxBits s -> 8 * bufLen s' = mMaxBits s'.
Proof.
  intros H Hs. apply reallocIfNeeded_Ok in H as [[H1 ->] | (H1 & H2 & H3)].
  - exact Hs.
  - apply realloc_Ok in H3 as [[H3 ->] | (H3 & H4 & _ & _ & _ & buf' & Hb & Hl & _)].
    + exact Hs.
    + unfold bufLen. rewrite Hb, H4. exact Hl.
Qed.

(** Every bit of the old buffer is a bit of the buffer after growth. *)
Lemma reallocIfNeeded_bits (s : Bitstream) (n : Z) (s' : Bitstream) (i : Z) :
  reallocIfNeeded uninit s n = Ok s' ->
  is_u32 (mMaxBits s) ->
  8 * bufLen s = mMaxBits s ->
  0 <= i < 8 * bufLen s ->
  streamBit s' i = streamBit s i.
Proof.
  intros H Hu Hs Hi. apply reallocIfNeeded_Ok in H as [[H1 ->] | (H1 & H2 & H3)].
  - reflexivity.
  - apply realloc_Ok in H3 as [[H3 ->] | (H3 & H4 & _ & _ & _ & buf' & Hb & Hl & Hold)].
    + reflexivity.
    + unfold streamBit, bufLen in *. rewrite Hb.
      destruct (mData s) as [old|] eqn:Eold; [| lia].
      unfold getBit. rewrite (Hold old eq_refl); [reflexivity |].
      unfold divideAndRoundUp, u32, is_u32 in *. change BITS_PER_QUANT with 8.
      change (2 ^ 32) with 4294967296 in *.
      rewrite Z2Nat.id by (Z.div_mod_to_equations; lia).
      Z.div_mod_to_equations. lia.
Qed.

(** ** [writeBits] stays inside the buffer *)

(** What a completed [writeBits] of [count > 0] bits did: it grew the buffer
    if needed, wrote inside the buffer, and moved cursor and length. *)
Lemma writeBits_Ok (s : Bitstream) (data : list Z) (count : Z) (s' : Bitstream) :
  writeBits uninit s data count = Ok s' ->
  count <> 0 -> is_u32 (mCursor s) -> is_u32 count ->
  exists s1 buf1 buf',
    reallocIfNeeded uninit s (u32 (mCursor s + count)) = Ok s1 /\
    mData s1 = Some buf1 /\ length buf' = length buf1 /\
    mCursor s + count <= 8 * Z.of_nat (length buf1) /\
    s' = mkBitstream (Some buf') (mMaxBits s1)
           (Z.max (mNumBits s1) (u32 (mCursor s + count)))
           (mOwnsMemory s1) (u32 (mCursor s + count)).
Proof.
  unfold writeBits. intros H Hc0 Hcur Hcount.
  destruct (Z.eqb_spec count 0) as [|_]; [contradiction |].
  cbv zeta in H. inv_bind H as s1 Hs1.
  pose proof (reallocIfNeeded_fields _ _ _ Hs1) as (_ & _ & Hcur1 & _).
  rewrite Hcur1, land_quant_mask, !shiftr_quant_log2 in H.
  inv_bind H as buf1 Hbuf1.
  destruct (mData s1) as [b|] eqn:Eb; [| discriminate].
  injection Hbuf1 as ->.
  inv_bind H as buf' Hw. injection H as <-.
  exists s1, buf1, buf'. split; [exact Hs1 |]. split; [exact Eb |].
  unfold is_u32 in *.
  assert (Hdq : 0 <= mCursor s / 8) by (apply Z.div_pos; lia).
  assert (Hm : 0 <= mCursor s mod 8 < 8) by (apply Z.mod_pos_bound; lia).
  pose proof (Z.div_mod (mCursor s) 8 ltac:(lia)) as Hdm.
  destruct (Z.eqb_spec (mCursor s mod 8) 0) as [Ea|Ea].
  - inv_bind Hw as bufm Hcp.
    change BYTES_PER_QUANT with 1 in Hcp. change BITS_PER_QUANT with 8 in Hw.
    rewrite Z.mul_1_r in Hcp.
    pose proof (memcpy_length _ _ _ _ _ Hcp) as Hlm.
    apply memcpy_Ok in Hcp as (_ & _ & Hin & _).
    assert (Hnq : 0 <= count / 8) by (apply Z.div_pos; lia).
    apply write_loop_bounds in Hw; [| lia | lia].
    destruct Hw as [Hl' Hb]. rewrite Hlm in Hl', Hb.
    split; [exact Hl' |]. split; [| reflexivity].
    pose proof (Z.div_mod count 8 ltac:(lia)) as Hcm.
    pose proof (Z.mod_pos_bound count 8 ltac:(lia)) as Hcr.
    destruct (Z.eq_dec (count mod 8) 0); lia.
  - apply write_loop_bounds in Hw; [| lia | lia].
    destruct Hw as [Hl' Hb]. split; [exact Hl' |]. split; [| reflexivity].
    lia.
Qed.

(** ** Well-formedness is kept by every operation *)

Lemma reallocIfNeeded_u32 (s : Bitstream) (n : Z) (s' : Bitstream) :
  reallocIfNeeded uninit s n = Ok s' ->
  is_u32 (mMaxBits s) -> is_u32 (mMaxBits s').
Proof.
  intros H Hu. apply reallocIfNeeded_Ok in H as [[H1 ->] | (H1 & H2 & H3)];
    [exact Hu |].
  apply realloc_Ok in H3 as [[H3 ->] | (H3 & H4 & _)]; [exact Hu |].
  rewrite H4. apply u32_range.
Qed.

Lemma writeBits_wf (s : Bitstream) (data : list Z) (count : Z) (s' : Bitstream) :
  wf s -> is_u32 count -> writeBits uninit s data count = Ok s' -> wf s'.
Proof.
  intros Hwf Hc H. destruct (Z.eq_dec count 0) as [->|Hc0].
  { injection H as <-. exact Hwf. }
  destruct Hwf as (HM & HN & HC & HNM & HCM & Hown).
  apply writeBits_Ok in H as (s1 & buf1 & buf' & Hs1 & Hb1 & Hl & Hin & ->);
    [| assumption ..].
  pose proof (reallocIfNeeded_u32 _ _ _ Hs1 HM) as HM1.
  pose proof (reallocIfNeeded_fields _ _ _ Hs1) as (HN1 & HO1 & HC1 & Hmono & Hext).
  pose proof (u32_range (mCursor s + count)) as Hnc.
  unfold wf, is_u32 in *. simpl. rewrite HN1, HO1.
  destruct (mOwnsMemory s) eqn:Eown.
  - specialize (Hown eq_refl).
    apply (reallocIfNeeded_owned _ _ _ Hs1) in Hown.
    unfold bufLen in Hown |- *. rewrite Hb1 in Hown. simpl. rewrite Hl.
    rewrite (u32_small (mCursor s + count)) by (unfold is_u32 in *; lia).
    repeat split; try lia.
  - destruct (Hext eq_refl) as [-> Hle].
    repeat split; try lia; try discriminate.
Qed.

Lemma write_bool_wf (s : Bitstream) (value : bool) (s' : Bitstream) :
  wf s -> write_bool uninit s value = Ok s' -> wf s'.
Proof.
  unfold write_bool. intros Hwf H.
  destruct Hwf as (HM & HN & HC & HNM & HCM & Hown).
  inv_bind H as s1 Hs1. cbv zeta in H.
  pose proof (reallocIfNeeded_u32 _ _ _ Hs1 HM) as HM1.
  pose proof (reallocIfNeeded_fields _ _ _ Hs1) as (HN1 & HO1 & HC1 & Hmono & Hext).
  rewrite HC1, shiftr_quant_log2 in H.
  inv_bind H as buf1 Hb1.
  destruct (mData s1) as [b|] eqn:Eb; [| discriminate]. injection Hb1 as ->.
  inv_bind H as old Hold. inv_bind H as buf' Hst. injection H as <-.
  apply load_Ok in Hold as [Hidx _]. apply store_length in Hst.
  pose proof (u32_range (mCursor s + 1)) as Hnc.
  unfold wf, is_u32 in *. simpl. rewrite HN1, HO1.
  destruct (mOwnsMemory s) eqn:Eown.
  - specialize (Hown eq_refl).
    apply (reallocIfNeeded_owned _ _ _ Hs1) in Hown.
    unfold bufLen in Hown |- *. rewrite Eb in Hown. simpl. rewrite Hst.
    assert (mCursor s + 1 <= mMaxBits s1) by (Z.div_mod_to_equations; lia).
    rewrite (u32_small (mCursor s + 1)) by (unfold is_u32 in *; lia).
    repeat split; try lia.
  - destruct (Hext eq_refl) as [-> Hle].
    repeat split; try lia; try discriminate.
Qed.

Lemma step_wf (s : Bitstream) (o : operation) (s' : Bitstream) :
  wf s -> well_typed o -> step uninit s o = Ok s' -> wf s'.
Proof.
  intros Hwf Ht H. destruct o as [d c|d c|v|v|b| |c|p|c]; simpl in H, Ht.
  - eapply writeBits_wf; eauto.
  - inv_bind H as r Hr. injection H as <-. destruct r as [s1 d1].
    eapply readBits_wf; eauto.
  - unfold write in H. eapply writeBits_wf; eauto. apply u32_range.
  - inv_bind H as r Hr. injection H as <-. destruct r as [s1 d1].
    unfold read in Hr. eapply readBits_wf; eauto.
  - eapply write_bool_wf; eauto.
  - inv_bind H as r Hr. injection H as <-. destruct r as [s1 d1].
    eapply read_bool_wf; eauto.
  - eapply skip_wf; eauto.
  - injection H as <-. apply seek_wf; assumption.
  - eapply align_wf; eauto.
Qed.

Lemma constructed_wf (s : Bitstream) : constructed uninit s -> wf s.
Proof.
  intros [| cap s0 Hcap H | d count Hc].
  - unfold wf, is_u32, bufLen. simpl. intuition lia.
  - unfold Bitstream_reserve in H. pose proof (roundUp_quant (u32 (cap * 8))) as Hr.
    apply realloc_Ok in H. cbv zeta in H, Hr. destruct Hr as (Hnb & _ & _).
    destruct H as [[_ ->] | (H1 & H2 & H3 & H4 & H5 & buf' & Hb & Hl & _)].
    + unfold wf, is_u32, bufLen. simpl. intuition lia.
    + unfold wf, is_u32, bufLen. rewrite H2, H3, H5, Hb. simpl in *.
      intuition lia.
  - unfold wf, is_u32, bufLen in *. simpl. intuition (try lia; discriminate).
Qed.

Lemma reachable_wf (s : Bitstream) : reachable uninit s -> wf s.
Proof.
  induction 1 as [s Hc | s o s' _ IH Ht Hs].
  - apply constructed_wf. exact Hc.
  - eapply step_wf; eauto.
Qed.

(** ** Capacity over runs of operations *)

Lemma writeBits_capacity (s : Bitstream) (data : list Z) (count : Z) (s' : Bitstream) :
  writeBits uninit s data count = Ok s' ->
  mMaxBits s <= mMaxBits s' /\ mOwnsMemory s' = mOwnsMemory s /\
  (mOwnsMemory s = false -> mMaxBits s' = mMaxBits s).
Proof.
  unfold writeBits. intros H. destruct (count =? 0).
  { injection H as <-. split; [lia | auto]. }
  cbv zeta in H. inv_bind H as s1 Hs1. inv_bind H as buf1 Hb1.
  inv_bind H as buf' Hw. injection H as <-. simpl.
  apply reallocIfNeeded_fields in Hs1 as (_ & HO & _ & Hmono & Hext).
  split; [exact Hmono |]. split; [exact HO |].
  intros E. destruct (Hext E) as [-> _]. reflexivity.
Qed.

Lemma write_bool_capacity (s : Bitstream) (value : bool) (s' : Bitstream) :
  write_bool uninit s value = Ok s' ->
  mMaxBits s <= mMaxBits s' /\ mOwnsMemory s' = mOwnsMemory s /\
  (mOwnsMemory s = false -> mMaxBits s' = mMaxBits s).
Proof.
  unfold write_bool. intros H.
  inv_bind H as s1 Hs1. cbv zeta in H. inv_bind H as buf1 Hb1.
  inv_bind H as old Hold. inv_bind H as buf' Hst. injection H as <-. simpl.
  apply reallocIfNeeded_fields in Hs1 as (_ & HO & _ & Hmono & Hext).
  split; [exact Hmono |]. split; [exact HO |].
  intros E. destruct (Hext E) as [-> _]. reflexivity.
Qed.

Lemma step_capacity (s : Bitstream) (o : operation) (s' : Bitstream) :
  step uninit s o = Ok s' ->
  mMaxBits s <= mMaxBits s' /\ mOwnsMemory s' = mOwnsMemory s /\
  (mOwnsMemory s = false -> mMaxBits s' = mMaxBits s).
Proof.
  intros H. destruct o as [d c|d c|v|v|b| |c|p|c]; simpl in H.
  - eapply writeBits_capacity; eauto.
  - inv_bind H as r Hr. injection H as <-. destruct r as [s1 d1]. simpl.
    apply readBits_capacity in Hr as (-> & -> & _). split; [lia | auto].
  - eapply writeBits_capacity; eauto.
  - inv_bind H as r Hr. injection H as <-. destruct r as [s1 d1]. simpl.
    apply readBits_capacity in Hr as (-> & -> & _). split; [lia | auto].
  - eapply write_bool_capacity; eauto.
  - inv_bind H as r Hr. injection H as <-. destruct r as [s1 d1]. simpl.
    apply read_bool_capacity in Hr as (-> & -> & _). split; [lia | auto].
  - apply skip_capacity in H as (-> & -> & _). split; [lia | auto].
  - injection H as <-. simpl. split; [lia | auto].
  - apply align_capacity in H as (-> & -> & _). split; [lia | auto].
Qed.

Lemma run_capacity (os : list operation) :
  forall s s' : Bitstream,
  run uninit s os = Ok s' ->
  mMaxBits s <= mMaxBits s' /\ mOwnsMemory s' = mOwnsMemory s /\
  (mOwnsMemory s = false -> mMaxBits s' = mMaxBits s).
Proof.
  induction os as [|o os IH]; intros s s' H; simpl in H.
  - injection H as <-. split; [lia | auto].
  - inv_bind H as s1 Hs1. apply step_capacity in Hs1 as (H1 & H2 & H3).
    apply IH in H as (H4 & H5 & H6).
    split; [lia |]. split; [congruence |].
    intros E. rewrite H6 by congruence. auto.
Qed.

(** ** Growth succeeds and follows the policy while the sizes fit 32 bits *)

Lemma realloc_grows (s : Bitstream) (n : Z) :
  is_u32 (mMaxBits s) -> 8 * bufLen s = mMaxBits s ->
  0 <= n -> n + 7 < 2 ^ 32 -> mMaxBits s < n ->
  exists s', realloc uninit s n = Ok s'.
Proof.
  intros HM Hlen Hn0 Hn Hlt. unfold realloc. cbv zeta.
  pose proof (roundUp_quant n) as Hr. cbv zeta in Hr.
  rewrite (roundUp_quant_small n Hn0 Hn) in Hr |- *.
  destruct Hr as (Hnb & Hmod & Hq).
  set (nb := (n + 7) / 8 * 8) in *.
  assert (Hge : n <= nb) by (subst nb; Z.div_mod_to_equations; lia).
  destruct (Z.eqb_spec nb (mMaxBits s)) as [E|_]; [lia |].
  destruct (Z.ltb_spec (mMaxBits s) nb) as [_|]; [| lia]. simpl.
  destruct (mData s) as [old|] eqn:Eold; [| eauto].
  unfold memcpy. rewrite bs_allocN_length, Hq.
  unfold bufLen in Hlen. rewrite Eold in Hlen.
  unfold divideAndRoundUp, is_u32 in *. change BITS_PER_QUANT with 8.
  change BYTES_PER_QUANT with 1. rewrite Z.mul_1_r.
  rewrite (u32_small (mMaxBits s + 8 - 1)) by (unfold is_u32; lia).
  simpl.
  destruct (Z.ltb_spec ((mMaxBits s + 8 - 1) / 8) 0) as [L|_];
    [Z.div_mod_to_equations; lia |].
  destruct (Z.ltb_spec (Z.of_nat (Z.to_nat (nb / 8))) (0 + (mMaxBits s + 8 - 1) / 8))
    as [L|_]; [Z.div_mod_to_equations; lia |].
  destruct (Z.ltb_spec (Z.of_nat (length old)) ((mMaxBits s + 8 - 1) / 8))
    as [L|_]; [Z.div_mod_to_equations; lia |].
  eauto.
Qed.

(** ** Growth policy (C3) and the capacity invariants (C4) *)

(** C3, as amended.  When a write on a stream that owns its buffer needs
    [requiredBits], more than the capacity, and
    [requiredBits + 4 quanta + requiredBits / 2], rounded up to whole quanta,
    still fits 32 bits, the growth step completes, the new capacity is that
    rounded sum, and the [ceil(oldCapacity / 8)] bytes of the old buffer are
    the first bytes of the new one.  Across any run of operations that
    completes, the capacity never decreases. *)
Theorem growth_policy (s : Bitstream) (requiredBits : Z)
    (os : list operation) (t t' : Bitstream) :
  wf s -> mOwnsMemory s = true ->
  mMaxBits s < requiredBits ->
  requiredBits + 4 * BITS_PER_QUANT + requiredBits / 2 + 7 < 2 ^ 32 ->
  run uninit t os = Ok t' ->
  (exists s',
     reallocIfNeeded uninit s requiredBits = Ok s' /\
     mMaxBits s' =
       roundUpQuanta (requiredBits + 4 * BITS_PER_QUANT + requiredBits / 2) /\
     forall old, mData s = Some old ->
       exists new, mData s' = Some new /\
         forall i : nat, Z.of_nat i < bytesFor (mMaxBits s) ->
           new !! i = old !! i) /\
  mMaxBits t <= mMaxBits t'.
Proof.
  intros Hwf Hown Hlt Hfit Hrun.
  split; [| apply run_capacity in Hrun as [Hrun _]; exact Hrun].
  destruct Hwf as (HM & _ & _ & _ & _ & Hlen). specialize (Hlen Hown).
  change BITS_PER_QUANT with 8 in Hfit |- *.
  assert (Hreq : 0 <= requiredBits) by (unfold is_u32 in HM; lia).
  assert (Hhalf : 0 <= requiredBits / 2) by (apply Z.div_pos; lia).
  set (newMaxBits := requiredBits + 4 * 8 + requiredBits / 2) in *.
  assert (Hgrow : reallocIfNeeded uninit s requiredBits =
                  realloc uninit s newMaxBits).
  { unfold reallocIfNeeded. destruct (Z.ltb_spec (mMaxBits s) requiredBits); [| lia].
    rewrite Hown. change BITS_PER_QUANT with 8. fold newMaxBits.
    rewrite u32_small by (unfold is_u32; lia). reflexivity. }
  destruct (realloc_grows s newMaxBits) as [s' Hs']; try assumption; try lia.
  exists s'. rewrite Hgrow. split; [exact Hs' |].
  apply realloc_Ok in Hs'. cbv zeta in Hs'.
  rewrite (roundUp_quant_small newMaxBits) in Hs' by lia.
  assert (Hup : newMaxBits <= (newMaxBits + 7) / 8 * 8)
    by (Z.div_mod_to_equations; lia).
  destruct Hs' as [[E _] | (_ & HM' & _ & _ & _ & new & Hnew & _ & Hold)];
    [lia |].
  split.
  - rewrite HM'. unfold roundUpQuanta, nextBoundary. change BITS_PER_QUANT with 8.
    f_equal. f_equal. lia.
  - intros old Eold. exists new. split; [exact Hnew |].
    intros i Hi. apply (Hold old Eold).
    unfold bytesFor in Hi. unfold divideAndRoundUp.
    change BITS_PER_QUANT with 8 in Hi |- *.
    rewrite u32_small by (unfold is_u32 in *; lia). exact Hi.
Qed.

(** C4, as amended.  In every state a program can reach (a constructor, then
    operations that complete: no assertion failed, no access left a buffer,
    and the [int32_t] sum of no [skip], called directly or by [align],
    overflowed), the length is at most the capacity and the cursor lies
    between 0 and the capacity. *)
Theorem length_and_cursor_within_capacity (s : Bitstream) :
  reachable uninit s ->
  mNumBits s <= mMaxBits s /\ 0 <= mCursor s <= mMaxBits s.
Proof.
  intros H. apply reachable_wf in H.
  destruct H as (_ & _ & HC & HNM & HCM & _). unfold is_u32 in HC. lia.
Qed.

End Growth.

(** ** Moving the cursor: skip and seek (C6) *)

(** While capacity and target position fit [int32_t], [skip] completes,
    moves the cursor by [delta] and clamps it into [[0, capacity]]. *)
Lemma skip_cursor (s : Bitstream) (delta : Z) :
  0 <= mCursor s <= mMaxBits s -> mMaxBits s < 2 ^ 31 ->
  - 2 ^ 31 <= mCursor s + delta < 2 ^ 31 ->
  skip s delta =
  Ok (mkBitstream (mData s) (mMaxBits s) (mNumBits s) (mOwnsMemory s)
        (Z.max 0 (Z.min (mCursor s + delta) (mMaxBits s)))).
Proof.
  intros Hc HM Hsum. unfold skip, clamp.
  rewrite (s32_small (mCursor s)) by lia.
  rewrite int32_add_small by lia. simpl.
  rewrite (s32_small (mMaxBits s)) by lia.
  rewrite u32_small by (unfold is_u32; lia). do 2 f_equal. lia.
Qed.

(** A [skip] that ends at or before bit 0 leaves the cursor at 0, whatever the
    capacity. *)
Lemma skip_to_start (s : Bitstream) (delta : Z) :
  0 <= mCursor s < 2 ^ 31 -> - 2 ^ 31 <= mCursor s + delta <= 0 ->
  skip s delta =
  Ok (mkBitstream (mData s) (mMaxBits s) (mNumBits s) (mOwnsMemory s) 0).
Proof.
  intros Hc Hsum. unfold skip, clamp.
  rewrite (s32_small (mCursor s)) by lia.
  rewrite int32_add_small by lia. simpl.
  rewrite Z.max_r by lia. reflexivity.
Qed.

(** C6, as amended.  For every state whose cursor is within a capacity below
    2^31 bits and every delta with [cursor + delta] in the range of
    [int32_t], [skip] completes and sets the cursor to [cursor + delta]
    clamped to [[0, capacity]].  For every state, [seek(pos)] sets the cursor
    to [min(pos, capacity)], and neither [seek] nor a [skip] that completes
    changes capacity or buffer.  [seek(capacity + 1000)] ends at the capacity
    whenever [capacity + 1000] is a value of [uint32_t], and [skip(-1000)]
    from position 5 ends at 0. *)
Theorem skip_seek_clamp (s : Bitstream) (delta pos : Z) :
  (0 <= mCursor s <= mMaxBits s -> mMaxBits s < 2 ^ 31 ->
   - 2 ^ 31 <= mCursor s + delta < 2 ^ 31 ->
   exists s', skip s delta = Ok s' /\
     mCursor s' = Z.max 0 (Z.min (mCursor s + delta) (mMaxBits s))) /\
  mCursor (seek s pos) = Z.min pos (mMaxBits s) /\
  (forall s', skip s delta = Ok s' ->
     mMaxBits s' = mMaxBits s /\ mData s' = mData s) /\
  (mMaxBits (seek s pos) = mMaxBits s /\ mData (seek s pos) = mData s) /\
  (0 <= capacity s -> capacity s + 1000 < 2 ^ 32 ->
   tell (seek s (u32 (capacity s + 1000))) = capacity s) /\
  (tell s = 5 -> exists s', skip s (-1000) = Ok s' /\ tell s' = 0).
Proof.
  split.
  { intros Hc HM Hsum. eexists. split; [apply skip_cursor; assumption |].
    reflexivity. }
  split; [reflexivity |].
  split.
  { intros s' H. apply skip_capacity in H as (H1 & _ & H2). auto. }
  split; [split; reflexivity |].
  unfold tell, capacity. split.
  - intros H0 H1. rewrite u32_small by (unfold is_u32; lia). simpl. lia.
  - intros H5. eexists. split; [apply skip_to_start; lia |]. reflexivity.
Qed.

(** ** Alignment (C5) *)

Lemma land_le_r (a b : Z) : 0 <= b -> 0 <= Z.land a b <= b.
Proof.
  intros Hb. apply Z.ldiff_le; [exact Hb |].
  apply Z.bits_inj'. intros n Hn.
  rewrite Z.ldiff_spec, Z.land_spec, Z.bits_0.
  destruct (Z.testbit a n), (Z.testbit b n); reflexivity.
Qed.

(** Clearing the bits of [mask] in [x] and then adding [mask] sets them all. *)
Lemma land_fill_mask (x mask : Z) :
  Z.land (x - Z.land x mask + mask) mask = mask.
Proof.
  assert (H1 : x - Z.land x mask = Z.ldiff x (Z.land x mask)).
  { apply Z.sub_nocarry_ldiff. apply Z.bits_inj'. intros n Hn.
    rewrite Z.ldiff_spec, Z.land_spec, Z.bits_0.
    destruct (Z.testbit x n), (Z.testbit mask n); reflexivity. }
  rewrite H1.
  assert (H2 : Z.land (Z.ldiff x (Z.land x mask)) mask = 0).
  { apply Z.bits_inj'. intros n Hn.
    rewrite Z.land_spec, Z.ldiff_spec, Z.land_spec, Z.bits_0.
    destruct (Z.testbit x n), (Z.testbit mask n); reflexivity. }
  rewrite (Z.add_nocarry_lxor _ _ H2).
  apply Z.bits_inj'. intros n Hn.
  rewrite Z.land_spec, Z.lxor_spec, Z.ldiff_spec, Z.land_spec.
  destruct (Z.testbit x n), (Z.testbit mask n); reflexivity.
Qed.

Lemma Bitstream_eta (s : Bitstream) :
  mkBitstream (mData s) (mMaxBits s) (mNumBits s) (mOwnsMemory s) (mCursor s) = s.
Proof. destruct s. reflexivity. Qed.

Lemma align_fields (s : Bitstream) (count : Z) (s' : Bitstream) :
  align s count = Ok s' ->
  s' = mkBitstream (mData s) (mMaxBits s) (mNumBits s) (mOwnsMemory s)
         (mCursor s').
Proof.
  unfold align. intros H. destruct (count =? 0).
  - injection H as <-. symmetry. apply Bitstream_eta.
  - apply skip_Ok in H as [_ ->]. reflexivity.
Qed.

(** The position [align] moves to, for any alignment: the bits of the mask
    [8 * count - 1] are filled in [cursor - 1]. *)
Lemma align_cursor (s : Bitstream) (count : Z) :
  0 < count -> 0 <= mCursor s <= mMaxBits s ->
  mMaxBits s + 8 * count <= 2 ^ 31 ->
  let mask := 8 * count - 1 in
  let y := Z.land (u32 (mCursor s - 1)) mask in
  0 <= y <= mask /\
  align s count =
  Ok (mkBitstream (mData s) (mMaxBits s) (mNumBits s) (mOwnsMemory s)
        (Z.min (mCursor s + (mask - y)) (mMaxBits s))).
Proof.
  intros Hc Hcur Hfit mask y.
  assert (Hy : 0 <= y <= mask) by (apply land_le_r; lia).
  split; [exact Hy |].
  unfold align. destruct (Z.eqb_spec count 0) as [|_]; [lia |].
  cbv zeta. rewrite (u32_small (count * 8)) by (unfold is_u32; lia).
  replace (count * 8 - 1) with mask by lia.
  rewrite (u32_small mask) by (unfold is_u32; lia). fold y.
  rewrite (u32_small (y + 1)) by (unfold is_u32; lia).
  rewrite (u32_small (count * 8 - (y + 1))) by (unfold is_u32; lia).
  rewrite s32_small by lia.
  rewrite skip_cursor by lia. do 2 f_equal. lia.
Qed.

(** For a power of two the filled position is the next boundary. *)
Lemma align_mask_pow2 (c k : Z) :
  0 <= c < 2 ^ 32 -> 0 <= k -> 8 * 2 ^ k <= 2 ^ 31 ->
  c + (8 * 2 ^ k - 1 - Z.land (u32 (c - 1)) (8 * 2 ^ k - 1)) =
  nextBoundary c (2 ^ k * 8).
Proof.
  intros Hc Hk Hfit.
  assert (Hk28 : k <= 28).
  { apply (Z.pow_le_mono_r_iff 2); lia. }
  assert (Hbits : 8 * 2 ^ k = 2 ^ (k + 3)).
  { rewrite Z.pow_add_r by lia. lia. }
  rewrite Hbits. replace (2 ^ k * 8) with (2 ^ (k + 3)) by lia.
  change (2 ^ (k + 3) - 1) with (Z.pred (2 ^ (k + 3))).
  rewrite <- Z.ones_equiv, Z.land_ones by lia.
  unfold u32. rewrite Z.mod_mod_divide.
  2:{ exists (2 ^ (29 - k)). rewrite <- Z.pow_add_r by lia. f_equal. lia. }
  set (bits := 2 ^ (k + 3)).
  assert (Hpos : 0 < bits) by (apply Z.pow_pos_nonneg; lia).
  unfold nextBoundary.
  replace (c + bits - 1) with (c - 1 + 1 * bits) by lia.
  rewrite Z.div_add by lia.
  pose proof (Z.div_mod (c - 1) bits ltac:(lia)) as Hdm.
  rewrite Z.ones_equiv. fold bits. lia.
Qed.

Lemma nextBoundary_aligned (c bits : Z) :
  0 < bits -> c mod bits = 0 -> nextBoundary c bits = c.
Proof.
  intros Hb Hc. unfold nextBoundary.
  pose proof (Z.div_mod c bits ltac:(lia)) as Hdm. rewrite Hc in Hdm.
  replace (c + bits - 1) with (bits - 1 + (c / bits) * bits) by lia.
  rewrite Z.div_add by lia. rewrite Z.div_small by lia. lia.
Qed.

Lemma align_idempotent (s : Bitstream) (count : Z) :
  0 <= count -> 0 <= mCursor s <= mMaxBits s ->
  mMaxBits s + 8 * count <= 2 ^ 31 ->
  exists s1, align s count = Ok s1 /\ align s1 count = Ok s1.
Proof.
  intros Hc Hcur Hfit.
  destruct (Z.eq_dec count 0) as [->|Hne]; [exists s; split; reflexivity |].
  destruct (align_cursor s count) as [Hy Hs1]; try lia.
  cbv zeta in Hy, Hs1.
  set (mask := 8 * count - 1) in *.
  set (c1 := Z.min (mCursor s + (mask - Z.land (u32 (mCursor s - 1)) mask))
               (mMaxBits s)) in *.
  set (s1 := mkBitstream (mData s) (mMaxBits s) (mNumBits s) (mOwnsMemory s) c1)
    in *.
  exists s1. split; [exact Hs1 |].
  destruct (align_cursor s1 count) as [Hy1 Hs2]; try (simpl; lia).
  cbv zeta in Hy1, Hs2. fold mask in Hy1, Hs2. rewrite Hs2.
  unfold s1 at 5. f_equal. f_equal. simpl.
  destruct (Z.le_gt_cases (mMaxBits s)
              (mCursor s + (mask - Z.land (u32 (mCursor s - 1)) mask)))
    as [Hclamp|Hfree]; [simpl in Hy1; lia |].
  assert (Hsame : Z.land (u32 (c1 - 1)) mask = mask).
  { unfold c1. rewrite Z.min_l by lia.
    destruct (Z.eq_dec (mCursor s) 0) as [E0|E0].
    - rewrite E0 in *. change (u32 (0 - 1)) with (Z.ones 32) in *.
      assert (E : Z.land (Z.ones 32) mask = mask).
      { rewrite Z.land_comm, Z.land_ones by lia. apply Z.mod_small. lia. }
      rewrite E. replace (0 + (mask - mask) - 1) with (0 - 1) by lia.
      exact E.
    - rewrite (u32_small (mCursor s - 1)) in * by (unfold is_u32; lia).
      rewrite u32_small by (unfold is_u32; lia).
      replace (mCursor s + (mask - Z.land (mCursor s - 1) mask) - 1)
        with (mCursor s - 1 - Z.land (mCursor s - 1) mask + mask) by lia.
      apply land_fill_mask. }
  rewrite Hsame. lia.
Qed.

(** C5, as amended.  On a stream whose cursor is within the capacity: with
    capacity plus one alignment unit at most 2^31 bits, for a power of two
    [2^k] of bytes [align] completes and moves the cursor to the next
    multiple of [2^k * 8] bits, clamped to the capacity, and leaves a cursor
    already on such a multiple alone; [align(0)] changes nothing; and for
    every byte count within the same bound a second [align] in a row changes
    nothing. *)
Theorem align_next_boundary (s : Bitstream) (k byteCount : Z) :
  0 <= mCursor s <= mMaxBits s ->
  (0 <= k -> mMaxBits s + 8 * 2 ^ k <= 2 ^ 31 ->
   exists s1, align s (2 ^ k) = Ok s1 /\
     tell s1 = Z.min (nextBoundary (tell s) (2 ^ k * 8)) (capacity s) /\
     (tell s mod (2 ^ k * 8) = 0 -> tell s1 = tell s)) /\
  align s 0 = Ok s /\
  (0 <= byteCount -> mMaxBits s + 8 * byteCount <= 2 ^ 31 ->
   exists s1, align s byteCount = Ok s1 /\ align s1 byteCount = Ok s1).
Proof.
  intros Hcur. unfold tell, capacity. split.
  - intros Hk Hfit.
    assert (Hpos : 0 < 2 ^ k) by (apply Z.pow_pos_nonneg; lia).
    destruct (align_cursor s (2 ^ k)) as [_ Hs1]; try lia.
    cbv zeta in Hs1.
    eexists. split; [exact Hs1 |]. simpl.
    assert (Hnext : Z.min (mCursor s + (8 * 2 ^ k - 1 -
                       Z.land (u32 (mCursor s - 1)) (8 * 2 ^ k - 1))) (mMaxBits s) =
                    Z.min (nextBoundary (mCursor s) (2 ^ k * 8)) (mMaxBits s)).
    { rewrite <- align_mask_pow2 by lia. reflexivity. }
    split; [exact Hnext |].
    intros Hal. rewrite Hnext, nextBoundary_aligned by lia. lia.
  - split; [reflexivity |]. intros Hb Hfitb.
    apply align_idempotent; assumption.
Qed.

(** ** Single bits (C7) *)

Lemma set_bit_testbit (c m j : Z) :
  0 <= m < 8 -> 0 <= j < 8 ->
  Z.testbit (u8 (Z.lor (u8 c) (u32 (Z.shiftl 1 m)))) j =
  Z.testbit c j || (j =? m).
Proof.
  intros Hm Hj. rewrite u8_testbit, Z.lor_spec, u8_testbit by lia.
  rewrite Z.shiftl_1_l.
  assert (H2 : 0 < 2 ^ m < 2 ^ 32).
  { split; [apply Z.pow_pos_nonneg; lia | apply Z.pow_lt_mono_r; lia]. }
  rewrite u32_small by (unfold is_u32; lia).
  rewrite Z.pow2_bits_eqb by lia. rewrite (Z.eqb_sym m j). reflexivity.
Qed.

Lemma clear_bit_testbit (c m j : Z) :
  0 <= m < 8 -> 0 <= j < 8 ->
  Z.testbit (u8 (Z.land (u8 c) (u32 (Z.lnot (u32 (Z.shiftl 1 m)))))) j =
  Z.testbit c j && negb (j =? m).
Proof.
  intros Hm Hj. rewrite u8_testbit, Z.land_spec, u8_testbit by lia.
  rewrite Z.shiftl_1_l.
  assert (H2 : 0 < 2 ^ m < 2 ^ 32).
  { split; [apply Z.pow_pos_nonneg; lia | apply Z.pow_lt_mono_r; lia]. }
  rewrite (u32_small (2 ^ m)) by (unfold is_u32; lia).
  unfold u32. rewrite Z.mod_pow2_bits_low by lia.
  rewrite Z.lnot_spec by lia.
  rewrite Z.pow2_bits_eqb by lia. rewrite (Z.eqb_sym m j). reflexivity.
Qed.

(** The bits of a buffer after one byte was stored. *)
Lemma getBit_store (buf : list Z) (i v : Z) (buf' : list Z) (k : Z) :
  store buf i v = Ok buf' -> 0 <= k ->
  getBit buf' k = if k / 8 =? i then Z.testbit v (k mod 8) else getBit buf k.
Proof.
  intros H Hk. apply store_Ok in H as [Hi ->]. unfold getBit.
  assert (Hq : 0 <= k / 8) by (apply Z.div_pos; lia).
  destruct (Z.eqb_spec (k / 8) i) as [->|Hne].
  - rewrite list_lookup_insert_eq by lia. reflexivity.
  - rewrite list_lookup_insert_ne by lia. reflexivity.
Qed.

Lemma getBit_load (buf : list Z) (i b : Z) (j : Z) :
  load buf i = Ok b -> 0 <= j < 8 -> Z.testbit b j = getBit buf (8 * i + j).
Proof.
  intros H Hj. apply load_Ok in H as (Hi & c & Hc & ->).
  unfold getBit.
  replace ((8 * i + j) / 8) with i by (Z.div_mod_to_equations; lia).
  replace ((8 * i + j) mod 8) with j by (Z.div_mod_to_equations; lia).
  rewrite Hc. apply u8_testbit. exact Hj.
Qed.

(** ** What a read leaves in the destination (C10) *)

Lemma read_loop_eq (m : Z) (buf data : list Z) (count sq : Z) :
  read_loop m buf data count sq =
  if 0 <? count then
    match data with
    | [] => Fault OutOfBounds
    | _ :: data =>
        do b <- load buf sq;
        let quant := u8 (Z.lor 0 (Z.shiftr b m)) in
        let readBits := BITS_PER_QUANT - m in
        do quant <-
          (if readBits <? count then
             do b <- load buf (sq + 1);
             Ok (u8 (Z.lor quant (Z.shiftl b readBits)))
           else Ok quant);
        do data <- read_loop m buf data
                     (count - Z.min BITS_PER_QUANT count) (sq + 1);
        Ok (quant :: data)
    end
  else Ok data.
Proof. destruct data; reflexivity. Qed.

Lemma getBit_at (buf : list Z) (i c j : Z) :
  buf !! Z.to_nat i = Some c -> 0 <= i -> 0 <= j < 8 ->
  getBit buf (8 * i + j) = Z.testbit c j.
Proof.
  intros H Hi Hj. unfold getBit.
  replace ((8 * i + j) / 8) with i by (Z.div_mod_to_equations; lia).
  replace ((8 * i + j) mod 8) with j by (Z.div_mod_to_equations; lia).
  rewrite H. reflexivity.
Qed.

Lemma getBit_head (b : Z) (l : list Z) (k : Z) :
  0 <= k < 8 -> getBit (b :: l) k = Z.testbit b k.
Proof.
  intros Hk. replace k with (8 * 0 + k) at 1 by lia.
  apply getBit_at; [reflexivity | lia | exact Hk].
Qed.

Lemma getBit_cons (b : Z) (l : list Z) (k : Z) :
  0 <= k -> getBit (b :: l) (8 + k) = getBit l k.
Proof.
  intros Hk. unfold getBit.
  replace ((8 + k) / 8) with (1 + k / 8) by (Z.div_mod_to_equations; lia).
  replace ((8 + k) mod 8) with (k mod 8) by (Z.div_mod_to_equations; lia).
  assert (Hq : 0 <= k / 8) by (apply Z.div_pos; lia).
  rewrite Z2Nat.inj_add by lia. reflexivity.
Qed.

Lemma getBit_app (l1 l2 : list Z) (k : Z) :
  0 <= k -> getBit (l1 ++ l2) (8 * Z.of_nat (length l1) + k) = getBit l2 k.
Proof.
  intros Hk. induction l1 as [|b l1 IH].
  - simpl. reflexivity.
  - replace (8 * Z.of_nat (length (b :: l1)) + k)
      with (8 + (8 * Z.of_nat (length l1) + k)) by (simpl length; lia).
    simpl app. rewrite getBit_cons by lia. exact IH.
Qed.

(** The byte the read loop builds from byte [c] of the stream alone. *)
Lemma read_quant_low (c m j : Z) :
  0 <= m < 8 -> 0 <= j < 8 ->
  Z.testbit (u8 (Z.lor 0 (Z.shiftr (u8 c) m))) j =
  if j + m <? 8 then Z.testbit c (j + m) else false.
Proof.
  intros Hm Hj. rewrite u8_testbit, Z.lor_0_l, Z.shiftr_spec by lia.
  destruct (Z.ltb_spec (j + m) 8).
  - apply u8_testbit. lia.
  - unfold u8. apply Z.mod_pow2_bits_high. lia.
Qed.

(** The byte the read loop builds from byte [c] and the next byte [c1]. *)
Lemma read_quant_both (c c1 m j : Z) :
  0 <= m < 8 -> 0 <= j < 8 ->
  Z.testbit (u8 (Z.lor (u8 (Z.lor 0 (Z.shiftr (u8 c) m)))
                       (Z.shiftl (u8 c1) (BITS_PER_QUANT - m)))) j =
  if j + m <? 8 then Z.testbit c (j + m) else Z.testbit c1 (j + m - 8).
Proof.
  intros Hm Hj. change BITS_PER_QUANT with 8.
  rewrite u8_testbit, Z.lor_spec, read_quant_low, Z.shiftl_spec by lia.
  replace (j - (8 - m)) with (j + m - 8) by lia.
  destruct (Z.ltb_spec (j + m) 8).
  - rewrite (Z.testbit_neg_r (u8 c1)) by lia. apply orb_false_r.
  - simpl. apply u8_testbit. lia.
Qed.

(** The last destination byte the loop writes holds, bit for bit, stream
    bits from the position of its first bit on: all eight when the loop also
    read the following stream byte, and zeros past the end of the current
    stream byte when it did not. *)
Lemma read_loop_last (m : Z) (buf : list Z) (data : list Z) :
  forall (count sq : Z) (data' : list Z),
  read_loop m buf data count sq = Ok data' ->
  0 <= m < 8 -> 0 <= sq -> 0 < count ->
  forall j, 0 <= j < 8 ->
    getBit data' (8 * ((count - 1) / 8) + j) =
    if (j + m <? 8) || (8 - m <? count - 8 * ((count - 1) / 8))
    then getBit buf (8 * (sq + (count - 1) / 8) + m + j)
    else false.
Proof.
  induction data as [|d data IH]; intros count sq data' H Hm Hsq Hc j Hj;
    rewrite read_loop_eq in H; destruct (Z.ltb_spec 0 count) as [_|]; try lia;
    [discriminate |].
  cbv zeta in H. change BITS_PER_QUANT with 8 in H.
  inv_bind H as b Hb. inv_bind H as quant Hq. inv_bind H as rest Hrest.
  injection H as <-.
  apply load_Ok in Hb as (Hi & c & Hc0 & ->).
  destruct (Z.le_gt_cases count 8) as [Hle|Hgt].
  - (* the last iteration *)
    replace ((count - 1) / 8) with 0 by (Z.div_mod_to_equations; lia).
    rewrite Z.min_r, Z.sub_diag in Hrest by lia.
    rewrite read_loop_eq in Hrest. simpl in Hrest. injection Hrest as <-.
    rewrite Z.mul_0_r, Z.sub_0_r, Z.add_0_r, Z.add_0_l.
    rewrite getBit_head by lia.
    destruct (Z.ltb_spec (8 - m) count) as [Hw|Hw].
    + inv_bind Hq as b1 Hb1. injection Hq as <-.
      apply load_Ok in Hb1 as (Hi1 & c1 & Hc1 & ->).
      change (8 - m) with (BITS_PER_QUANT - m).
      rewrite read_quant_both by lia. rewrite orb_true_r.
      destruct (Z.ltb_spec (j + m) 8).
      * replace (8 * sq + m + j) with (8 * sq + (j + m)) by lia.
        symmetry. apply getBit_at; auto; lia.
      * replace (8 * sq + m + j) with (8 * (sq + 1) + (j + m - 8)) by lia.
        symmetry. apply getBit_at; auto; lia.
    + injection Hq as <-. rewrite read_quant_low by lia. rewrite orb_false_r.
      destruct (Z.ltb_spec (j + m) 8); [| reflexivity].
      replace (8 * sq + m + j) with (8 * sq + (j + m)) by lia.
      symmetry. apply getBit_at; auto; lia.
  - (* more iterations follow *)
    rewrite Z.min_l in Hrest by lia.
    specialize (IH (count - 8) (sq + 1) rest Hrest Hm ltac:(lia) ltac:(lia) j Hj).
    assert (Hk : (count - 1) / 8 = 1 + (count - 8 - 1) / 8)
      by (Z.div_mod_to_equations; lia).
    assert (Hk0 : 0 <= (count - 8 - 1) / 8) by (apply Z.div_pos; lia).
    rewrite Hk.
    replace (8 * (1 + (count - 8 - 1) / 8) + j)
      with (8 + (8 * ((count - 8 - 1) / 8) + j)) by lia.
    rewrite getBit_cons by lia. rewrite IH.
    replace (count - 8 - 8 * ((count - 8 - 1) / 8))
      with (count - 8 * (1 + (count - 8 - 1) / 8)) by lia.
    replace (sq + 1 + (count - 8 - 1) / 8)
      with (sq + (1 + (count - 8 - 1) / 8)) by lia.
    reflexivity.
Qed.

(** C10.  A [readBits] of [count > 0] bits, [count] not a multiple of 8,
    writes the whole last destination byte: its bits at positions
    [count mod 8] and above are, whatever the destination held before,
    stream bits that follow the requested range, or zeros where the loop did
    not read the next stream byte. *)
Theorem readBits_overwrites_whole_quanta (s : Bitstream) (data : list Z)
    (count : Z) (s' : Bitstream) (data' : list Z) :
  0 <= mCursor s -> 0 < count -> count mod 8 <> 0 ->
  readBits s data count = Ok (s', data') ->
  forall j, count mod 8 <= j < 8 ->
    getBit data' (8 * (count / 8) + j) =
    if (tell s mod 8 + j <? 8) || (8 - tell s mod 8 <? count mod 8)
    then streamBit s (tell s + 8 * (count / 8) + j)
    else false.
Proof.
  intros Hcur Hc Hrem H j Hj. unfold readBits in H. unfold tell.
  destruct (Z.eqb_spec count 0) as [|_]; [lia |].
  inv_bind H as u Ha. cbv zeta in H.
  rewrite land_quant_mask, !shiftr_quant_log2 in H.
  inv_bind H as buf Hbuf.
  destruct (mData s) as [b|] eqn:Eb; [| discriminate]. injection Hbuf as ->.
  inv_bind H as d Hd. injection H as _ <-.
  unfold streamBit. rewrite Eb.
  pose proof (Z.div_mod (mCursor s) 8 ltac:(lia)) as Hdm.
  pose proof (Z.mod_pos_bound (mCursor s) 8 ltac:(lia)) as Hm.
  pose proof (Z.div_mod count 8 ltac:(lia)) as Hcm.
  pose proof (Z.mod_pos_bound count 8 ltac:(lia)) as Hcr.
  assert (Hsq : 0 <= mCursor s / 8) by (apply Z.div_pos; lia).
  assert (Hnq : 0 <= count / 8) by (apply Z.div_pos; lia).
  destruct (Z.eqb_spec (mCursor s mod 8) 0) as [Ea|Ea].
  - inv_bind Hd as d1 Hcp. inv_bind Hd as rest Hloop. injection Hd as <-.
    change BYTES_PER_QUANT with 1 in Hcp. change BITS_PER_QUANT with 8 in Hloop.
    rewrite Z.mul_1_r in Hcp.
    pose proof (memcpy_length _ _ _ _ _ Hcp) as Hl1.
    apply memcpy_Ok in Hcp as (_ & _ & Hin & _).
    assert (Hlt : length (take (Z.to_nat (count / 8)) d1) = Z.to_nat (count / 8)).
    { rewrite length_take. lia. }
    replace (8 * (count / 8) + j)
      with (8 * Z.of_nat (length (take (Z.to_nat (count / 8)) d1)) + j) by lia.
    rewrite getBit_app by lia.
    pose proof (read_loop_last _ _ _ _ _ _ Hloop ltac:(lia) ltac:(lia) ltac:(lia) j
                  ltac:(lia)) as Hlast.
    replace ((count - count / 8 * 8 - 1) / 8) with 0 in Hlast
      by (Z.div_mod_to_equations; lia).
    rewrite Z.mul_0_r, Z.add_0_l, Z.sub_0_r, !Z.add_0_r in Hlast.
    rewrite Hlast, Ea.
    replace (count - count / 8 * 8) with (count mod 8) by lia.
    replace (8 * (mCursor s / 8 + count / 8) + 0 + j)
      with (mCursor s + 8 * (count / 8) + j) by lia.
    replace (j + 0) with (0 + j) by lia.
    reflexivity.
  - pose proof (read_loop_last _ _ _ _ _ _ Hd ltac:(lia) ltac:(lia) ltac:(lia) j
                  ltac:(lia)) as Hlast.
    replace ((count - 1) / 8) with (count / 8) in Hlast
      by (Z.div_mod_to_equations; lia).
    rewrite Hlast.
    replace (count - 8 * (count / 8)) with (count mod 8) by lia.
    rewrite (Z.add_comm j (mCursor s mod 8)).
    replace (8 * (mCursor s / 8 + count / 8) + mCursor s mod 8 + j)
      with (mCursor s + 8 * (count / 8) + j) by lia.
    reflexivity.
Qed.

(** ** What a read delivers *)

(** Every requested bit the loop delivers is the stream bit at the same
    distance from the loop's start position. *)
Lemma read_loop_bits (m : Z) (buf : list Z) (data : list Z) :
  forall (count sq : Z) (data' : list Z),
  read_loop m buf data count sq = Ok data' ->
  0 <= m < 8 -> 0 <= sq ->
  forall k, 0 <= k < count ->
    getBit data' k = getBit buf (8 * sq + m + k).
Proof.
  induction data as [|d data IH]; intros count sq data' H Hm Hsq k Hk;
    rewrite read_loop_eq in H; destruct (Z.ltb_spec 0 count) as [_|]; try lia;
    [discriminate |].
  cbv zeta in H. change BITS_PER_QUANT with 8 in H.
  inv_bind H as b Hb. inv_bind H as quant Hq. inv_bind H as rest Hrest.
  injection H as <-.
  apply load_Ok in Hb as (Hi & c & Hc0 & ->).
  destruct (Z.lt_ge_cases k 8) as [Hk8|Hk8].
  - (* a bit of the byte built in this iteration *)
    rewrite getBit_head by lia.
    destruct (Z.ltb_spec (8 - m) count) as [Hw|Hw].
    + inv_bind Hq as b1 Hb1. injection Hq as <-.
      apply load_Ok in Hb1 as (Hi1 & c1 & Hc1 & ->).
      change (8 - m) with (BITS_PER_QUANT - m).
      rewrite read_quant_both by lia.
      destruct (Z.ltb_spec (k + m) 8).
      * replace (8 * sq + m + k) with (8 * sq + (k + m)) by lia.
        symmetry. apply getBit_at; auto; lia.
      * replace (8 * sq + m + k) with (8 * (sq + 1) + (k + m - 8)) by lia.
        symmetry. apply getBit_at; auto; lia.
    + injection Hq as <-. rewrite read_quant_low by lia.
      destruct (Z.ltb_spec (k + m) 8); [| lia].
      replace (8 * sq + m + k) with (8 * sq + (k + m)) by lia.
      symmetry. apply getBit_at; auto; lia.
  - (* a bit of a later byte *)
    rewrite Z.min_l in Hrest by lia.
    specialize (IH (count - 8) (sq + 1) rest Hrest Hm ltac:(lia) (k - 8) ltac:(lia)).
    replace k with (8 + (k - 8)) at 1 by lia.
    rewrite getBit_cons by lia. rewrite IH. f_equal. lia.
Qed.

Lemma getBit_drop (l : list Z) (n k : Z) :
  0 <= n -> 0 <= k -> getBit (drop (Z.to_nat n) l) k = getBit l (8 * n + k).
Proof.
  intros Hn Hk. unfold getBit. rewrite lookup_drop.
  replace ((8 * n + k) / 8) with (n + k / 8) by (Z.div_mod_to_equations; lia).
  replace ((8 * n + k) mod 8) with (k mod 8) by (Z.div_mod_to_equations; lia).
  assert (Hq : 0 <= k / 8) by (apply Z.div_pos; lia).
  rewrite Z2Nat.inj_add by lia. reflexivity.
Qed.

(** The bits of the bytes a [memcpy] copied. *)
Lemma getBit_memcpy_in (dst : list Z) (doff : Z) (src : list Z) (n : Z)
    (r : list Z) (k : Z) :
  memcpy dst doff src n = Ok r -> 0 <= k < 8 * n ->
  getBit r (8 * doff + k) = getBit src k.
Proof.
  intros H Hk. pose proof (memcpy_Ok _ _ _ _ _ H) as (Hd & Hn & _).
  unfold getBit.
  replace ((8 * doff + k) / 8) with (doff + k / 8)
    by (Z.div_mod_to_equations; lia).
  replace ((8 * doff + k) mod 8) with (k mod 8)
    by (Z.div_mod_to_equations; lia).
  assert (Hq : 0 <= k / 8 < n) by (Z.div_mod_to_equations; lia).
  rewrite Z2Nat.inj_add by lia.
  rewrite (memcpy_lookup_in _ _ _ _ _ (Z.to_nat (k / 8)) H) by lia.
  reflexivity.
Qed.

(** The bits outside the bytes a [memcpy] copied. *)
Lemma getBit_memcpy_out (dst : list Z) (doff : Z) (src : list Z) (n : Z)
    (r : list Z) (i : Z) :
  memcpy dst doff src n = Ok r -> 0 <= i ->
  i < 8 * doff \/ 8 * (doff + n) <= i ->
  getBit r i = getBit dst i.
Proof.
  intros H Hi Hout. pose proof (memcpy_Ok _ _ _ _ _ H) as (Hd & Hn & _).
  unfold getBit. assert (Hq : 0 <= i / 8) by (apply Z.div_pos; lia).
  destruct Hout as [Hlo|Hhi].
  - rewrite (memcpy_lookup_below _ _ _ _ _ (Z.to_nat (i / 8)) H);
      [reflexivity |]. Z.div_mod_to_equations; lia.
  - rewrite (memcpy_lookup_above _ _ _ _ _ (Z.to_nat (i / 8)) H);
      [reflexivity |]. Z.div_mod_to_equations; lia.
Qed.

(** A completed [readBits] delivers, in the first [count] bits of the
    destination, the [count] stream bits from the cursor on; it moves the
    cursor by [count] and leaves the stream's buffer, length and capacity
    alone. *)
Lemma readBits_bits (s : Bitstream) (data : list Z) (count : Z)
    (s' : Bitstream) (data' : list Z) :
  is_u32 (mCursor s) -> 0 <= count ->
  readBits s data count = Ok (s', data') ->
  (forall k, 0 <= k < count -> getBit data' k = streamBit s (tell s + k)) /\
  tell s' = u32 (tell s + count) /\ mData s' = mData s /\
  size s' = size s /\ capacity s' = capacity s.
Proof.
  intros Hcur Hc H. unfold readBits in H. unfold tell, size, capacity.
  destruct (Z.eqb_spec count 0) as [->|Hc0].
  { injection H as <- <-. split; [intros k Hk; lia |].
    rewrite Z.add_0_r, u32_small by exact Hcur. auto. }
  unfold is_u32 in Hcur.
  inv_bind H as u Ha. cbv zeta in H.
  rewrite land_quant_mask, !shiftr_quant_log2 in H.
  inv_bind H as buf Hbuf.
  destruct (mData s) as [b|] eqn:Eb; [| discriminate]. injection Hbuf as ->.
  inv_bind H as d Hd. injection H as <- <-. simpl.
  split; [| auto].
  intros k Hk. unfold streamBit. rewrite Eb.
  pose proof (Z.div_mod (mCursor s) 8 ltac:(lia)) as Hdm.
  pose proof (Z.mod_pos_bound (mCursor s) 8 ltac:(lia)) as Hm.
  pose proof (Z.div_mod count 8 ltac:(lia)) as Hcm.
  pose proof (Z.mod_pos_bound count 8 ltac:(lia)) as Hcr.
  assert (Hsq : 0 <= mCursor s / 8) by (apply Z.div_pos; lia).
  assert (Hnq : 0 <= count / 8) by (apply Z.div_pos; lia).
  destruct (Z.eqb_spec (mCursor s mod 8) 0) as [Ea|Ea].
  - inv_bind Hd as d1 Hcp. inv_bind Hd as rest Hloop. injection Hd as <-.
    change BYTES_PER_QUANT with 1 in Hcp. change BITS_PER_QUANT with 8 in Hloop.
    rewrite Z.mul_1_r in Hcp.
    pose proof (memcpy_length _ _ _ _ _ Hcp) as Hl1.
    pose proof (memcpy_Ok _ _ _ _ _ Hcp) as (_ & _ & Hin & _).
    assert (Hlt : length (take (Z.to_nat (count / 8)) d1) = Z.to_nat (count / 8)).
    { rewrite length_take. lia. }
    destruct (Z.lt_ge_cases k (8 * (count / 8))) as [Hlo|Hhi].
    + (* a bit of the bulk copy *)
      unfold getBit at 1.
      assert (Hkq : 0 <= k / 8 < count / 8) by (Z.div_mod_to_equations; lia).
      rewrite lookup_app_l by lia. rewrite lookup_take_lt by lia.
      pose proof (getBit_memcpy_in _ _ _ _ _ k Hcp ltac:(lia)) as Hbit.
      rewrite Z.mul_0_r, Z.add_0_l in Hbit. unfold getBit at 1 in Hbit.
      rewrite Hbit. rewrite getBit_drop by lia. f_equal. lia.
    + (* a bit of the tail *)
      replace k with (8 * Z.of_nat (length (take (Z.to_nat (count / 8)) d1))
                      + (k - 8 * (count / 8))) at 1 by lia.
      rewrite getBit_app by lia.
      rewrite (read_loop_bits _ _ _ _ _ _ Hloop) by lia.
      f_equal. lia.
  - rewrite (read_loop_bits _ _ _ _ _ _ Hd) by lia. f_equal. lia.
Qed.

(** X1.  A completed [readBits] delivers the stream's bits: bit [k] of the
    destination, for [k < count], is the stream bit [k] places after the
    cursor; the cursor moves by [count] (in [uint32_t]) and buffer, length
    and capacity of the stream are unchanged. *)
Theorem readBits_delivers_stream_bits (s : Bitstream) (data : list Z)
    (count : Z) (s' : Bitstream) (data' : list Z) (k : Z) :
  is_u32 (mCursor s) -> 0 <= count ->
  readBits s data count = Ok (s', data') ->
  0 <= k < count ->
  getBit data' k = streamBit s (tell s + k) /\
  tell s' = u32 (tell s + count) /\ mData s' = mData s /\
  size s' = size s /\ capacity s' = capacity s.
Proof.
  intros Hcur Hc H Hk.
  destruct (readBits_bits s data count s' data' Hcur Hc H) as [Hbits Hrest].
  split; [apply Hbits; exact Hk | exact Hrest].
Qed.

Lemma getBit_zeros (n : nat) (i : Z) : getBit (replicate n 0) i = false.
Proof.
  unfold getBit. destruct (replicate n 0 !! Z.to_nat (i / 8)) as [b|] eqn:E;
    [| reflexivity].
  apply lookup_replicate in E as [-> _]. apply Z.bits_0.
Qed.

(** ** What a write stores *)

(** The byte the write loop stores over byte [c]: source bits from bit [m]
    on, ORed into the old byte. *)
Lemma write_quant_first (q c m j : Z) :
  0 <= m < 8 -> 0 <= j < 8 ->
  Z.testbit (u8 (Z.lor (Z.shiftl (u8 q) m)
                       (Z.land (u8 c) (u32 (Z.shiftl 1 BITS_PER_QUANT - 1))))) j =
  ((m <=? j) && Z.testbit q (j - m)) || Z.testbit c j.
Proof.
  intros Hm Hj. change (u32 (Z.shiftl 1 BITS_PER_QUANT - 1)) with (Z.ones 8).
  rewrite u8_testbit, Z.lor_spec, Z.land_spec, Z.shiftl_spec by lia.
  rewrite Z.ones_spec_low, andb_true_r, (u8_testbit c j) by lia.
  destruct (Z.leb_spec m j).
  - rewrite u8_testbit by lia. reflexivity.
  - rewrite Z.testbit_neg_r by lia. reflexivity.
Qed.

(** The byte the write loop stores over the next byte: the source bits that
    did not fit, and zeros above them. *)
Lemma write_quant_spill (q c m j : Z) :
  0 <= m < 8 -> 0 <= j < 8 ->
  Z.testbit (u8 (Z.lor (Z.shiftr (u8 q) (BITS_PER_QUANT - m))
                       (Z.land (u8 c)
                          (u32 (Z.lnot (u32 (Z.shiftl 1 BITS_PER_QUANT - 1))))))) j =
  (j <? m) && Z.testbit q (j + 8 - m).
Proof.
  intros Hm Hj. change (u32 (Z.shiftl 1 BITS_PER_QUANT - 1)) with (Z.ones 8).
  change BITS_PER_QUANT with 8.
  rewrite u8_testbit, Z.lor_spec, Z.land_spec, Z.shiftr_spec by lia.
  unfold u32 at 1. rewrite Z.mod_pow2_bits_low, Z.lnot_spec by lia.
  rewrite Z.ones_spec_low by lia. simpl negb. rewrite andb_false_r, orb_false_r.
  replace (j + (8 - m)) with (j + 8 - m) by lia.
  destruct (Z.ltb_spec j m).
  - apply u8_testbit. lia.
  - unfold u8. apply Z.mod_pow2_bits_high. lia.
Qed.

(** The write loop, bit by bit: the bits before its start position keep
    their value; written bit [k] is source bit [k], ORed with the old bit
    when it lies in the first byte the loop touches. *)
Lemma write_loop_bits (m : Z) (data : list Z) :
  forall (count dq : Z) (buf buf' : list Z),
  write_loop m (u32 (Z.shiftl 1 BITS_PER_QUANT - 1)) data count dq buf = Ok buf' ->
  0 <= m < 8 -> 0 <= dq ->
  (forall i, 0 <= i < 8 * dq + m -> getBit buf' i = getBit buf i) /\
  (forall k, 0 <= k < count ->
     getBit buf' (8 * dq + m + k) =
     getBit data k || ((k <? 8 - m) && getBit buf (8 * dq + m + k))).
Proof.
  induction data as [|q data IH]; intros count dq buf buf' H Hm Hdq;
    rewrite write_loop_eq in H; destruct (Z.ltb_spec 0 count) as [Hc|Hc];
    try discriminate;
    try (injection H as <-; split; [reflexivity | intros k Hk; lia]).
  cbv zeta in H.
  inv_bind H as old Hold. inv_bind H as buf1 Hst1. inv_bind H as buf2 Hst2.
  apply load_Ok in Hold as (Hi & c & Hc0 & ->).
  set (v1 := u8 (Z.lor (Z.shiftl (u8 q) m)
                   (Z.land (u8 c) (u32 (Z.shiftl 1 BITS_PER_QUANT - 1))))) in *.
  assert (Hb1 : forall i, 0 <= i ->
            getBit buf1 i = if i / 8 =? dq then Z.testbit v1 (i mod 8)
                            else getBit buf i).
  { intros i Hi0. apply (getBit_store _ _ _ _ _ Hst1). exact Hi0. }
  assert (Hb2 : forall i, 0 <= i ->
            getBit buf2 i =
            if (BITS_PER_QUANT - m <? count) && (i / 8 =? dq + 1)
            then (i mod 8 <? m) && Z.testbit q (i mod 8 + 8 - m)
            else getBit buf1 i).
  { intros i Hi0. destruct (Z.ltb_spec (BITS_PER_QUANT - m) count) as [Hw|Hw].
    - inv_bind Hst2 as old1 Hold1.
      apply load_Ok in Hold1 as (_ & c1 & _ & ->).
      rewrite (getBit_store _ _ _ _ _ Hst2) by exact Hi0. simpl andb.
      destruct (Z.eqb_spec (i / 8) (dq + 1)); [| reflexivity].
      apply write_quant_spill; [lia |]. apply Z.mod_pos_bound. lia.
    - injection Hst2 as <-. reflexivity. }
  change BITS_PER_QUANT with 8 in H, Hb2.
  apply IH in H; [| lia | lia]. destruct H as [Hleft Hbits].
  assert (Hbyte : forall j, 0 <= j < 8 -> getBit buf (8 * dq + j) = Z.testbit c j).
  { intros j Hj. apply getBit_at; auto; lia. }
  split.
  - intros i Hi1. rewrite Hleft by lia. rewrite Hb2 by lia.
    assert (Hq : i / 8 <= dq) by (Z.div_mod_to_equations; lia).
    destruct (Z.eqb_spec (i / 8) (dq + 1)); [lia |]. rewrite andb_false_r.
    rewrite Hb1 by lia.
    destruct (Z.eqb_spec (i / 8) dq) as [E|E]; [| reflexivity].
    pose proof (Z.div_mod i 8 ltac:(lia)) as Hdi.
    pose proof (Z.mod_pos_bound i 8 ltac:(lia)) as Hmi.
    unfold v1. rewrite write_quant_first by lia.
    destruct (Z.leb_spec m (i mod 8)); [lia |]. simpl.
    rewrite <- Hbyte by lia. f_equal. lia.
  - intros k Hk.
    destruct (Z.lt_ge_cases k (8 - m)) as [Hk1|Hk1].
    + (* a bit of the first byte *)
      rewrite Hleft by lia. rewrite Hb2 by lia.
      replace ((8 * dq + m + k) / 8) with dq by (Z.div_mod_to_equations; lia).
      replace ((8 * dq + m + k) mod 8) with (m + k)
        by (Z.div_mod_to_equations; lia).
      destruct (Z.eqb_spec dq (dq + 1)); [lia |]. rewrite andb_false_r.
      rewrite Hb1 by lia.
      replace ((8 * dq + m + k) / 8) with dq by (Z.div_mod_to_equations; lia).
      replace ((8 * dq + m + k) mod 8) with (m + k)
        by (Z.div_mod_to_equations; lia).
      rewrite Z.eqb_refl. unfold v1. rewrite write_quant_first by lia.
      destruct (Z.leb_spec m (m + k)); [| lia].
      destruct (Z.ltb_spec k (8 - m)); [| lia]. simpl.
      replace (m + k - m) with k by lia.
      rewrite getBit_head by lia.
      replace (8 * dq + m + k) with (8 * dq + (m + k)) by lia.
      rewrite Hbyte by lia. reflexivity.
    + destruct (Z.ltb_spec k (8 - m)); [lia |]. rewrite andb_false_l, orb_false_r.
      destruct (Z.lt_ge_cases k 8) as [Hk8|Hk8].
      * (* a bit that spilled into the next byte *)
        rewrite Hleft by lia. rewrite Hb2 by lia.
        replace ((8 * dq + m + k) / 8) with (dq + 1)
          by (Z.div_mod_to_equations; lia).
        replace ((8 * dq + m + k) mod 8) with (m + k - 8)
          by (Z.div_mod_to_equations; lia).
        destruct (Z.ltb_spec (8 - m) count); [| lia]. rewrite Z.eqb_refl.
        destruct (Z.ltb_spec (m + k - 8) m); [| lia]. simpl.
        replace (m + k - 8 + 8 - m) with k by lia.
        rewrite getBit_head by lia. reflexivity.
      * (* a bit written by a later iteration *)
        rewrite Z.min_l in Hbits by lia.
        specialize (Hbits (k - 8) ltac:(lia)).
        replace (8 * (dq + 1) + m + (k - 8)) with (8 * dq + m + k) in Hbits by lia.
        rewrite Hbits.
        assert (Hd : getBit (q :: data) k = getBit data (k - 8)).
        { replace k with (8 + (k - 8)) at 1 by lia. apply getBit_cons. lia. }
        rewrite Hd.
        destruct (Z.ltb_spec (k - 8) (8 - m)); [| apply orb_false_r].
        rewrite Hb2 by lia.
        replace ((8 * dq + m + k) / 8) with (dq + 1)
          by (Z.div_mod_to_equations; lia).
        replace ((8 * dq + m + k) mod 8) with (m + k - 8)
          by (Z.div_mod_to_equations; lia).
        destruct (Z.ltb_spec (8 - m) count); [| lia]. rewrite Z.eqb_refl.
        destruct (Z.ltb_spec (m + k - 8) m); [lia |]. simpl.
        apply orb_false_r.
Qed.

(** The write loop changes no bit beyond the last byte that holds one of
    its [count] bits. *)
Lemma write_loop_right (m mask : Z) (data : list Z) :
  forall (count dq : Z) (buf buf' : list Z),
  write_loop m mask data count dq buf = Ok buf' ->
  0 <= m < 8 -> 0 <= dq ->
  forall i, 8 * ((8 * dq + m + count - 1) / 8 + 1) <= i ->
    getBit buf' i = getBit buf i.
Proof.
  induction data as [|q data IH]; intros count dq buf buf' H Hm Hdq i Hi;
    rewrite write_loop_eq in H; destruct (Z.ltb_spec 0 count) as [Hc|Hc];
    try discriminate; try (injection H as <-; reflexivity).
  cbv zeta in H. change BITS_PER_QUANT with 8 in H.
  inv_bind H as old Hold. inv_bind H as buf1 Hst1. inv_bind H as buf2 Hst2.
  assert (Hlast : dq <= (8 * dq + m + count - 1) / 8)
    by (Z.div_mod_to_equations; lia).
  assert (Hq : dq < i / 8) by (Z.div_mod_to_equations; lia).
  assert (Hb1 : getBit buf1 i = getBit buf i).
  { rewrite (getBit_store _ _ _ _ _ Hst1) by lia.
    destruct (Z.eqb_spec (i / 8) dq); [lia | reflexivity]. }
  assert (Hb2 : getBit buf2 i = getBit buf1 i).
  { destruct (Z.ltb_spec (8 - m) count) as [Hw|Hw].
    - inv_bind Hst2 as old1 Hold1.
      rewrite (getBit_store _ _ _ _ _ Hst2) by lia.
      destruct (Z.eqb_spec (i / 8) (dq + 1)) as [E|]; [| reflexivity].
      exfalso. Z.div_mod_to_equations. lia.
    - injection Hst2 as <-. reflexivity. }
  destruct (Z.le_gt_cases count 8) as [Hle|Hgt].
  - rewrite Z.min_r, Z.sub_diag in H by lia.
    rewrite write_loop_eq in H. simpl in H. injection H as <-.
    congruence.
  - rewrite Z.min_l in H by lia.
    rewrite (IH _ _ _ _ H Hm ltac:(lia) i); [congruence |].
    replace (8 * (dq + 1) + m + (count - 8) - 1) with (8 * dq + m + count - 1)
      by lia.
    exact Hi.
Qed.

(** ** The loops and [readBits] complete inside the buffers *)

Lemma load_total (buf : list Z) (i : Z) :
  0 <= i < Z.of_nat (length buf) -> exists b, load buf i = Ok b.
Proof.
  intros Hi. unfold load. destruct (Z.ltb_spec i 0); [lia |].
  destruct (lookup_lt_is_Some_2 buf (Z.to_nat i) ltac:(lia)) as [c Hc].
  rewrite Hc. eauto.
Qed.

Lemma store_total (buf : list Z) (i v : Z) :
  0 <= i < Z.of_nat (length buf) ->
  exists buf', store buf i v = Ok buf' /\ length buf' = length buf.
Proof.
  intros Hi. unfold store. destruct (Z.ltb_spec i 0); [lia |].
  destruct (Z.ltb_spec i (Z.of_nat (length buf))); [| lia].
  eexists. split; [reflexivity | apply length_insert].
Qed.

Lemma memcpy_total (dst : list Z) (doff : Z) (src : list Z) (n : Z) :
  0 <= doff -> 0 <= n -> doff + n <= Z.of_nat (length dst) ->
  n <= Z.of_nat (length src) ->
  exists r, memcpy dst doff src n = Ok r.
Proof.
  intros Hd Hn Hin Hsrc. unfold memcpy.
  destruct (Z.ltb_spec doff 0); [lia |]. destruct (Z.ltb_spec n 0); [lia |].
  simpl. destruct (Z.ltb_spec (Z.of_nat (length dst)) (doff + n)); [lia |].
  destruct (Z.ltb_spec (Z.of_nat (length src)) n); [lia |]. eauto.
Qed.

(** The write loop completes when its bits fit the buffer and the source
    holds them. *)
Lemma write_loop_total (m mask : Z) (data : list Z) :
  forall (count dq : Z) (buf : list Z),
  0 <= m < 8 -> 0 <= dq ->
  (0 < count -> 8 * dq + m + count <= 8 * Z.of_nat (length buf)) ->
  count <= 8 * Z.of_nat (length data) ->
  exists buf', write_loop m mask data count dq buf = Ok buf'.
Proof.
  induction data as [|q data IH]; intros count dq buf Hm Hdq Hfit Hsrc;
    rewrite write_loop_eq; destruct (Z.ltb_spec 0 count) as [Hc|Hc];
    eauto; [simpl in Hsrc; lia |].
  specialize (Hfit Hc). cbv zeta. change BITS_PER_QUANT with 8.
  destruct (load_total buf dq ltac:(lia)) as [old ->]. simpl.
  destruct (store_total buf dq
              (u8 (Z.lor (Z.shiftl (u8 q) m) (Z.land old mask))) ltac:(lia))
    as (buf1 & -> & Hl1). simpl.
  assert (Hspill : exists buf2,
            (if 8 - m <? count
             then do old1 <- load buf1 (dq + 1);
                  store buf1 (dq + 1)
                    (u8 (Z.lor (Z.shiftr (u8 q) (8 - m))
                               (Z.land old1 (u32 (Z.lnot mask)))))
             else Ok buf1) = Ok buf2 /\ length buf2 = length buf).
  { destruct (Z.ltb_spec (8 - m) count).
    - destruct (load_total buf1 (dq + 1) ltac:(lia)) as [old1 ->]. simpl.
      destruct (store_total buf1 (dq + 1)
                  (u8 (Z.lor (Z.shiftr (u8 q) (8 - m))
                             (Z.land old1 (u32 (Z.lnot mask))))) ltac:(lia))
        as (buf2 & -> & Hl2).
      exists buf2. split; [reflexivity | congruence].
    - exists buf1. split; [reflexivity | exact Hl1]. }
  destruct Hspill as (buf2 & -> & Hl2). simpl.
  apply IH; [lia | lia | intros Hc'; rewrite Hl2; lia |
             simpl length in Hsrc; lia].
Qed.

(** The read loop completes when its bits lie in the stream's buffer and
    the destination has room for them. *)
Lemma read_loop_total (m : Z) (buf : list Z) (data : list Z) :
  forall (count sq : Z),
  0 <= m < 8 -> 0 <= sq ->
  (0 < count -> 8 * sq + m + count <= 8 * Z.of_nat (length buf)) ->
  count <= 8 * Z.of_nat (length data) ->
  exists data', read_loop m buf data count sq = Ok data'.
Proof.
  induction data as [|d data IH]; intros count sq Hm Hsq Hfit Hdst;
    rewrite read_loop_eq; destruct (Z.ltb_spec 0 count) as [Hc|Hc];
    eauto; [simpl in Hdst; lia |].
  specialize (Hfit Hc). cbv zeta. change BITS_PER_QUANT with 8.
  destruct (load_total buf sq ltac:(lia)) as [b ->]. simpl.
  assert (Hnext : exists quant,
            (if 8 - m <? count
             then do b1 <- load buf (sq + 1);
                  Ok (u8 (Z.lor (u8 (Z.lor 0 (Z.shiftr b m)))
                                (Z.shiftl b1 (8 - m))))
             else Ok (u8 (Z.lor 0 (Z.shiftr b m)))) = Ok quant).
  { destruct (Z.ltb_spec (8 - m) count).
    - destruct (load_total buf (sq + 1) ltac:(lia)) as [b1 ->]. simpl. eauto.
    - eauto. }
  destruct Hnext as (quant & ->). simpl.
  destruct (IH (count - Z.min 8 count) (sq + 1)) as [rest ->];
    [lia | lia | intros Hc'; lia | simpl length in Hdst; lia |].
  simpl. eauto.
Qed.

(** X4.  [readBits] completes when the requested bits lie within the length, the
    buffer holds the stream's length and the destination has room. *)
Theorem readBits_completes (s : Bitstream) (data : list Z) (count : Z) :
  0 <= mCursor s -> 0 <= count ->
  mCursor s + count <= mNumBits s -> mNumBits s <= 8 * bufLen s ->
  mNumBits s < 2 ^ 32 ->
  count <= 8 * Z.of_nat (length data) ->
  exists s' data', readBits s data count = Ok (s', data').
Proof.
  intros Hcur Hc Hlen Hbuf HN Hdst. unfold readBits.
  destruct (Z.eqb_spec count 0) as [|Hc0]; [eauto |].
  rewrite u32_small by (unfold is_u32; lia).
  destruct (Z.leb_spec (mCursor s + count) (mNumBits s)); [| lia]. simpl.
  rewrite land_quant_mask, !shiftr_quant_log2.
  unfold bufLen in Hbuf. destruct (mData s) as [buf|]; [| lia]. simpl.
  pose proof (Z.div_mod (mCursor s) 8 ltac:(lia)) as Hdm.
  pose proof (Z.mod_pos_bound (mCursor s) 8 ltac:(lia)) as Hm.
  pose proof (Z.div_mod count 8 ltac:(lia)) as Hcm.
  pose proof (Z.mod_pos_bound count 8 ltac:(lia)) as Hcr.
  assert (Hsq : 0 <= mCursor s / 8) by (apply Z.div_pos; lia).
  assert (Hnq : 0 <= count / 8) by (apply Z.div_pos; lia).
  destruct (Z.eqb_spec (mCursor s mod 8) 0) as [Ea|Ea].
  - change BYTES_PER_QUANT with 1. change BITS_PER_QUANT with 8.
    rewrite Z.mul_1_r.
    destruct (memcpy_total data 0 (drop (Z.to_nat (mCursor s / 8)) buf)
                (count / 8)) as [d1 Hd1]; try lia.
    { rewrite length_drop. lia. }
    rewrite Hd1. simpl. apply memcpy_length in Hd1.
    destruct (read_loop_total (mCursor s mod 8) buf
                (drop (Z.to_nat (count / 8)) d1)
                (count - count / 8 * 8) (mCursor s / 8 + count / 8))
      as [rest ->]; try lia.
    { rewrite length_drop. lia. }
    simpl. eauto.
  - destruct (read_loop_total (mCursor s mod 8) buf data count (mCursor s / 8))
      as [d' ->]; try lia.
    simpl. eauto.
Qed.

(** [read(bool)] delivers the stream bit under the cursor and moves the
    cursor by one bit. *)
Lemma read_bool_bit (s s' : Bitstream) (value : bool) :
  0 <= mCursor s -> read_bool s = Ok (s', value) ->
  value = streamBit s (mCursor s) /\ mCursor s' = u32 (mCursor s + 1) /\
  mData s' = mData s.
Proof.
  intros Hcur H. unfold read_bool in H.
  inv_bind H as u Ha. cbv zeta in H.
  rewrite land_quant_mask, shiftr_quant_log2 in H.
  inv_bind H as buf Hbuf.
  destruct (mData s) as [b0|] eqn:Eb; [| discriminate]. injection Hbuf as ->.
  inv_bind H as b Hb. injection H as <- <-. simpl.
  split; [| auto].
  pose proof (Z.div_mod (mCursor s) 8 ltac:(lia)) as Hdm.
  pose proof (Z.mod_pos_bound (mCursor s) 8 ltac:(lia)) as Hm.
  unfold streamBit. rewrite Eb.
  replace (getBit buf (mCursor s))
    with (getBit buf (8 * (mCursor s / 8) + mCursor s mod 8))
    by (f_equal; lia).
  rewrite <- (getBit_load _ _ _ (mCursor s mod 8) Hb Hm).
  rewrite Z.testbit_odd. change 1 with (Z.ones 1). rewrite Z.land_ones by lia.
  rewrite Z.pow_1_r, <- Z.bit0_mod, Z.bit0_odd.
  destruct (Z.odd (Z.shiftr b (mCursor s mod 8))); reflexivity.
Qed.

Section Writes.

Variable uninit : Z -> Z -> Z.

(** One [write(bool)]: the bit under the cursor takes the value, every other
    bit of the buffer keeps its own; the state stays well-formed, capacity
    and buffer do not shrink. *)
Lemma write_bool_bits (s : Bitstream) (value : bool) (s' : Bitstream) :
  wf s -> write_bool uninit s value = Ok s' ->
  streamBit s' (mCursor s) = value /\
  (forall i, 0 <= i < 8 * bufLen s -> i <> mCursor s ->
     streamBit s' i = streamBit s i) /\
  bufLen s <= bufLen s'.
Proof.
  intros Hwf H. pose proof Hwf as (HM & HN & HC & HNM & HCM & Hown).
  unfold write_bool in H. inv_bind H as s1 Hs1. cbv zeta in H.
  pose proof (reallocIfNeeded_fields _ _ _ _ Hs1) as (HN1 & HO1 & HC1 & Hmono & Hext).
  rewrite HC1, land_quant_mask, shiftr_quant_log2 in H.
  inv_bind H as buf1 Hb1.
  destruct (mData s1) as [b|] eqn:Eb; [| discriminate]. injection Hb1 as ->.
  inv_bind H as old Hold. inv_bind H as buf' Hst. injection H as <-.
  unfold is_u32 in HC.
  pose proof (Z.div_mod (mCursor s) 8 ltac:(lia)) as Hdm.
  pose proof (Z.mod_pos_bound (mCursor s) 8 ltac:(lia)) as Hm.
  assert (Hold1 : forall i, 0 <= i < 8 * bufLen s ->
                    getBit buf1 i = streamBit s i).
  { intros i Hi. destruct (mOwnsMemory s) eqn:Eown.
    - rewrite <- (reallocIfNeeded_bits _ _ _ _ i Hs1) by auto.
      unfold streamBit. rewrite Eb. reflexivity.
    - destruct (Hext eq_refl) as [-> _]. unfold streamBit. rewrite Eb. reflexivity. }
  assert (Hlen1 : bufLen s <= Z.of_nat (length buf1)).
  { destruct (mOwnsMemory s) eqn:Eown.
    - pose proof (reallocIfNeeded_owned _ _ _ _ Hs1 (Hown eq_refl)) as Hl.
      unfold bufLen in Hl at 1. rewrite Eb in Hl.
      specialize (Hown eq_refl). lia.
    - destruct (Hext eq_refl) as [-> _]. unfold bufLen. rewrite Eb. lia. }
  pose proof (store_length _ _ _ _ Hst) as Hlst.
  match goal with |- context [streamBit ?t _] =>
    assert (Hs' : forall i, streamBit t i = getBit buf' i) by reflexivity;
    assert (Hl' : bufLen t = Z.of_nat (length buf')) by reflexivity
  end.
  rewrite Hl'. split; [| split].
  - rewrite Hs'. rewrite (getBit_store _ _ _ _ _ Hst) by lia.
    rewrite Z.eqb_refl.
    apply load_Ok in Hold as (_ & c & _ & ->).
    destruct value.
    + rewrite set_bit_testbit by lia. rewrite Z.eqb_refl. apply orb_true_r.
    + rewrite clear_bit_testbit by lia. rewrite Z.eqb_refl. apply andb_false_r.
  - intros i Hi Hne. rewrite Hs'. rewrite (getBit_store _ _ _ _ _ Hst) by lia.
    destruct (Z.eqb_spec (i / 8) (mCursor s / 8)) as [Eq|Nq];
      [| apply Hold1; exact Hi].
    pose proof (Z.div_mod i 8 ltac:(lia)) as Hdi.
    pose proof (Z.mod_pos_bound i 8 ltac:(lia)) as Hmi.
    assert (Hj : i mod 8 <> mCursor s mod 8) by lia.
    rewrite <- (Hold1 i Hi).
    rewrite <- Eq in Hold.
    pose proof (getBit_load _ _ _ (i mod 8) Hold Hmi) as Hbit.
    replace (8 * (i / 8) + i mod 8) with i in Hbit by lia.
    rewrite <- Hbit.
    apply load_Ok in Hold as (_ & c & _ & ->).
    destruct (Z.eqb_spec (i mod 8) (mCursor s mod 8)) as [|_]; [contradiction |].
    destruct value.
    + rewrite set_bit_testbit by lia. rewrite u8_testbit by lia.
      destruct (Z.eqb_spec (i mod 8) (mCursor s mod 8)); [contradiction |].
      apply orb_false_r.
    + rewrite clear_bit_testbit by lia. rewrite u8_testbit by lia.
      destruct (Z.eqb_spec (i mod 8) (mCursor s mod 8)); [contradiction |].
      apply andb_true_r.
  - lia.
Qed.

Lemma write_bools_at_bits (pos : Z) (values : list bool) :
  forall s s' : Bitstream,
  wf s -> 0 <= pos <= mMaxBits s ->
  write_bools_at uninit s pos values = Ok s' ->
  (forall v, last values = Some v -> streamBit s' pos = v) /\
  (forall i, 0 <= i < 8 * bufLen s -> i <> pos ->
     streamBit s' i = streamBit s i).
Proof.
  induction values as [|value values IH]; intros s s' Hwf Hpos H; simpl in H.
  - injection H as <-. split; [discriminate | reflexivity].
  - inv_bind H as s1 Hs1.
    assert (Hwf0 : wf (seek s pos)).
    { apply seek_wf; [exact Hwf |]. destruct Hwf as (HM & _).
      unfold is_u32 in *. lia. }
    assert (Hcur0 : mCursor (seek s pos) = pos).
    { change (mCursor (seek s pos)) with (Z.min pos (mMaxBits s)). lia. }
    pose proof (write_bool_wf _ _ _ _ Hwf0 Hs1) as Hwf1.
    pose proof (write_bool_capacity _ _ _ _ Hs1) as (Hmono & _).
    pose proof (write_bool_bits _ _ _ Hwf0 Hs1) as (Hbit & Hrest & Hlen).
    rewrite Hcur0 in Hbit, Hrest.
    change (bufLen (seek s pos)) with (bufLen s) in Hrest, Hlen.
    change (mMaxBits (seek s pos)) with (mMaxBits s) in Hmono.
    assert (Hsame : forall i, streamBit (seek s pos) i = streamBit s i)
      by reflexivity.
    destruct (IH s1 s' Hwf1 ltac:(lia) H) as [IHlast IHrest].
    split.
    + intros v Hv. destruct values as [|value' values].
      * injection H as <-. injection Hv as <-. exact Hbit.
      * apply IHlast. exact Hv.
    + intros i Hi Hne. rewrite IHrest by lia. rewrite Hrest by lia.
      apply Hsame.
Qed.

(** C7.  [write(bool)] sets the bit under the cursor to the value written
    and changes no other bit of the buffer; the same holds for any sequence
    of boolean writes to one position [pos] (true then false, or any other):
    afterwards bit [pos] holds the last value written and every other bit of
    the buffer holds what it held before. *)
Theorem write_bool_changes_one_bit (s : Bitstream) (value : bool)
    (s1 : Bitstream) (pos : Z) (values : list bool) (s' : Bitstream) :
  wf s ->
  write_bool uninit s value = Ok s1 ->
  0 <= pos <= mMaxBits s ->
  write_bools_at uninit s pos values = Ok s' ->
  (streamBit s1 (tell s) = value /\
   forall i, 0 <= i < 8 * bufLen s -> i <> tell s ->
     streamBit s1 i = streamBit s i) /\
  ((forall v, last values = Some v -> streamBit s' pos = v) /\
   forall i, 0 <= i < 8 * bufLen s -> i <> pos ->
     streamBit s' i = streamBit s i).
Proof.
  intros Hwf H1 Hpos Hseq. split.
  - destruct (write_bool_bits _ _ _ Hwf H1) as (Hbit & Hrest & _).
    split; assumption.
  - eapply write_bools_at_bits; eassumption.
Qed.

(** ** External buffers (C8) *)

(** C8, as amended.  On a stream over an external buffer, a [writeBits]
    whose end position [cursor + count] is a 32-bit value beyond the
    capacity trips the assertion of [reallocIfNeeded]; and across any run of
    operations that completes the capacity stays what the constructor was
    given and the stream never comes to own a buffer. *)
Theorem external_buffer_never_grows (s : Bitstream) (data : list Z)
    (count : Z) (os : list operation) (s' : Bitstream) :
  mOwnsMemory s = false ->
  (0 <= mCursor s -> 0 < count ->
   mCursor s + count < 2 ^ 32 ->
   mMaxBits s < mCursor s + count ->
   writeBits uninit s data count = Fault AssertionFailed) /\
  (run uninit s os = Ok s' ->
   mMaxBits s' = mMaxBits s /\ mOwnsMemory s' = false).
Proof.
  intros Hext. split.
  - intros Hcur Hcount Hfit Hover.
    unfold writeBits. destruct (Z.eqb_spec count 0) as [|_]; [lia |].
    cbv zeta. rewrite u32_small by (unfold is_u32; lia).
    unfold reallocIfNeeded.
    destruct (Z.ltb_spec (mMaxBits s) (mCursor s + count)) as [_|]; [| lia].
    rewrite Hext. reflexivity.
  - intros Hrun. apply run_capacity in Hrun as (_ & HO & HM).
    split; [apply HM; exact Hext | congruence].
Qed.

(** ** What [writeBits] stores, bit by bit *)

(** After the growth step, [writeBits] leaves alone the bits before the
    cursor and the bits beyond the last byte that holds a written bit, and
    written bit [k] is source bit [k] ORed with the old bit when the old bit
    lies in the byte the merge starts with: the tail byte of an aligned
    write, the first byte of an unaligned one. *)
Lemma writeBits_bits (s : Bitstream) (data : list Z) (count : Z) (s' : Bitstream) :
  writeBits uninit s data count = Ok s' ->
  count <> 0 -> is_u32 (mCursor s) -> is_u32 count ->
  exists s0,
    reallocIfNeeded uninit s (u32 (mCursor s + count)) = Ok s0 /\
    (forall i, 0 <= i < mCursor s -> streamBit s' i = streamBit s0 i) /\
    (forall i, 8 * ((mCursor s + count - 1) / 8 + 1) <= i ->
       streamBit s' i = streamBit s0 i) /\
    (forall k, 0 <= k < count ->
       streamBit s' (mCursor s + k) =
       getBit data k ||
       ((if mCursor s mod 8 =? 0 then 8 * (count / 8) <=? k
         else k <? 8 - mCursor s mod 8)
        && streamBit s0 (mCursor s + k))).
Proof.
  unfold writeBits. intros H Hc0 Hcur Hcount.
  destruct (Z.eqb_spec count 0) as [|_]; [contradiction |].
  cbv zeta in H. inv_bind H as s0 Hs0.
  pose proof (reallocIfNeeded_fields _ _ _ _ Hs0) as (_ & _ & Hcur0 & _).
  rewrite Hcur0, land_quant_mask, !shiftr_quant_log2 in H.
  inv_bind H as buf1 Hbuf1.
  destruct (mData s0) as [b|] eqn:Eb; [| discriminate].
  injection Hbuf1 as ->.
  inv_bind H as buf' Hw. injection H as <-.
  exists s0. split; [exact Hs0 |].
  unfold streamBit. simpl. rewrite Eb.
  unfold is_u32 in *.
  assert (Hdq : 0 <= mCursor s / 8) by (apply Z.div_pos; lia).
  assert (Hm : 0 <= mCursor s mod 8 < 8) by (apply Z.mod_pos_bound; lia).
  pose proof (Z.div_mod (mCursor s) 8 ltac:(lia)) as Hdm.
  destruct (Z.eqb_spec (mCursor s mod 8) 0) as [Ea|Ea].
  - inv_bind Hw as bufm Hcp.
    change BYTES_PER_QUANT with 1 in Hcp. rewrite Z.mul_1_r in Hcp.
    rewrite Ea in Hw. change BITS_PER_QUANT with 8 in Hw.
    assert (Hnq : 0 <= count / 8) by (apply Z.div_pos; lia).
    pose proof (Z.div_mod count 8 ltac:(lia)) as Hcm.
    pose proof (Z.mod_pos_bound count 8 ltac:(lia)) as Hcr.
    pose proof (write_loop_right _ _ _ _ _ _ _ Hw ltac:(lia) ltac:(lia)) as Hright.
    apply write_loop_bits in Hw; [| lia | lia].
    destruct Hw as [Hleft Hbits].
    split; [| split].
    + intros i Hi. rewrite Hleft by lia.
      apply (getBit_memcpy_out _ _ _ _ _ i Hcp); lia.
    + intros i Hi.
      replace (mCursor s + count - 1)
        with (8 * (mCursor s / 8 + count / 8) + 0 + (count - count / 8 * 8) - 1)
        in Hi by lia.
      rewrite (Hright i Hi).
      apply (getBit_memcpy_out _ _ _ _ _ i Hcp); [| right];
        Z.div_mod_to_equations; lia.
    + intros k Hk. destruct (Z.leb_spec (8 * (count / 8)) k) as [Hhi|Hlo].
      * specialize (Hbits (k - 8 * (count / 8)) ltac:(lia)).
        replace (8 * (mCursor s / 8 + count / 8) + 0 + (k - 8 * (count / 8)))
          with (mCursor s + k) in Hbits by lia.
        rewrite Hbits. rewrite getBit_drop by lia.
        replace (8 * (count / 8) + (k - 8 * (count / 8))) with k by lia.
        destruct (Z.ltb_spec (k - 8 * (count / 8)) (8 - 0)); [| lia].
        rewrite (getBit_memcpy_out _ _ _ _ _ (mCursor s + k) Hcp) by lia.
        reflexivity.
      * rewrite Hleft by lia. simpl andb. rewrite orb_false_r.
        replace (mCursor s + k) with (8 * (mCursor s / 8) + k) by lia.
        apply (getBit_memcpy_in _ _ _ _ _ k Hcp). lia.
  - pose proof (write_loop_right _ _ _ _ _ _ _ Hw ltac:(lia) ltac:(lia)) as Hright.
    apply write_loop_bits in Hw; [| lia | lia].
    destruct Hw as [Hleft Hbits]. split; [| split].
    + intros i Hi. apply Hleft. lia.
    + intros i Hi. apply Hright.
      replace (8 * (mCursor s / 8) + mCursor s mod 8 + count - 1)
        with (mCursor s + count - 1) by lia.
      exact Hi.
    + intros k Hk. specialize (Hbits k Hk).
      replace (8 * (mCursor s / 8) + mCursor s mod 8 + k)
        with (mCursor s + k) in Hbits by lia.
      exact Hbits.
Qed.

(** A completed [writeBits] on a well-formed stream changes no bit before
    the cursor, also when it grows the buffer. *)
Lemma writeBits_left (s : Bitstream) (data : list Z)
    (count : Z) (s' : Bitstream) (i : Z) :
  wf s -> is_u32 count ->
  writeBits uninit s data count = Ok s' ->
  0 <= i < mCursor s ->
  streamBit s' i = streamBit s i.
Proof.
  intros Hwf Hc H Hi.
  destruct (Z.eq_dec count 0) as [->|Hc0].
  { injection H as <-. reflexivity. }
  pose proof Hwf as (HM & _ & HC & _ & HCM & Hown).
  destruct (writeBits_bits s data count s' H Hc0 HC Hc) as (s0 & Hs0 & Hleft & _).
  rewrite Hleft by exact Hi.
  destruct (mOwnsMemory s) eqn:Eown.
  - specialize (Hown eq_refl).
    apply (reallocIfNeeded_bits uninit s _ s0 i Hs0 HM Hown). lia.
  - pose proof (reallocIfNeeded_fields _ _ _ _ Hs0) as (_ & _ & _ & _ & Hext).
    destruct (Hext Eown) as [-> _]. reflexivity.
Qed.

(** C2, as amended.  A [writeBits] that completes on a well-formed stream
    changes none of the buffer's bits before the cursor and none of its bits
    in the storage quanta after the last quantum that holds a bit of the
    range [[cursor, cursor + count)]. *)
Theorem writeBits_frame (s : Bitstream) (data : list Z) (count : Z)
    (s' : Bitstream) (i : Z) :
  wf s -> is_u32 count ->
  writeBits uninit s data count = Ok s' ->
  0 <= i < 8 * bufLen s ->
  i < tell s \/ 8 * ((tell s + count - 1) / 8 + 1) <= i ->
  streamBit s' i = streamBit s i.
Proof.
  unfold tell. intros Hwf Hc H Hi [Hlo|Hhi].
  - apply (writeBits_left s data count s' i Hwf Hc H). lia.
  - destruct (Z.eq_dec count 0) as [->|Hc0].
    { injection H as <-. reflexivity. }
    pose proof Hwf as (HM & _ & HC & _ & HCM & Hown).
    destruct (writeBits_bits s data count s' H Hc0 HC Hc)
      as (s0 & Hs0 & _ & Hright & _).
    rewrite Hright by exact Hhi.
    destruct (mOwnsMemory s) eqn:Eown.
    + specialize (Hown eq_refl).
      apply (reallocIfNeeded_bits uninit s _ s0 i Hs0 HM Hown). exact Hi.
    + pose proof (reallocIfNeeded_fields _ _ _ _ Hs0) as (_ & _ & _ & _ & Hext).
      destruct (Hext Eown) as [-> _]. reflexivity.
Qed.

(** Round trip: [writeBits], [seek] back to the start and [readBits] of the
    same count deliver the bits written, when the old bits that the merge
    ORs into (those of the tail byte of an aligned write, of the first byte
    of an unaligned one) are zero in the buffer the write goes to. *)
Lemma roundtrip_bits (s s0 : Bitstream) (data : list Z)
    (count : Z) (s1 : Bitstream) (dest : list Z) (s2 : Bitstream)
    (dest' : list Z) (k : Z) :
  wf s -> is_u32 count ->
  reallocIfNeeded uninit s (u32 (mCursor s + count)) = Ok s0 ->
  (forall j, 0 <= j < count ->
     (if mCursor s mod 8 =? 0 then 8 * (count / 8) <=? j
      else j <? 8 - mCursor s mod 8) = true ->
     streamBit s0 (mCursor s + j) = false) ->
  writeBits uninit s data count = Ok s1 ->
  readBits (seek s1 (mCursor s)) dest count = Ok (s2, dest') ->
  0 <= k < count ->
  getBit dest' k = getBit data k.
Proof.
  intros Hwf Hc Hs0 Hzero Hw Hr Hk.
  pose proof Hwf as (HM & _ & HC & _ & HCM & _).
  assert (Hc0 : count <> 0) by lia.
  destruct (writeBits_bits s data count s1 Hw Hc0 HC Hc)
    as (s0' & Hs0' & _ & _ & Hbits).
  rewrite Hs0 in Hs0'. injection Hs0' as <-.
  pose proof (writeBits_capacity _ _ _ _ _ Hw) as (Hmono & _).
  assert (Hseek : mCursor (seek s1 (mCursor s)) = mCursor s).
  { change (mCursor (seek s1 (mCursor s)))
      with (Z.min (mCursor s) (mMaxBits s1)). lia. }
  assert (Hcur1 : is_u32 (mCursor (seek s1 (mCursor s)))) by (rewrite Hseek; exact HC).
  destruct (readBits_bits _ _ _ _ _ Hcur1 (proj1 Hc) Hr) as [Hread _].
  rewrite (Hread k Hk). unfold tell. rewrite Hseek.
  change (streamBit (seek s1 (mCursor s)) (mCursor s + k))
    with (streamBit s1 (mCursor s + k)).
  rewrite (Hbits k Hk). specialize (Hzero k Hk).
  destruct (if mCursor s mod 8 =? 0 then 8 * (count / 8) <=? k
            else k <? 8 - mCursor s mod 8).
  - rewrite (Hzero eq_refl). apply orb_false_r.
  - apply orb_false_r.
Qed.

(** X2.  Round trip over cleared bits: when the [count] bits from the cursor on
    are zero in the buffer the write goes to (the stream's buffer after the
    growth step), then [writeBits], [seek] back to the start and [readBits]
    of the same count deliver the bits written, at every misalignment of the
    cursor and for every count. *)
Theorem roundtrip_over_cleared_bits (s s0 : Bitstream) (data : list Z)
    (count : Z) (s1 : Bitstream) (dest : list Z) (s2 : Bitstream)
    (dest' : list Z) (k : Z) :
  wf s -> is_u32 count ->
  reallocIfNeeded uninit s (u32 (tell s + count)) = Ok s0 ->
  (forall j, 0 <= j < count -> streamBit s0 (tell s + j) = false) ->
  writeBits uninit s data count = Ok s1 ->
  readBits (seek s1 (tell s)) dest count = Ok (s2, dest') ->
  0 <= k < count ->
  getBit dest' k = getBit data k.
Proof.
  unfold tell. intros Hwf Hc Hs0 Hzero Hw Hr Hk.
  apply (roundtrip_bits s s0 data count s1 dest s2 dest' k); auto.
Qed.

(** X5.  Round trip of whole bytes at a byte-aligned cursor: with the cursor
    on a byte boundary and a count that is a multiple of 8 (a typed
    [write<T>] at an aligned cursor), [writeBits], [seek] back and
    [readBits] deliver the bits written, whatever the buffer held before. *)
Theorem roundtrip_of_aligned_bytes (s : Bitstream) (data : list Z)
    (count : Z) (s1 : Bitstream) (dest : list Z) (s2 : Bitstream)
    (dest' : list Z) (k : Z) :
  wf s -> is_u32 count ->
  tell s mod 8 = 0 -> count mod 8 = 0 ->
  writeBits uninit s data count = Ok s1 ->
  readBits (seek s1 (tell s)) dest count = Ok (s2, dest') ->
  0 <= k < count ->
  getBit dest' k = getBit data k.
Proof.
  unfold tell. intros Hwf Hc Ha Hc8 Hw Hr Hk.
  pose proof Hwf as (_ & _ & HC & _).
  destruct (writeBits_bits s data count s1 Hw ltac:(lia) HC Hc)
    as (s0 & Hs0 & _).
  apply (roundtrip_bits s s0 data count s1 dest s2 dest' k); auto.
  intros j Hj. rewrite Ha. simpl.
  pose proof (Z.div_mod count 8 ltac:(lia)) as Hcm.
  destruct (Z.leb_spec (8 * (count / 8)) j); [lia | discriminate].
Qed.

(** X6.  Round trip of a boolean: [write(bool)], [seek] back and
    [read(bool)] deliver the value written, whatever the buffer held. *)
Theorem roundtrip_of_bool (s : Bitstream) (value : bool)
    (s1 s2 : Bitstream) (value' : bool) :
  wf s ->
  write_bool uninit s value = Ok s1 ->
  read_bool (seek s1 (tell s)) = Ok (s2, value') ->
  value' = value.
Proof.
  unfold tell. intros Hwf Hw Hr.
  pose proof Hwf as (_ & _ & HC & _ & HCM & _). unfold is_u32 in HC.
  pose proof (write_bool_capacity _ _ _ _ Hw) as (Hmono & _).
  pose proof (write_bool_bits _ _ _ Hwf Hw) as (Hbit & _).
  assert (Hseek : mCursor (seek s1 (mCursor s)) = mCursor s).
  { change (mCursor (seek s1 (mCursor s)))
      with (Z.min (mCursor s) (mMaxBits s1)). lia. }
  apply read_bool_bit in Hr; [| rewrite Hseek; lia].
  destruct Hr as (-> & _). rewrite Hseek. exact Hbit.
Qed.

(** ** [writeBits] completes *)

(** The growth step completes and leaves room for [n] bits: on a stream that
    owns its buffer while the sizes fit 32 bits, and on an external buffer
    that holds [n] bits. *)
Lemma reallocIfNeeded_room (s : Bitstream) (n : Z) :
  wf s -> 0 < n ->
  (mOwnsMemory s = true -> n + 4 * BITS_PER_QUANT + n / 2 + 7 < 2 ^ 32) ->
  (mOwnsMemory s = false -> n <= mMaxBits s /\ mMaxBits s <= 8 * bufLen s) ->
  exists s0 buf0,
    reallocIfNeeded uninit s n = Ok s0 /\ mData s0 = Some buf0 /\
    n <= 8 * Z.of_nat (length buf0).
Proof.
  intros Hwf Hn Hown Hext. pose proof Hwf as (HM & _ & _ & _ & _ & Hlen).
  change BITS_PER_QUANT with 8 in Hown.
  assert (Hhalf : 0 <= n / 2) by (apply Z.div_pos; lia).
  destruct (Z.le_gt_cases n (mMaxBits s)) as [Hle|Hgt].
  - (* no growth *)
    exists s. unfold reallocIfNeeded.
    destruct (Z.ltb_spec (mMaxBits s) n); [lia |].
    assert (Hroom : n <= 8 * bufLen s).
    { destruct (mOwnsMemory s); [rewrite Hlen by reflexivity; lia |].
      destruct (Hext eq_refl). lia. }
    unfold bufLen in Hroom. destruct (mData s) as [buf|]; [| lia].
    exists buf. auto.
  - (* growth *)
    destruct (mOwnsMemory s) eqn:Eown; [| destruct (Hext eq_refl); lia].
    specialize (Hown eq_refl). specialize (Hlen eq_refl).
    set (newMaxBits := n + 4 * 8 + n / 2).
    assert (Hgrow : reallocIfNeeded uninit s n = realloc uninit s newMaxBits).
    { unfold reallocIfNeeded. destruct (Z.ltb_spec (mMaxBits s) n); [| lia].
      rewrite Eown. change BITS_PER_QUANT with 8. fold newMaxBits.
      rewrite u32_small by (unfold is_u32, newMaxBits; lia). reflexivity. }
    unfold is_u32 in HM.
    destruct (realloc_grows uninit s newMaxBits) as [s0 Hs0];
      try assumption; try (unfold newMaxBits; lia).
    exists s0. rewrite Hgrow.
    pose proof (realloc_Ok _ _ _ _ Hs0) as Hr. cbv zeta in Hr.
    rewrite (roundUp_quant_small newMaxBits) in Hr by (unfold newMaxBits; lia).
    assert (Hup : newMaxBits <= (newMaxBits + 7) / 8 * 8)
      by (Z.div_mod_to_equations; lia).
    destruct Hr as [[E _] | (_ & _ & _ & _ & _ & buf0 & Hb0 & Hl0 & _)];
      [unfold newMaxBits in *; lia |].
    exists buf0. split; [exact Hs0 |]. split; [exact Hb0 |].
    unfold newMaxBits in *. lia.
Qed.

(** X3.  [writeBits] completes on a well-formed stream whenever the source holds
    [count] bits and either the stream owns its buffer and the grown size
    fits 32 bits, or the write ends within an external buffer. *)
Theorem writeBits_completes (s : Bitstream) (data : list Z) (count : Z) :
  wf s -> is_u32 count ->
  count <= 8 * Z.of_nat (length data) ->
  (mOwnsMemory s = true ->
   tell s + count + 4 * BITS_PER_QUANT + (tell s + count) / 2 + 7 < 2 ^ 32) ->
  (mOwnsMemory s = false ->
   tell s + count <= capacity s /\ capacity s <= 8 * bufLen s) ->
  exists s', writeBits uninit s data count = Ok s'.
Proof.
  unfold tell, capacity. intros Hwf Hc Hsrc Hown Hext. unfold writeBits.
  destruct (Z.eqb_spec count 0) as [|Hc0]; [eauto |].
  pose proof Hwf as (HM & _ & HC & _ & HCM & _). unfold is_u32 in *.
  assert (Hn : 0 < mCursor s + count < 2 ^ 32).
  { destruct (mOwnsMemory s).
    - specialize (Hown eq_refl). change BITS_PER_QUANT with 8 in Hown.
      assert (0 <= (mCursor s + count) / 2) by (apply Z.div_pos; lia). lia.
    - destruct (Hext eq_refl). lia. }
  cbv zeta. rewrite u32_small by (unfold is_u32; lia).
  destruct (reallocIfNeeded_room s (mCursor s + count) Hwf ltac:(lia) Hown Hext)
    as (s0 & buf0 & Hs0 & Hb0 & Hroom).
  rewrite Hs0. simpl.
  pose proof (reallocIfNeeded_fields _ _ _ _ Hs0) as (_ & _ & Hcur0 & _).
  rewrite Hcur0, Hb0, land_quant_mask, !shiftr_quant_log2. simpl.
  pose proof (Z.div_mod (mCursor s) 8 ltac:(lia)) as Hdm.
  pose proof (Z.mod_pos_bound (mCursor s) 8 ltac:(lia)) as Hm.
  pose proof (Z.div_mod count 8 ltac:(lia)) as Hcm.
  pose proof (Z.mod_pos_bound count 8 ltac:(lia)) as Hcr.
  assert (Hdq : 0 <= mCursor s / 8) by (apply Z.div_pos; lia).
  assert (Hnq : 0 <= count / 8) by (apply Z.div_pos; lia).
  destruct (Z.eqb_spec (mCursor s mod 8) 0) as [Ea|Ea].
  - change BYTES_PER_QUANT with 1. change BITS_PER_QUANT with 8.
    rewrite Z.mul_1_r.
    destruct (memcpy_total buf0 (mCursor s / 8) data (count / 8))
      as [bufm Hcp]; try lia.
    rewrite Hcp. simpl. apply memcpy_length in Hcp.
    destruct (write_loop_total (mCursor s mod 8) (u32 (Z.shiftl 1 8 - 1))
                (drop (Z.to_nat (count / 8)) data)
                (count - count / 8 * 8) (mCursor s / 8 + count / 8) bufm)
      as [buf' ->]; try lia.
    { rewrite length_drop. lia. }
    simpl. eauto.
  - destruct (write_loop_total (mCursor s mod 8)
                (u32 (Z.shiftl 1 BITS_PER_QUANT - 1)) data count
                (mCursor s / 8) buf0) as [buf' ->]; try lia.
    simpl. eauto.
Qed.

(** ** Writing over bits that are already set (C1) *)

(** C1, the code at a failing input.  Whatever the allocator hands out: write
    the 16-bit value 0xFFFF to an empty stream, seek to bit 3, write the
    8-bit value 0, seek back to bit 3 and read 8 bits.  The read delivers
    0x1F, not the 0 just written: [writeBits] ORs the new bits into the five
    old bits of the first byte instead of replacing them. *)
Theorem roundtrip_over_set_bits :
  (do s <- write uninit Bitstream_default [255; 255];
   do s <- write uninit (seek s 3) [0];
   do r <- read (seek s 3) [0];
   Ok (snd r)) = Ok [31].
Proof. vm_compute. reflexivity. Qed.

(** The same merge on a 16-bit buffer of all ones with the cursor at bit 4:
    writing the 8 bits of the byte 0 covers the bits 4 to 11.  Afterwards
    the bits 4 to 7, inside the range, still hold their old ones, and the
    bits 12 to 15 are cleared: [mData[destQuant + 1] & ~destMask] is 0. *)
Lemma writeBits_merge_on_ones :
  writeBits uninit (seek (Bitstream_external [255; 255] 16) 4) [0] 8 =
    Ok (mkBitstream (Some [255; 0]) 16 16 false 12) /\
  streamBit (seek (Bitstream_external [255; 255] 16) 4) 12 = true /\
  streamBit (mkBitstream (Some [255; 0]) 16 16 false 12) 12 = false /\
  streamBit (mkBitstream (Some [255; 0]) 16 16 false 12) 4 = true.
Proof. repeat split; vm_compute; reflexivity. Qed.

(** ** The scenario of two short writes and two short reads (C9) *)

Lemma first_growth :
  reallocIfNeeded uninit Bitstream_default 3 =
  Ok (mkBitstream (Some (bs_allocN uninit 5)) 40 0 true 0).
Proof. reflexivity. Qed.

(** The scenario on a stream whose 5-byte block starts with a zero byte. *)
Lemma scenario_from_block (tl : list Z) :
  (do s <- writeBits uninit (mkBitstream (Some (0 :: tl)) 40 0 true 0) [5] 3;
   do s <- writeBits uninit s [26] 5;
   do r1 <- readBits (seek s 0) [0] 3;
   do r2 <- readBits (fst r1) [0] 5;
   Ok (snd r1, snd r2, tell (fst r2), size (fst r2))) =
  Ok ([213], [26], 8, 8).
Proof. vm_compute. reflexivity. Qed.

(** C9, as amended.  Starting from a default (reserve 0) stream whose first
    block comes from the allocator with a zero first byte: write the 3-bit
    value 0b101 (5), then the 5-bit value 0b11010 (26), seek to 0, read 3
    bits and then 5 bits into zeroed bytes.  The first read delivers the
    byte 0xD5 (213), whose low three bits are 0b101; the second delivers
    0b11010; afterwards [tell] is 8 and [size] is 8. *)
Theorem scenario_three_then_five_bits :
  u8 (uninit 5 0) = 0 ->
  (do s <- writeBits uninit Bitstream_default [5] 3;
   do s <- writeBits uninit s [26] 5;
   do r1 <- readBits (seek s 0) [0] 3;
   do r2 <- readBits (fst r1) [0] 5;
   Ok (snd r1, snd r2, tell (fst r2), size (fst r2))) =
  Ok ([213], [26], 8, 8) /\
  Z.land 213 (Z.ones 3) = 5.
Proof.
  intros H. split; [| reflexivity].
  assert (Halloc : bs_allocN uninit 5 =
                   0 :: map (fun i => u8 (uninit 5 (Z.of_nat i))) (seq 1 4)).
  { unfold bs_allocN. change (Z.to_nat 5) with 5%nat. cbn [seq map].
    change (Z.of_nat 0) with 0. rewrite H. reflexivity. }
  rewrite <- (scenario_from_block
                (map (fun i => u8 (uninit 5 (Z.of_nat i))) (seq 1 4))).
  rewrite <- Halloc.
  assert (Hfirst :
            writeBits uninit Bitstream_default [5] 3 =
            writeBits uninit
              (mkBitstream (Some (bs_allocN uninit 5)) 40 0 true 0) [5] 3).
  { unfold writeBits. change (3 =? 0) with false. cbv iota zeta.
    change (u32 (mCursor Bitstream_default + 3)) with 3.
    rewrite first_growth.
    change (u32 (mCursor (mkBitstream (Some (bs_allocN uninit 5)) 40 0 true 0)
                 + 3)) with 3.
    reflexivity. }
  rewrite Hfirst. reflexivity.
Qed.

End Writes.

(** * The rest of the class *)

(** ** Cursor, length and capacity *)

Lemma readBits_fields (s : Bitstream) (data : list Z) (count : Z)
    (s' : Bitstream) (data' : list Z) :
  readBits s data count = Ok (s', data') ->
  s' = mkBitstream (mData s) (mMaxBits s) (mNumBits s) (mOwnsMemory s)
         (if count =? 0 then mCursor s else u32 (mCursor s + count)) /\
  (count <> 0 -> u32 (mCursor s + count) <= mNumBits s).
Proof.
  unfold readBits. destruct (Z.eqb_spec count 0) as [-> | Hc].
  - intros [= <- <-]. split; [symmetry; apply Bitstream_eta | congruence].
  - intros H. inv_bind H as u Ha. apply assert_Ok in Ha.
    inv_bind H as buf Hbuf. inv_bind H as d Hd. injection H as <- <-.
    split; [reflexivity | intros _; lia].
Qed.

Lemma read_bool_fields (s s' : Bitstream) (value : bool) :
  read_bool s = Ok (s', value) ->
  s' = mkBitstream (mData s) (mMaxBits s) (mNumBits s) (mOwnsMemory s)
         (u32 (mCursor s + 1)) /\
  u32 (mCursor s + 1) <= mNumBits s.
Proof.
  unfold read_bool. intros H. inv_bind H as u Ha. apply assert_Ok in Ha.
  cbv zeta in H. inv_bind H as buf Hbuf. inv_bind H as b Hb.
  injection H as <- <-. split; [reflexivity | lia].
Qed.

(** X7.  Reading past the length: when [cursor + count] fits [uint32_t] and
    exceeds the length of the stream, [readBits] stops on its assertion,
    before it touches the buffer or the destination.  So do [read(bool)] at
    or past the end of the stream, and [read<T>] of an object that does not
    fit. *)
Theorem reads_past_length_trap (s : Bitstream) (data : list Z) (count : Z) :
  0 <= tell s -> 0 < count -> tell s + count < 2 ^ 32 ->
  size s < tell s + count ->
  readBits s data count = Fault AssertionFailed /\
  (count = 1 -> read_bool s = Fault AssertionFailed) /\
  (count = Z.of_nat (length data) * 8 -> read s data = Fault AssertionFailed).
Proof.
  unfold tell, size. intros Hc Hn Hlt Hpast.
  assert (Hr : readBits s data count = Fault AssertionFailed).
  { unfold readBits. destruct (Z.eqb_spec count 0); [lia |].
    rewrite u32_small by lia.
    destruct (Z.leb_spec (mCursor s + count) (mNumBits s)); [lia | reflexivity]. }
  split; [exact Hr |]. split.
  - intros ->. unfold read_bool. rewrite u32_small by lia.
    destruct (Z.leb_spec (mCursor s + 1) (mNumBits s)); [lia | reflexivity].
  - intros E. unfold read. rewrite <- E. rewrite u32_small by lia. exact Hr.
Qed.

(** X8.  [read(bool)] before the end of the stream: on a well-formed stream
    whose buffer holds [size()] bits, when [eof()] is false, [read(bool)]
    completes, delivers the stream bit under the cursor and moves the cursor
    by one bit; buffer and length stay as they are. *)
Theorem read_bool_completes_before_eof (s : Bitstream) :
  wf s -> size s <= 8 * bufLen s -> eof s = false ->
  exists s', read_bool s = Ok (s', streamBit s (tell s)) /\
    tell s' = tell s + 1 /\ data s' = data s /\ size s' = size s.
Proof.
  unfold size, eof, tell, data. intros Hwf Hbuf He.
  destruct Hwf as (HM & HN & HC & HNM & HCM & _). unfold is_u32 in *.
  apply Z.leb_gt in He.
  assert (Hq : 0 <= mCursor s / 8 < bufLen s)
    by (Z.div_mod_to_equations; lia).
  unfold bufLen in Hq.
  destruct (mData s) as [buf|] eqn:Eb; [| lia].
  destruct (load_total buf (mCursor s / 8) Hq) as [b Hb].
  assert (Hrun : exists s' v, read_bool s = Ok (s', v)).
  { unfold read_bool. rewrite u32_small by lia.
    destruct (Z.leb_spec (mCursor s + 1) (mNumBits s)); [| lia].
    simpl. rewrite shiftr_quant_log2, Eb. simpl. rewrite Hb. simpl. eauto. }
  destruct Hrun as (s' & v & Hrun).
  destruct (read_bool_bit s s' v ltac:(lia) Hrun) as (-> & Hcur & Hd).
  destruct (read_bool_fields _ _ _ Hrun) as [Hs _].
  exists s'. split; [exact Hrun |].
  rewrite Hcur, u32_small by lia. rewrite Hs. simpl. auto.
Qed.

(** X9.  [align] for every [byteCount > 0], a power of two or not: it
    completes, the cursor does not move back, stays within the capacity, and
    moves by less than [byteCount * 8] bits (as long as
    [capacity + byteCount * 8] is at most 2^31). *)
Theorem align_moves_forward (s : Bitstream) (byteCount : Z) :
  0 < byteCount -> 0 <= mCursor s <= mMaxBits s ->
  mMaxBits s + 8 * byteCount <= 2 ^ 31 ->
  exists s', align s byteCount = Ok s' /\
    tell s <= tell s' <= capacity s /\
    tell s' - tell s < 8 * byteCount.
Proof.
  unfold tell, capacity. intros Hn Hc Hm.
  destruct (align_cursor s byteCount Hn Hc Hm) as [Hy Hs].
  cbv zeta in Hy, Hs. eexists. split; [exact Hs |]. simpl. lia.
Qed.

(** X10.  [skip(-count)] undoes [readBits(count)]: on a well-formed stream
    of a capacity below 2^31 bits, a completed read of [count] bits followed
    by [skip(-count)] completes and gives back the state before the read. *)
Theorem skip_back_undoes_read (s : Bitstream) (data : list Z) (count : Z)
    (s' : Bitstream) (data' : list Z) :
  wf s -> capacity s < 2 ^ 31 -> 0 <= count < 2 ^ 31 ->
  readBits s data count = Ok (s', data') ->
  skip s' (- count) = Ok s.
Proof.
  unfold capacity. intros Hwf Hcap Hc Hr.
  destruct Hwf as (HM & HN & HC & HNM & HCM & _). unfold is_u32 in *.
  destruct (readBits_fields _ _ _ _ _ Hr) as [Hs Hle].
  assert (Hcur : mCursor s' = mCursor s + count /\ mCursor s + count <= mMaxBits s).
  { rewrite Hs. simpl. destruct (Z.eqb_spec count 0) as [-> | Hne]; [lia |].
    specialize (Hle Hne). rewrite u32_small in * by lia. lia. }
  assert (Hf : mData s' = mData s /\ mMaxBits s' = mMaxBits s /\
               mNumBits s' = mNumBits s /\ mOwnsMemory s' = mOwnsMemory s)
    by (rewrite Hs; simpl; auto).
  destruct Hf as (Hd & Hmx & Hnb & Ho). destruct Hcur as [Hcur Hle'].
  rewrite skip_cursor by lia. rewrite Hd, Hmx, Hnb, Ho.
  replace (Z.max 0 (Z.min (mCursor s' + - count) (mMaxBits s)))
    with (mCursor s) by lia.
  f_equal. apply Bitstream_eta.
Qed.

Section Accounting.
Variable uninit : Z -> Z -> Z.

(** X11.  In every state a program can bring it into, a stream that owns its
    memory has a capacity of whole bytes, at most 2^32 - 8 bits, and a buffer
    of exactly [capacity / 8] bytes. *)
Theorem owned_capacity_whole_quanta (s : Bitstream) :
  reachable uninit s -> mOwnsMemory s = true ->
  capacity s mod 8 = 0 /\ 8 * bufLen s = capacity s /\ capacity s <= 2 ^ 32 - 8.
Proof.
  unfold capacity. intros Hr Ho. apply reachable_wf in Hr.
  destruct Hr as (HM & _ & _ & _ & _ & Hb). specialize (Hb Ho).
  unfold is_u32 in HM. split; [| split; [exact Hb |]].
  - rewrite <- Hb. Z.div_mod_to_equations; lia.
  - lia.
Qed.

Lemma writeBits_fields (s : Bitstream) (data : list Z) (count : Z) (s' : Bitstream) :
  writeBits uninit s data count = Ok s' ->
  mNumBits s <= mNumBits s' /\
  (count <> 0 -> mNumBits s' = Z.max (mNumBits s) (u32 (mCursor s + count)) /\
                 mCursor s' = u32 (mCursor s + count)).
Proof.
  unfold writeBits. destruct (Z.eqb_spec count 0) as [-> | Hc].
  - intros [= <-]. split; [lia | congruence].
  - intros H. inv_bind H as s0 H0. cbv zeta in H.
    inv_bind H as buf Hbuf. inv_bind H as buf' Hbuf'. injection H as <-.
    destruct (reallocIfNeeded_fields _ _ _ _ H0) as (Hn & _ & Hcur & _).
    simpl. rewrite Hn. split; [lia | auto].
Qed.

Lemma write_bool_fields (s : Bitstream) (value : bool) (s' : Bitstream) :
  write_bool uninit s value = Ok s' ->
  mNumBits s' = Z.max (mNumBits s) (u32 (mCursor s + 1)) /\
  mCursor s' = u32 (mCursor s + 1).
Proof.
  unfold write_bool. intros H. inv_bind H as s0 H0. cbv zeta in H.
  inv_bind H as buf Hbuf. inv_bind H as old Hold. inv_bind H as buf' Hbuf'.
  injection H as <-.
  destruct (reallocIfNeeded_fields _ _ _ _ H0) as (Hn & _ & Hcur & _).
  simpl. rewrite Hn, Hcur. auto.
Qed.

Lemma step_size (s : Bitstream) (o : operation) (s' : Bitstream) :
  step uninit s o = Ok s' -> mNumBits s <= mNumBits s'.
Proof.
  destruct o; simpl; intros H.
  - apply writeBits_fields in H. lia.
  - inv_bind H as r Hr. injection H as <-. destruct r as [s1 d].
    apply readBits_fields in Hr as [-> _]. simpl. lia.
  - apply writeBits_fields in H. lia.
  - inv_bind H as r Hr. injection H as <-. destruct r as [s1 d].
    apply readBits_fields in Hr as [-> _]. simpl. lia.
  - apply write_bool_fields in H. lia.
  - inv_bind H as r Hr. injection H as <-. destruct r as [s1 d].
    apply read_bool_fields in Hr as [-> _]. simpl. lia.
  - apply skip_Ok in H as [_ ->]. simpl. lia.
  - injection H as <-. simpl. lia.
  - rewrite (align_fields s count s' H). simpl. lia.
Qed.

(** X12.  Whatever operations run, the length of the stream does not
    shrink and the ownership flag keeps its value. *)
Theorem length_never_shrinks (os : list operation) (s s' : Bitstream) :
  run uninit s os = Ok s' ->
  size s <= size s' /\ mOwnsMemory s' = mOwnsMemory s.
Proof.
  unfold size. intros H. split; [| apply (run_capacity uninit os s s' H)].
  revert s H. induction os as [| o os IH]; intros s H; simpl in H.
  - injection H as <-. lia.
  - inv_bind H as s1 H1. apply step_size in H1. apply IH in H. lia.
Qed.

(** X13.  A position taken with [tell()] stays valid: after any operations
    that complete, [seek(position)] brings the cursor back to it.  (The
    capacity has not shrunk in between, so [seek] does not clamp.) *)
Theorem seek_restores_position (s : Bitstream) (os : list operation) (s' : Bitstream) :
  wf s -> run uninit s os = Ok s' ->
  tell (seek s' (tell s)) = tell s.
Proof.
  unfold tell. intros Hwf H.
  destruct Hwf as (_ & _ & _ & _ & HCM & _).
  destruct (run_capacity uninit os s s' H) as [Hm _].
  change (mCursor (seek s' (mCursor s))) with (Z.min (mCursor s) (mMaxBits s')).
  lia.
Qed.

(** X14.  [Bitstream(capacity)] always completes.  The stream is empty, owns
    its memory, has its cursor at 0, a capacity of [capacity * 8] bits
    (modulo 2^32) and a buffer of exactly that many bits.  When that capacity
    is 0, for [capacity = 0] or a multiple of 2^29, no block is allocated and
    the stream is the default-constructed one. *)
Theorem reserve_gives_empty_stream (n : Z) :
  is_u32 n ->
  exists s, Bitstream_reserve uninit n = Ok s /\
    capacity s = u32 (n * 8) /\ size s = 0 /\ tell s = 0 /\
    mOwnsMemory s = true /\ 8 * bufLen s = capacity s /\
    (capacity s = 0 -> s = Bitstream_default).
Proof.
  intros Hn. unfold Bitstream_reserve, realloc.
  set (x := u32 (n * 8)).
  assert (Hx : 0 <= x <= 2 ^ 32 - 8 /\ x mod 8 = 0).
  { unfold x, u32. Z.div_mod_to_equations; lia. }
  assert (Hd : divideAndRoundUp x BITS_PER_QUANT = x / 8).
  { unfold divideAndRoundUp, BITS_PER_QUANT, BYTES_PER_QUANT.
    rewrite u32_small by lia. Z.div_mod_to_equations; lia. }
  assert (Hnb : u32 (divideAndRoundUp x BITS_PER_QUANT * BITS_PER_QUANT) = x).
  { rewrite Hd. unfold BITS_PER_QUANT, BYTES_PER_QUANT.
    rewrite u32_small by (Z.div_mod_to_equations; lia).
    Z.div_mod_to_equations; lia. }
  cbv zeta. rewrite Hnb. simpl mMaxBits.
  destruct (Z.eqb_spec x 0) as [E | E].
  - exists Bitstream_default. unfold capacity, size, tell, bufLen. simpl.
    repeat split; auto; lia.
  - destruct (Z.ltb_spec 0 x); [| lia]. simpl.
    eexists. split; [reflexivity |]. unfold capacity, size, tell, bufLen. simpl.
    rewrite bs_allocN_length, Hd.
    repeat split; try (Z.div_mod_to_equations; lia).
Qed.

(** X15.  A [writeBits] that completes moves the cursor by exactly [count]
    bits, the length becomes the larger of the old length and the new cursor
    (it stays for [count = 0]), and the capacity afterwards covers the new
    cursor: on a well-formed stream that owns its memory, or whenever
    [cursor + count < 2^32]. *)
Theorem write_advances_cursor (s : Bitstream) (data : list Z) (count : Z)
    (s' : Bitstream) :
  wf s -> is_u32 count ->
  mOwnsMemory s = true \/ tell s + count < 2 ^ 32 ->
  writeBits uninit s data count = Ok s' ->
  tell s' = tell s + count /\
  size s' = (if count =? 0 then size s else Z.max (size s) (tell s + count)) /\
  tell s + count <= capacity s'.
Proof.
  unfold tell, size, capacity. intros Hwf Hc Hown Hw.
  pose proof Hwf as (HM & HN & HC & HNM & HCM & Hb). unfold is_u32 in *.
  destruct (Z.eq_dec count 0) as [-> | Hne].
  - unfold writeBits in Hw. simpl in Hw. injection Hw as <-. simpl. lia.
  - destruct (writeBits_Ok uninit s data count s' Hw Hne HC Hc)
      as (s1 & buf1 & buf' & H1 & Hd1 & Hlen & Hroom & ->). simpl.
    destruct (Z.eqb_spec count 0) as [| _]; [contradiction |].
    destruct (reallocIfNeeded_fields _ _ _ _ H1) as (Hn1 & Ho1 & Hc1 & Hm1 & Hext).
    assert (Hfit : mCursor s + count <= mMaxBits s1 /\ mCursor s + count < 2 ^ 32).
    { destruct (mOwnsMemory s) eqn:Eo.
      - pose proof (reallocIfNeeded_owned _ _ _ _ H1 (Hb eq_refl)) as Hb1.
        pose proof (reallocIfNeeded_u32 _ _ _ _ H1 HM) as HM1.
        unfold bufLen in Hb1. rewrite Hd1 in Hb1. unfold is_u32 in HM1. lia.
      - destruct Hown as [Hown | Hown]; [discriminate |].
        destruct (Hext eq_refl) as [-> Hle].
        rewrite u32_small in Hle by lia. lia. }
    rewrite u32_small by lia. rewrite Hn1. lia.
Qed.

End Accounting.

(** ** Bytes of the buffer *)

Lemma write_loop_done (m mask : Z) (data : list Z) (dq : Z) (buf : list Z) :
  write_loop m mask data 0 dq buf = Ok buf.
Proof. rewrite write_loop_eq. reflexivity. Qed.

Lemma read_loop_done (m : Z) (buf data : list Z) (sq : Z) :
  read_loop m buf data 0 sq = Ok data.
Proof. rewrite read_loop_eq. reflexivity. Qed.

(** [read<T>] at a byte-aligned cursor copies [sizeof(T)] bytes of the
    buffer. *)
Lemma read_aligned (s : Bitstream) (dest buf : list Z) :
  mData s = Some buf -> 0 <= mCursor s -> mCursor s mod 8 = 0 ->
  mCursor s + 8 * Z.of_nat (length dest) <= mNumBits s ->
  mNumBits s < 2 ^ 32 ->
  mCursor s / 8 + Z.of_nat (length dest) <= Z.of_nat (length buf) ->
  read s dest =
  Ok (mkBitstream (mData s) (mMaxBits s) (mNumBits s) (mOwnsMemory s)
        (mCursor s + 8 * Z.of_nat (length dest)),
      take (length dest) (drop (Z.to_nat (mCursor s / 8)) buf)).
Proof.
  intros Eb Hc Ha Hn Hu Hroom. unfold read, readBits.
  remember (Z.of_nat (length dest)) as n eqn:En.
  assert (Hn0 : 0 <= n) by lia.
  rewrite (u32_small (n * 8)) by lia.
  destruct (Z.eqb_spec (n * 8) 0) as [E | E].
  - assert (n = 0) by lia. destruct dest; [| simpl in *; lia].
    simpl. replace (mCursor s + 8 * n) with (mCursor s) by lia.
    rewrite Bitstream_eta. reflexivity.
  - rewrite u32_small by lia.
    destruct (Z.leb_spec (mCursor s + n * 8) (mNumBits s)); [| lia].
    simpl bind. rewrite Eb. simpl bind.
    rewrite land_quant_mask, Ha, !shiftr_quant_log2. simpl Z.eqb. cbv iota.
    change BYTES_PER_QUANT with 1. change BITS_PER_QUANT with 8.
    replace (n * 8 / 8) with n by (Z.div_mod_to_equations; lia).
    rewrite Z.mul_1_r, Z.sub_diag.
    assert (Hq : 0 <= mCursor s / 8) by (apply Z.div_pos; lia).
    assert (Hcp : memcpy dest 0 (drop (Z.to_nat (mCursor s / 8)) buf) n =
                  Ok (take (Z.to_nat n) (drop (Z.to_nat (mCursor s / 8)) buf))).
    { unfold memcpy. simpl Z.ltb.
      destruct (Z.ltb_spec n 0); [lia |]. simpl orb. cbv iota.
      rewrite <- En.
      destruct (Z.ltb_spec n (0 + n)); [lia |].
      rewrite length_drop.
      destruct (Z.ltb_spec (Z.of_nat (length buf - Z.to_nat (mCursor s / 8))) n);
        [lia |].
      simpl take. simpl app. rewrite (drop_ge dest) by lia. rewrite app_nil_r.
      reflexivity. }
    rewrite Hcp. simpl bind. rewrite read_loop_done. simpl bind.
    rewrite take_drop.
    replace (Z.to_nat n) with (length dest) by lia.
    replace (mCursor s + n * 8) with (mCursor s + 8 * n) by lia.
    reflexivity.
Qed.

(** [readBits] keeps the length of the destination and leaves alone its
    bytes after the last one that receives a bit. *)
Lemma read_loop_rest (m : Z) (buf : list Z) (data : list Z) :
  forall (count sq : Z) (data' : list Z),
  read_loop m buf data count sq = Ok data' ->
  length data' = length data /\
  forall i : nat, (count + 7) / 8 <= Z.of_nat i -> data' !! i = data !! i.
Proof.
  induction data as [| d data IH]; intros count sq data' H;
    rewrite read_loop_eq in H.
  - destruct (0 <? count); [discriminate |]. injection H as <-. auto.
  - destruct (Z.ltb_spec 0 count) as [Hc | Hc].
    + inv_bind H as b Hb. cbv zeta in H. inv_bind H as q Hq.
      inv_bind H as rest Hrest. injection H as <-.
      apply IH in Hrest as [Hlen Hrest]. split; [simpl; lia |].
      intros i Hi. destruct i as [| i].
      * exfalso. Z.div_mod_to_equations; lia.
      * simpl. apply Hrest. change BITS_PER_QUANT with 8.
        Z.div_mod_to_equations; lia.
    + injection H as <-. auto.
Qed.

(** X16.  [readBits] keeps the length of the destination and leaves alone
    every destination byte from index [ceil(count / 8)] on. *)
Theorem readBits_keeps_rest_of_destination (s : Bitstream) (data : list Z)
    (count : Z) (s' : Bitstream) (data' : list Z) (i : nat) :
  0 <= count ->
  readBits s data count = Ok (s', data') ->
  length data' = length data /\
  ((count + 7) / 8 <= Z.of_nat i -> data' !! i = data !! i).
Proof.
  intros Hc H. unfold readBits in H.
  destruct (Z.eqb_spec count 0) as [-> | Hne].
  { injection H as <- <-. auto. }
  inv_bind H as u Ha. cbv zeta in H. inv_bind H as buf Hbuf.
  inv_bind H as d Hd. injection H as <- <-.
  rewrite land_quant_mask, !shiftr_quant_log2 in Hd.
  destruct (mCursor s mod 8 =? 0).
  - inv_bind Hd as d1 Hcp. inv_bind Hd as rest Hrest. injection Hd as <-.
    change BYTES_PER_QUANT with 1 in Hcp. rewrite Z.mul_1_r in Hcp.
    change BITS_PER_QUANT with 8 in Hrest.
    pose proof (memcpy_length _ _ _ _ _ Hcp) as Hl1.
    pose proof (memcpy_Ok _ _ _ _ _ Hcp) as (_ & Hn & Hin & _).
    apply read_loop_rest in Hrest as [Hlen Hrest].
    rewrite length_drop in Hlen.
    assert (Hlt : length (take (Z.to_nat (count / 8)) d1) = Z.to_nat (count / 8)).
    { rewrite length_take. lia. }
    split.
    + rewrite length_app, Hlt, Hlen. lia.
    + intros Hi.
      assert (Hge : (Z.to_nat (count / 8) <= i)%nat)
        by (Z.div_mod_to_equations; lia).
      rewrite lookup_app_r by lia. rewrite Hlt.
      rewrite Hrest by (Z.div_mod_to_equations; lia).
      rewrite lookup_drop.
      replace (Z.to_nat (count / 8) + (i - Z.to_nat (count / 8)))%nat with i by lia.
      apply (memcpy_lookup_above _ _ _ _ _ i Hcp). lia.
  - apply read_loop_rest in Hd as [Hlen Hrest]. split; [exact Hlen |].
    intros Hi. apply Hrest. exact Hi.
Qed.

Section Bytes.
Variable uninit : Z -> Z -> Z.

(** Growth keeps the bytes of the old buffer. *)
Lemma reallocIfNeeded_bytes (s : Bitstream) (n : Z) (s' : Bitstream) (i : nat) :
  reallocIfNeeded uninit s n = Ok s' ->
  is_u32 (mMaxBits s) ->
  8 * bufLen s = mMaxBits s ->
  Z.of_nat i < bufLen s ->
  streamByte s' i = streamByte s i.
Proof.
  intros H Hu Hs Hi. apply reallocIfNeeded_Ok in H as [[H1 ->] | (H1 & H2 & H3)].
  - reflexivity.
  - apply realloc_Ok in H3 as [[H3 ->] | (H3 & H4 & _ & _ & _ & buf' & Hb & Hl & Hold)].
    + reflexivity.
    + unfold streamByte, bufLen in *. rewrite Hb.
      destruct (mData s) as [old|] eqn:Eold; [| lia].
      apply (Hold old eq_refl).
      unfold divideAndRoundUp, u32, is_u32 in *. change BITS_PER_QUANT with 8.
      change (2 ^ 32) with 4294967296 in *.
      Z.div_mod_to_equations. lia.
Qed.

(** [write<T>] at a byte-aligned cursor: the bytes of the value are in the
    buffer from byte [cursor / 8] on, and the bytes before are those of the
    old buffer. *)
Lemma write_aligned (s : Bitstream) (value : list Z) (s' : Bitstream) :
  wf s -> mCursor s mod 8 = 0 -> value <> [] ->
  Z.of_nat (length value) * 8 < 2 ^ 32 ->
  write uninit s value = Ok s' ->
  (forall i : nat, (i < length value)%nat ->
     streamByte s' (Z.to_nat (mCursor s / 8) + i) = value !! i) /\
  (forall i : nat, Z.of_nat i < mCursor s / 8 ->
     streamByte s' i = streamByte s i).
Proof.
  intros Hwf Ha Hne Hlen H.
  pose proof Hwf as (HM & HN & HC & HNM & HCM & Hown). unfold is_u32 in *.
  unfold write, writeBits in H.
  set (n := Z.of_nat (length value)) in *.
  assert (Hn : 0 < n) by (destruct value; [congruence | simpl in *; lia]).
  rewrite (u32_small (n * 8)) in H by lia.
  destruct (Z.eqb_spec (n * 8) 0) as [| _]; [lia |].
  cbv zeta in H. inv_bind H as s0 Hs0.
  pose proof (reallocIfNeeded_fields _ _ _ _ Hs0) as (_ & _ & Hcur0 & _ & Hext).
  rewrite Hcur0, land_quant_mask, !shiftr_quant_log2, Ha in H.
  inv_bind H as buf Hbuf.
  destruct (mData s0) as [b|] eqn:Eb; [| discriminate].
  injection Hbuf as ->.
  inv_bind H as buf' Hw. injection H as <-.
  simpl Z.eqb in Hw. cbv iota in Hw.
  inv_bind Hw as bufm Hcp.
  change BYTES_PER_QUANT with 1 in Hcp. change BITS_PER_QUANT with 8 in Hw.
  replace (n * 8 / 8) with n in * by (Z.div_mod_to_equations; lia).
  rewrite Z.mul_1_r in Hcp. rewrite Z.sub_diag, write_loop_done in Hw.
  injection Hw as <-.
  assert (Hq : 0 <= mCursor s / 8) by (apply Z.div_pos; lia).
  split.
  - intros i Hi. unfold streamByte. simpl.
    apply (memcpy_lookup_in _ _ _ _ _ i Hcp). lia.
  - intros i Hi.
    assert (Hb0 : streamByte s0 i = buf !! i)
      by (unfold streamByte; rewrite Eb; reflexivity).
    transitivity (streamByte s0 i).
    + rewrite Hb0. unfold streamByte. simpl.
      apply (memcpy_lookup_below _ _ _ _ _ i Hcp). lia.
    + destruct (mOwnsMemory s) eqn:Eown.
      * specialize (Hown eq_refl).
        apply (reallocIfNeeded_bytes s _ s0 i Hs0); [exact HM | exact Hown |].
        Z.div_mod_to_equations; lia.
      * destruct (Hext eq_refl) as [-> _]. reflexivity.
Qed.

(** X17.  A typed [write] at a byte-aligned cursor stores the bytes of the
    value unchanged in the buffer, from byte [cursor / 8] on, and leaves the
    bytes before them as they were, also when the buffer grows. *)
Theorem aligned_write_stores_bytes_verbatim (s : Bitstream) (value : list Z)
    (s' : Bitstream) (i : nat) :
  wf s -> tell s mod 8 = 0 -> value <> [] ->
  Z.of_nat (length value) * 8 < 2 ^ 32 ->
  write uninit s value = Ok s' ->
  ((i < length value)%nat ->
   streamByte s' (Z.to_nat (tell s / 8) + i) = value !! i) /\
  (Z.of_nat i < tell s / 8 -> streamByte s' i = streamByte s i).
Proof.
  unfold tell. intros Hwf Ha Hne Hlen H.
  destruct (write_aligned s value s' Hwf Ha Hne Hlen H) as [H1 H2].
  split; [apply H1 | apply H2].
Qed.

End Bytes.

(** ** Runs of writes and reads *)

(** [read(bool)] with a bit left to read. *)
Lemma read_bool_total (s : Bitstream) :
  0 <= mCursor s -> mCursor s + 1 <= mNumBits s -> mNumBits s < 2 ^ 32 ->
  mCursor s < 8 * bufLen s ->
  read_bool s =
  Ok (mkBitstream (mData s) (mMaxBits s) (mNumBits s) (mOwnsMemory s)
        (mCursor s + 1),
      streamBit s (mCursor s)).
Proof.
  intros Hc Hn Hu Hb.
  assert (Hq : 0 <= mCursor s / 8 < bufLen s)
    by (Z.div_mod_to_equations; lia).
  unfold bufLen in Hq.
  destruct (mData s) as [buf|] eqn:Eb; [| lia].
  destruct (load_total buf (mCursor s / 8) Hq) as [b Hld].
  assert (Hrun : exists s' v, read_bool s = Ok (s', v)).
  { unfold read_bool. rewrite u32_small by lia.
    destruct (Z.leb_spec (mCursor s + 1) (mNumBits s)); [| lia].
    simpl. rewrite shiftr_quant_log2, Eb. simpl. rewrite Hld. simpl. eauto. }
  destruct Hrun as (s' & v & Hrun). rewrite Hrun.
  destruct (read_bool_bit s s' v Hc Hrun) as (-> & _ & _).
  destruct (read_bool_fields _ _ _ Hrun) as [-> _].
  rewrite u32_small by lia. rewrite Eb. reflexivity.
Qed.

(** [read(bool)] repeated over bits that are in the stream. *)
Lemma read_bools_values (values : list bool) :
  forall s : Bitstream,
  0 <= mCursor s -> mNumBits s < 2 ^ 32 ->
  (forall (k : nat) v, values !! k = Some v ->
     streamBit s (mCursor s + Z.of_nat k) = v /\
     mCursor s + Z.of_nat k < mNumBits s /\
     mCursor s + Z.of_nat k < 8 * bufLen s) ->
  read_bools s (length values) =
  Ok (mkBitstream (mData s) (mMaxBits s) (mNumBits s) (mOwnsMemory s)
        (mCursor s + Z.of_nat (length values)),
      values).
Proof.
  induction values as [| v values IH]; intros s Hc Hu Hbits.
  - simpl. rewrite Z.add_0_r, Bitstream_eta. reflexivity.
  - destruct (Hbits 0%nat v eq_refl) as (Hv & Hn & Hb).
    rewrite Z.add_0_r in Hv, Hn, Hb.
    cbn [length read_bools]. rewrite read_bool_total by lia.
    cbn [bind fst snd]. rewrite IH.
    + cbn [bind fst snd mData mMaxBits mNumBits mOwnsMemory mCursor].
      rewrite Hv. do 3 f_equal. lia.
    + simpl. lia.
    + exact Hu.
    + intros k w Hk. specialize (Hbits (S k) w Hk).
      unfold streamBit, bufLen in *. simpl.
      replace (mCursor s + 1 + Z.of_nat k) with (mCursor s + Z.of_nat (S k)) by lia.
      exact Hbits.
Qed.

Section Sequences.
Variable uninit : Z -> Z -> Z.

Lemma write_wf (s : Bitstream) (value : list Z) (s' : Bitstream) :
  wf s -> write uninit s value = Ok s' -> wf s'.
Proof.
  intros Hwf H. unfold write in H.
  apply (writeBits_wf uninit s value _ s' Hwf (u32_range _) H).
Qed.

Lemma write_all_bytes (c0 : Z) (values : list (list Z)) :
  forall (s s' : Bitstream) (pre : list Z),
  wf s -> 0 <= c0 -> c0 mod 8 = 0 ->
  mCursor s = c0 + 8 * Z.of_nat (length pre) ->
  (forall (i : nat) b, pre !! i = Some b ->
     streamByte s (Z.to_nat (c0 / 8) + i) = Some b) ->
  (pre = [] \/ mCursor s <= mNumBits s) ->
  c0 + 8 * Z.of_nat (length (pre ++ concat values)) < 2 ^ 32 ->
  write_all uninit s values = Ok s' ->
  wf s' /\ mCursor s' = c0 + 8 * Z.of_nat (length (pre ++ concat values)) /\
  (forall (i : nat) b, (pre ++ concat values) !! i = Some b ->
     streamByte s' (Z.to_nat (c0 / 8) + i) = Some b) /\
  (pre ++ concat values = [] \/ mCursor s' <= mNumBits s').
Proof.
  induction values as [| value values IH]; intros s s' pre Hwf Hc0 Ha Hcur Hpre Hsz Hfit H.
  - simpl in H. injection H as <-. simpl. rewrite app_nil_r. auto.
  - simpl in H. inv_bind H as s1 H1.
    simpl concat in *. rewrite app_assoc in *.
    rewrite length_app in Hfit. rewrite (length_app pre value) in Hfit.
    assert (Hq : mCursor s / 8 = c0 / 8 + Z.of_nat (length pre))
      by (rewrite Hcur; Z.div_mod_to_equations; lia).
    assert (Hq0 : 0 <= c0 / 8) by (apply Z.div_pos; lia).
    assert (Hs1 :
      mCursor s1 = c0 + 8 * Z.of_nat (length (pre ++ value)) /\
      (forall (i : nat) b, (pre ++ value) !! i = Some b ->
         streamByte s1 (Z.to_nat (c0 / 8) + i) = Some b) /\
      (pre ++ value = [] \/ mCursor s1 <= mNumBits s1)).
    { destruct value as [| v0 value'] eqn:Ev.
      - unfold write, writeBits in H1. simpl in H1. injection H1 as <-.
        rewrite app_nil_r. auto.
      - rewrite <- Ev in *.
        assert (Hne : value <> []) by (rewrite Ev; discriminate).
        assert (Hlen : 0 < Z.of_nat (length value))
          by (rewrite Ev; simpl; lia).
        assert (Ham : mCursor s mod 8 = 0)
          by (rewrite Hcur; Z.div_mod_to_equations; lia).
        destruct (write_aligned uninit s value s1 Hwf Ham Hne ltac:(lia) H1)
          as [Hin Hbelow].
        unfold write in H1. rewrite u32_small in H1 by lia.
        destruct (writeBits_fields uninit _ _ _ _ H1) as [_ Hf].
        destruct (Hf ltac:(lia)) as [Hnum Hcur1].
        rewrite u32_small in Hnum, Hcur1 by lia.
        split; [rewrite Hcur1, length_app; lia |]. split; [| right; lia].
        intros i b Hi.
        destruct (Nat.lt_ge_cases i (length pre)) as [Hlt | Hge].
        + rewrite lookup_app_l in Hi by exact Hlt.
          rewrite Hbelow by lia. apply Hpre. exact Hi.
        + rewrite lookup_app_r in Hi by exact Hge.
          assert (Hlt : (i - length pre < length value)%nat)
            by (apply lookup_lt_Some in Hi; exact Hi).
          rewrite <- Hi, <- (Hin (i - length pre)%nat Hlt).
          f_equal. lia. }
    destruct Hs1 as (Hcur1 & Hpre1 & Hsz1).
    apply (IH s1 s' (pre ++ value)); auto.
    + apply (write_wf s value s1 Hwf H1).
    + rewrite !length_app. lia.
Qed.

(** X18.  Objects written one after the other from a byte-aligned cursor,
    through any number of reallocations, are read back from the start
    position by one [read] as the concatenation of their bytes: the read
    completes, delivers exactly these bytes and leaves the cursor where the
    writes left it. *)
Theorem aligned_writes_read_back (values : list (list Z)) (s s' : Bitstream)
    (dest : list Z) :
  wf s -> tell s mod 8 = 0 ->
  tell s + 8 * Z.of_nat (length (concat values)) < 2 ^ 32 ->
  write_all uninit s values = Ok s' ->
  length dest = length (concat values) ->
  exists s'',
    read (seek s' (tell s)) dest = Ok (s'', concat values) /\
    tell s'' = tell s'.
Proof.
  unfold tell. intros Hwf Ha Hfit H Hlen.
  pose proof Hwf as (_ & _ & HC & _). unfold is_u32 in HC.
  destruct (write_all_bytes (mCursor s) values s s' [] Hwf ltac:(lia) Ha
              ltac:(simpl; lia) ltac:(intros i b Hi; discriminate)
              ltac:(auto) ltac:(simpl; lia) H)
    as (Hwf' & Hcur' & Hbytes & Hsz').
  simpl app in *.
  pose proof Hwf' as (HM' & HN' & HC' & HNM' & HCM' & _). unfold is_u32 in *.
  assert (Hseek : mCursor (seek s' (mCursor s)) = mCursor s).
  { change (mCursor (seek s' (mCursor s)))
      with (Z.min (mCursor s) (mMaxBits s')). lia. }
  destruct (concat values) as [| b0 all'] eqn:Eall.
  - destruct dest; [| discriminate]. unfold read, readBits. simpl.
    eexists. split; [reflexivity |]. simpl in Hcur' |- *. lia.
  - rewrite <- Eall in *.
    assert (Hpos : (0 < length (concat values))%nat) by (rewrite Eall; simpl; lia).
    destruct Hsz' as [Hsz' | Hsz']; [rewrite Eall in Hsz'; discriminate |].
    assert (Hd : exists buf, mData s' = Some buf).
    { specialize (Hbytes 0%nat b0). rewrite Eall in Hbytes.
      specialize (Hbytes eq_refl). unfold streamByte in Hbytes.
      destruct (mData s'); [eauto | discriminate]. }
    destruct Hd as [buf Hd].
    assert (Hlook : forall i : nat, (i < length (concat values))%nat ->
              buf !! (Z.to_nat (mCursor s / 8) + i)%nat = concat values !! i).
    { intros i Hi. destruct (lookup_lt_is_Some_2 _ _ Hi) as [b Hb].
      rewrite Hb. specialize (Hbytes i b Hb). unfold streamByte in Hbytes.
      rewrite Hd in Hbytes. exact Hbytes. }
    assert (Hq0 : 0 <= mCursor s / 8) by (apply Z.div_pos; lia).
    assert (Hroom : mCursor s / 8 + Z.of_nat (length dest) <= Z.of_nat (length buf)).
    { rewrite Hlen.
      pose proof (Hlook (length (concat values) - 1)%nat ltac:(lia)) as Hl.
      destruct (lookup_lt_is_Some_2 (concat values)
                  (length (concat values) - 1)%nat ltac:(lia)) as [b Hb].
      rewrite Hb in Hl. apply lookup_lt_Some in Hl. lia. }
    assert (Hmin : Z.min (mCursor s) (mMaxBits s') = mCursor s) by lia.
    rewrite (read_aligned (seek s' (mCursor s)) dest buf); simpl;
      rewrite ?Hmin, ?Hlen; try lia; try assumption.
    exists (mkBitstream (mData s') (mMaxBits s') (mNumBits s') (mOwnsMemory s')
              (mCursor s + 8 * Z.of_nat (length (concat values)))).
    split; [| simpl; lia].
    do 2 f_equal. apply list_eq. intros i.
    destruct (Nat.lt_ge_cases i (length (concat values))) as [Hlt | Hge].
    + rewrite lookup_take_lt by lia. rewrite lookup_drop. apply Hlook. exact Hlt.
    + rewrite lookup_take_ge by lia. symmetry. apply lookup_ge_None. lia.
Qed.

(** ** Runs of booleans *)

Lemma write_bool_room (s : Bitstream) (value : bool) (s' : Bitstream) :
  write_bool uninit s value = Ok s' -> 0 <= mCursor s ->
  mCursor s < 8 * bufLen s'.
Proof.
  unfold write_bool. intros H Hc. inv_bind H as s0 H0. cbv zeta in H.
  pose proof (reallocIfNeeded_fields _ _ _ _ H0) as (_ & _ & Hcur0 & _).
  rewrite Hcur0, !shiftr_quant_log2 in H.
  inv_bind H as buf Hbuf. inv_bind H as old Hold. inv_bind H as buf' Hbuf'.
  injection H as <-. unfold bufLen. simpl.
  pose proof (store_length _ _ _ _ Hbuf') as Hl.
  apply store_Ok in Hbuf' as [Hi _]. rewrite Hl.
  Z.div_mod_to_equations; lia.
Qed.

Lemma write_bools_bits (values : list bool) :
  forall s s' : Bitstream,
  wf s -> mCursor s + Z.of_nat (length values) < 2 ^ 32 ->
  write_bools uninit s values = Ok s' ->
  wf s' /\ mCursor s' = mCursor s + Z.of_nat (length values) /\
  mNumBits s <= mNumBits s' /\ bufLen s <= bufLen s' /\
  (forall i, 0 <= i < mCursor s -> i < 8 * bufLen s ->
     streamBit s' i = streamBit s i) /\
  (forall (k : nat) v, values !! k = Some v ->
     streamBit s' (mCursor s + Z.of_nat k) = v /\
     mCursor s + Z.of_nat k < mNumBits s' /\
     mCursor s + Z.of_nat k < 8 * bufLen s').
Proof.
  induction values as [| v values IH]; intros s s' Hwf Hfit H.
  - simpl in H. injection H as <-. simpl.
    split; [exact Hwf |]. split; [lia |]. split; [lia |]. split; [lia |].
    split; [reflexivity |]. intros k v Hk. discriminate.
  - simpl in H. inv_bind H as s1 H1.
    pose proof Hwf as (_ & _ & HC & _). unfold is_u32 in HC.
    simpl length in Hfit.
    pose proof (write_bool_wf uninit s v s1 Hwf H1) as Hwf1.
    destruct (write_bool_fields uninit _ _ _ H1) as [Hnum1 Hcur1].
    rewrite u32_small in Hnum1, Hcur1 by lia.
    destruct (write_bool_bits uninit s v s1 Hwf H1) as (Hbit & Hframe & Hlen1).
    pose proof (write_bool_room s v s1 H1 ltac:(lia)) as Hroom.
    destruct (IH s1 s' Hwf1 ltac:(lia) H)
      as (Hwf' & Hcur' & Hnum' & Hlen' & Hframe' & Hbits').
    split; [exact Hwf' |]. split; [simpl length; lia |].
    split; [lia |]. split; [lia |]. split.
    + intros i Hi Hib. rewrite Hframe' by lia. apply Hframe; lia.
    + intros k w Hk. destruct k as [| k].
      * injection Hk as <-. rewrite Z.add_0_r.
        rewrite Hframe' by lia. split; [exact Hbit |]. lia.
      * specialize (Hbits' k w Hk).
        replace (mCursor s + Z.of_nat (S k)) with (mCursor s1 + Z.of_nat k) by lia.
        exact Hbits'.
Qed.

(** X19.  Booleans written one after the other, from any cursor position and
    whatever the buffer held, are read back in the same order by as many
    [read(bool)] from the start position; the reads complete and leave the
    cursor where the writes left it. *)
Theorem bools_read_back (values : list bool) (s s' : Bitstream) :
  wf s -> tell s + Z.of_nat (length values) < 2 ^ 32 ->
  write_bools uninit s values = Ok s' ->
  exists s'',
    read_bools (seek s' (tell s)) (length values) = Ok (s'', values) /\
    tell s'' = tell s'.
Proof.
  unfold tell. intros Hwf Hfit H.
  pose proof Hwf as (_ & _ & HC & _). unfold is_u32 in HC.
  destruct (write_bools_bits values s s' Hwf Hfit H)
    as (Hwf' & Hcur' & _ & _ & _ & Hbits).
  pose proof Hwf' as (HM' & HN' & HC' & HNM' & HCM' & _). unfold is_u32 in *.
  assert (Hseek : mCursor (seek s' (mCursor s)) = mCursor s).
  { change (mCursor (seek s' (mCursor s)))
      with (Z.min (mCursor s) (mMaxBits s')). lia. }
  rewrite (read_bools_values values (seek s' (mCursor s))).
  - eexists. split; [reflexivity |]. simpl. lia.
  - lia.
  - simpl. lia.
  - intros k v Hk. rewrite Hseek. exact (Hbits k v Hk).
Qed.

End Sequences.

(** ** Quantum arithmetic, merging and capacity *)

(** X20.  For the type sizes 1, 2, 4 and 8 bytes, [LOG2] is the base-2
    logarithm of the size in bits: shifting a cursor right by [LOG2 v] is the
    division by [v * 8], masking it with [v * 8 - 1] the remainder.  For the
    quantum of this class, [LOG2] agrees with [BITS_PER_QUANT_LOG2]. *)
Theorem LOG2_of_type_size (v c : Z) :
  v = 1 \/ v = 2 \/ v = 4 \/ v = 8 -> 0 <= c ->
  2 ^ LOG2 v = v * 8 /\
  LOG2 BYTES_PER_QUANT = BITS_PER_QUANT_LOG2 /\
  Z.shiftr c (LOG2 v) = c / (v * 8) /\
  Z.land c (v * 8 - 1) = c mod (v * 8).
Proof.
  intros Hv Hc.
  assert (E : 2 ^ LOG2 v = v * 8)
    by (destruct Hv as [-> | [-> | [-> | ->]]]; reflexivity).
  split; [exact E |]. split; [reflexivity |].
  assert (Hl : 0 <= LOG2 v)
    by (destruct Hv as [-> | [-> | [-> | ->]]]; unfold LOG2; simpl; lia).
  split.
  - rewrite Z.shiftr_div_pow2 by exact Hl. rewrite E. reflexivity.
  - rewrite <- E. change (2 ^ LOG2 v - 1) with (Z.pred (2 ^ LOG2 v)).
    rewrite <- Z.ones_equiv. apply Z.land_ones. exact Hl.
Qed.

Section Merging.
Variable uninit : Z -> Z -> Z.

(** X21.  What [writeBits] stores: bit [k] of the range written is bit [k]
    of the source, ORed with the bit the buffer held there after the growth
    step when that bit lies in the byte the merge starts with (the tail byte
    of a write at an aligned cursor, the first byte of a write at an
    unaligned one). *)
Theorem writeBits_merges_into_old_bits (s s0 s' : Bitstream) (data : list Z)
    (count k : Z) :
  is_u32 (tell s) -> is_u32 count ->
  reallocIfNeeded uninit s (u32 (tell s + count)) = Ok s0 ->
  writeBits uninit s data count = Ok s' ->
  0 <= k < count ->
  streamBit s' (tell s + k) =
  getBit data k ||
  ((if tell s mod 8 =? 0 then 8 * (count / 8) <=? k
    else k <? 8 - tell s mod 8)
   && streamBit s0 (tell s + k)).
Proof.
  unfold tell. intros HC Hc H0 H Hk.
  destruct (writeBits_bits uninit s data count s' H ltac:(lia) HC Hc)
    as (s0' & H0' & _ & _ & Hbits).
  rewrite H0 in H0'. injection H0' as <-. apply Hbits. exact Hk.
Qed.

(** X22.  A [writeBits] that ends within the capacity does not reallocate:
    capacity and buffer size stay as they are. *)
Theorem write_within_capacity_keeps_buffer (s : Bitstream) (data : list Z)
    (count : Z) (s' : Bitstream) :
  0 <= tell s -> 0 <= count -> tell s + count <= capacity s ->
  capacity s < 2 ^ 32 ->
  writeBits uninit s data count = Ok s' ->
  capacity s' = capacity s /\ bufLen s' = bufLen s.
Proof.
  unfold tell, capacity. intros HC Hc Hfit HM H.
  destruct (Z.eq_dec count 0) as [-> | Hne].
  { injection H as <-. auto. }
  destruct (writeBits_Ok uninit s data count s' H Hne)
    as (s1 & buf1 & buf' & H1 & Hd1 & Hlen & _ & ->);
    [unfold is_u32; lia | unfold is_u32; lia |].
  apply reallocIfNeeded_Ok in H1 as [[_ ->] | (Hgt & _)].
  - unfold bufLen. simpl. rewrite Hd1, Hlen. auto.
  - rewrite u32_small in Hgt by lia. lia.
Qed.

End Merging.

(** ** Appending to zeroed memory *)

(** The excess bits of the last source byte, and nothing else, reach the
    bits after the range written: when they are zero and the buffer holds
    zeros from the first bit written on, it holds zeros after the range. *)
Lemma write_loop_zero_tail (m : Z) (data : list Z) :
  forall (count dq : Z) (buf buf' : list Z),
  write_loop m (u32 (Z.shiftl 1 BITS_PER_QUANT - 1)) data count dq buf = Ok buf' ->
  0 <= m < 8 -> 0 <= dq -> 0 < count ->
  (forall k, count <= k -> getBit data k = false) ->
  (forall i, 8 * dq + m <= i -> getBit buf i = false) ->
  forall i, 8 * dq + m + count <= i -> getBit buf' i = false.
Proof.
  induction data as [|q data IH]; intros count dq buf buf' H Hm Hdq Hc Hclean Hzero;
    rewrite write_loop_eq in H; destruct (Z.ltb_spec 0 count) as [_|]; try lia;
    try discriminate.
  cbv zeta in H.
  inv_bind H as old Hold. inv_bind H as buf1 Hst1. inv_bind H as buf2 Hst2.
  apply load_Ok in Hold as (Hi & c & Hc0 & ->).
  set (v1 := u8 (Z.lor (Z.shiftl (u8 q) m)
                   (Z.land (u8 c) (u32 (Z.shiftl 1 BITS_PER_QUANT - 1))))) in *.
  assert (Hb1 : forall i, 0 <= i ->
            getBit buf1 i = if i / 8 =? dq then Z.testbit v1 (i mod 8)
                            else getBit buf i).
  { intros i Hi0. apply (getBit_store _ _ _ _ _ Hst1). exact Hi0. }
  assert (Hb2 : forall i, 0 <= i ->
            getBit buf2 i =
            if (BITS_PER_QUANT - m <? count) && (i / 8 =? dq + 1)
            then (i mod 8 <? m) && Z.testbit q (i mod 8 + 8 - m)
            else getBit buf1 i).
  { intros i Hi0. destruct (Z.ltb_spec (BITS_PER_QUANT - m) count) as [Hw|Hw].
    - inv_bind Hst2 as old1 Hold1.
      apply load_Ok in Hold1 as (_ & c1 & _ & ->).
      rewrite (getBit_store _ _ _ _ _ Hst2) by exact Hi0. simpl andb.
      destruct (Z.eqb_spec (i / 8) (dq + 1)); [| reflexivity].
      apply write_quant_spill; [lia |]. apply Z.mod_pos_bound. lia.
    - injection Hst2 as <-. reflexivity. }
  change BITS_PER_QUANT with 8 in H, Hb2.
  assert (Hbyte : forall j, 0 <= j < 8 -> getBit buf (8 * dq + j) = Z.testbit c j).
  { intros j Hj. apply getBit_at; auto; lia. }
  (* the bits of [buf2] from the end of this source byte's range on *)
  assert (Hz2 : forall i, 8 * dq + m + Z.min 8 count <= i ->
            (count <= 8 \/ 8 * (dq + 1) + m <= i) -> getBit buf2 i = false).
  { intros i Hi1 Hcase.
    pose proof (Z.div_mod i 8 ltac:(lia)) as Hdi.
    pose proof (Z.mod_pos_bound i 8 ltac:(lia)) as Hmi.
    rewrite Hb2 by lia.
    destruct ((8 - m <? count) && (i / 8 =? dq + 1)) eqn:E2.
    - apply andb_true_iff in E2 as [E2 E3].
      apply Z.ltb_lt in E2. apply Z.eqb_eq in E3.
      destruct (Z.ltb_spec (i mod 8) m) as [Hlt | Hge]; [| reflexivity].
      simpl. destruct Hcase as [Hle | Hbig]; [| lia].
      rewrite <- (getBit_head q data) by lia. apply Hclean. lia.
    - rewrite Hb1 by lia.
      destruct (Z.eqb_spec (i / 8) dq) as [E | E].
      + unfold v1. rewrite write_quant_first by lia.
        rewrite <- (Hbyte (i mod 8)) by lia.
        rewrite (Hzero (8 * dq + i mod 8)) by lia. rewrite orb_false_r.
        destruct (Z.leb_spec m (i mod 8)); [| reflexivity]. simpl.
        destruct Hcase as [Hle | Hbig]; [| lia].
        rewrite <- (getBit_head q data) by lia. apply Hclean. lia.
      + apply Hzero. Z.div_mod_to_equations; lia. }
  intros i Hi1.
  destruct (Z.le_gt_cases count 8) as [Hle | Hgt].
  - rewrite Z.min_r in H by lia. rewrite Z.sub_diag, write_loop_eq in H.
    simpl in H. injection H as <-.
    apply Hz2; [rewrite Z.min_r by lia; lia | left; exact Hle].
  - rewrite Z.min_l in H by lia.
    apply (IH (count - 8) (dq + 1) buf2 buf' H); try lia.
    + intros k Hk. rewrite <- (getBit_cons q data k) by lia.
      apply Hclean. lia.
    + intros j Hj. apply Hz2; [rewrite Z.min_l by lia; lia | right; lia].
Qed.

Lemma getBit_zero_byte (buf : list Z) (i : Z) :
  (forall b, buf !! Z.to_nat (i / 8) = Some b -> b = 0) -> getBit buf i = false.
Proof.
  intros H. unfold getBit. destruct (buf !! Z.to_nat (i / 8)) as [b |]; [| reflexivity].
  rewrite (H b eq_refl). apply Z.testbit_0_l.
Qed.

Lemma getBit_beyond (buf : list Z) (i : Z) :
  8 * Z.of_nat (length buf) <= i -> getBit buf i = false.
Proof.
  intros H. unfold getBit. rewrite lookup_ge_None_2; [reflexivity |].
  Z.div_mod_to_equations; lia.
Qed.

Section Appending.

Variable uninit : Z -> Z -> Z.

Lemma bs_allocN_zero (n : Z) (j : nat) (b : Z) :
  zeroing uninit -> bs_allocN uninit n !! j = Some b -> b = 0.
Proof.
  intros Hz H. apply list_elem_of_lookup_2, list_elem_of_In in H.
  unfold bs_allocN in H. apply in_map_iff in H as (x & <- & _). apply Hz.
Qed.

(** Growth hands over the bytes of a new block from the old size on. *)
Lemma realloc_fresh (s : Bitstream) (n : Z) (s' : Bitstream) :
  realloc uninit s n = Ok s' ->
  s' = s \/
  exists buf' N, mData s' = Some buf' /\
    forall j : nat,
      divideAndRoundUp (mMaxBits s) BITS_PER_QUANT <= Z.of_nat j ->
      buf' !! j = bs_allocN uninit N !! j.
Proof.
  unfold realloc. intros H. cbv zeta in H.
  destruct (_ =? mMaxBits s); [left; injection H as <-; reflexivity |].
  right. inv_bind H as u Ha. inv_bind H as buf' Hb. injection H as <-.
  eexists buf', _. split; [reflexivity |]. intros j Hj.
  destruct (mData s) as [old |].
  - change BYTES_PER_QUANT with 1 in Hb. rewrite Z.mul_1_r in Hb.
    apply (memcpy_lookup_above _ _ _ _ _ j Hb). lia.
  - injection Hb as <-. reflexivity.
Qed.

(** With a zeroing allocator, growth changes no bit: the bits past the old
    buffer read as zero before and are zero after. *)
Lemma reallocIfNeeded_bits_zero (s : Bitstream) (n : Z) (s' : Bitstream) (i : Z) :
  zeroing uninit -> wf s ->
  reallocIfNeeded uninit s n = Ok s' ->
  0 <= i -> streamBit s' i = streamBit s i.
Proof.
  intros Hz Hwf H Hi. pose proof Hwf as (HM & _ & _ & _ & _ & Hown).
  pose proof H as H0.
  apply reallocIfNeeded_Ok in H as [[_ ->] | (_ & Eown & H)]; [reflexivity |].
  specialize (Hown Eown).
  destruct (Z.lt_ge_cases i (8 * bufLen s)) as [Hlt | Hge].
  { apply (reallocIfNeeded_bits uninit s n s' i H0 HM Hown). lia. }
  assert (Hold : streamBit s i = false).
  { unfold streamBit, bufLen in *. destruct (mData s); [| reflexivity].
    apply getBit_beyond. exact Hge. }
  rewrite Hold.
  apply realloc_fresh in H as [-> | (buf' & N & Hb & Hfresh)]; [exact Hold |].
  unfold streamBit. rewrite Hb. apply getBit_zero_byte. intros b Hl.
  rewrite Hfresh in Hl.
  - apply (bs_allocN_zero _ _ _ Hz Hl).
  - unfold divideAndRoundUp, u32, is_u32 in *. change BITS_PER_QUANT with 8.
    change (2 ^ 32) with 4294967296 in *.
    Z.div_mod_to_equations. lia.
Qed.

(** [writeBits] of a zero-padded source over zeros leaves zeros after the
    range written. *)
Lemma writeBits_zero_tail (s : Bitstream) (data : list Z) (count : Z)
    (s0 s' : Bitstream) :
  writeBits uninit s data count = Ok s' ->
  count <> 0 -> is_u32 (mCursor s) -> is_u32 count ->
  reallocIfNeeded uninit s (u32 (mCursor s + count)) = Ok s0 ->
  (forall k, count <= k -> getBit data k = false) ->
  (forall i, mCursor s <= i -> streamBit s0 i = false) ->
  forall i, mCursor s + count <= i -> streamBit s' i = false.
Proof.
  unfold writeBits. intros H Hc0 Hcur Hcount Hs0 Hclean Hzero.
  destruct (Z.eqb_spec count 0) as [|_]; [contradiction |].
  cbv zeta in H. rewrite Hs0 in H. simpl bind in H.
  pose proof (reallocIfNeeded_fields _ _ _ _ Hs0) as (_ & _ & Hcur0 & _).
  rewrite Hcur0, land_quant_mask, !shiftr_quant_log2 in H.
  inv_bind H as buf1 Hbuf1.
  destruct (mData s0) as [b|] eqn:Eb; [| discriminate].
  injection Hbuf1 as ->.
  inv_bind H as buf' Hw. injection H as <-.
  unfold streamBit in *. simpl. rewrite Eb in Hzero.
  unfold is_u32 in *.
  assert (Hdq : 0 <= mCursor s / 8) by (apply Z.div_pos; lia).
  assert (Hm : 0 <= mCursor s mod 8 < 8) by (apply Z.mod_pos_bound; lia).
  pose proof (Z.div_mod (mCursor s) 8 ltac:(lia)) as Hdm.
  destruct (Z.eqb_spec (mCursor s mod 8) 0) as [Ea|Ea].
  - inv_bind Hw as bufm Hcp.
    change BYTES_PER_QUANT with 1 in Hcp. rewrite Z.mul_1_r in Hcp.
    rewrite Ea in Hw. change BITS_PER_QUANT with 8 in Hw.
    assert (Hnq : 0 <= count / 8) by (apply Z.div_pos; lia).
    pose proof (Z.div_mod count 8 ltac:(lia)) as Hcm.
    pose proof (Z.mod_pos_bound count 8 ltac:(lia)) as Hcr.
    assert (Hzm : forall i, 8 * (mCursor s / 8 + count / 8) <= i ->
              getBit bufm i = false).
    { intros i Hi. rewrite (getBit_memcpy_out _ _ _ _ _ i Hcp); [| lia | right; lia].
      apply Hzero. lia. }
    intros i Hi.
    destruct (Z.eq_dec (count - count / 8 * 8) 0) as [E0 | E0].
    + rewrite E0, write_loop_eq in Hw. simpl in Hw. injection Hw as <-.
      apply Hzm. lia.
    + apply (write_loop_zero_tail _ _ _ _ _ _ Hw); try lia.
      * intros k Hk. rewrite getBit_drop by lia. apply Hclean. lia.
      * intros j Hj. apply Hzm. lia.
  - intros i Hi.
    apply (write_loop_zero_tail _ _ _ _ _ _ Hw); try lia.
    + exact Hclean.
    + intros j Hj. apply Hzero. lia.
Qed.

Lemma writeBits_all_bits (writes : list (list Z * Z)) :
  forall s s' : Bitstream,
  zeroing uninit -> wf s ->
  (forall i, mCursor s <= i -> streamBit s i = false) ->
  Forall zero_padded writes ->
  mCursor s + totalBits writes < 2 ^ 32 ->
  writeBits_all uninit s writes = Ok s' ->
  wf s' /\ mCursor s' = mCursor s + totalBits writes /\
  (forall i, 0 <= i < mCursor s -> streamBit s' i = streamBit s i) /\
  (forall k, 0 <= k < totalBits writes ->
     streamBit s' (mCursor s + k) = sourceBit writes k) /\
  (forall i, mCursor s + totalBits writes <= i -> streamBit s' i = false).
Proof.
  induction writes as [| [data count] writes IH];
    intros s s' Hz Hwf Hzero Hpad Hfit H.
  - simpl in H. injection H as <-. simpl. rewrite Z.add_0_r.
    split; [exact Hwf |]. split; [reflexivity |]. split; [reflexivity |].
    split; [intros k Hk; lia | exact Hzero].
  - simpl in H. inv_bind H as s1 H1.
    apply Forall_cons in Hpad as [[Hc Hclean] Hpad]. simpl in Hc, Hclean.
    simpl totalBits in *.
    pose proof Hwf as (HM & HN & HC & HNM & HCM & Hown).
    pose proof (writeBits_wf uninit s data count s1 Hwf Hc H1) as Hwf1.
    assert (Htot : forall ws, Forall zero_padded ws -> 0 <= totalBits ws).
    { intros ws Hws. induction Hws as [| [d c] ws [Hdc _] _ IHws]; simpl;
        [lia | unfold is_u32 in Hdc; simpl in Hdc; lia]. }
    pose proof (Htot writes Hpad) as Htw.
    unfold is_u32 in Hc, HC.
    assert (Hstep :
      mCursor s1 = mCursor s + count /\
      (forall i, 0 <= i < mCursor s -> streamBit s1 i = streamBit s i) /\
      (forall k, 0 <= k < count -> streamBit s1 (mCursor s + k) = getBit data k) /\
      (forall i, mCursor s + count <= i -> streamBit s1 i = false)).
    { destruct (Z.eq_dec count 0) as [-> | Hne].
      - injection H1 as <-. rewrite Z.add_0_r.
        split; [reflexivity |]. split; [reflexivity |].
        split; [intros k Hk; lia | exact Hzero].
      - destruct (writeBits_bits uninit s data count s1 H1 Hne HC Hc)
          as (s0 & Hs0 & _ & _ & Hbits).
        assert (Hzero0 : forall i, mCursor s <= i -> streamBit s0 i = false).
        { intros i Hi.
          rewrite (reallocIfNeeded_bits_zero s _ s0 i Hz Hwf Hs0) by lia.
          apply Hzero. exact Hi. }
        split; [| split; [| split]].
        + unfold writeBits in H1.
          destruct (Z.eqb_spec count 0) as [| _]; [contradiction |].
          cbv zeta in H1. inv_bind H1 as s0' Hs0'. inv_bind H1 as b1 Hb1.
          inv_bind H1 as b2 Hb2. injection H1 as <-. simpl.
          apply u32_small. lia.
        + intros i Hi. apply (writeBits_left uninit s data count s1 i Hwf Hc H1 Hi).
        + intros k Hk. rewrite (Hbits k Hk).
          rewrite (Hzero0 (mCursor s + k)) by lia.
          rewrite andb_false_r. apply orb_false_r.
        + apply (writeBits_zero_tail s data count s0 s1 H1 Hne HC Hc Hs0
                   Hclean Hzero0). }
    destruct Hstep as (Hcur1 & Hleft1 & Hbits1 & Hzero1).
    destruct (IH s1 s' Hz Hwf1) as (Hwf' & Hcur' & Hleft' & Hbits' & Hzero');
      try assumption.
    + intros i Hi. apply Hzero1. lia.
    + lia.
    + split; [exact Hwf' |]. split; [lia |]. split; [| split].
      * intros i Hi. rewrite Hleft' by lia. apply Hleft1. exact Hi.
      * intros k Hk. simpl sourceBit.
        destruct (Z.ltb_spec k count) as [Hlt | Hge].
        -- rewrite Hleft' by lia. apply Hbits1. lia.
        -- replace (mCursor s + k) with (mCursor s1 + (k - count)) by lia.
           apply Hbits'. lia.
      * intros i Hi. apply Hzero'. lia.
Qed.

(** X25.  Appending to zeroed memory: on a stream whose bits from the cursor
    on are zero, with an allocator that hands out zeroed blocks, a run of
    [writeBits] whose sources hold no set bit past their [count] bits stores
    the source bits one after the other: the cursor moves by the total
    count, stream bit [start + k] is bit [k] of the bits handed over, and a
    [readBits] of the total count from the start position delivers it. *)
Theorem appends_over_zeroed_memory (writes : list (list Z * Z))
    (s s' : Bitstream) (k : Z) :
  zeroing uninit -> wf s ->
  (forall i, tell s <= i -> streamBit s i = false) ->
  Forall zero_padded writes ->
  tell s + totalBits writes < 2 ^ 32 ->
  writeBits_all uninit s writes = Ok s' ->
  0 <= k < totalBits writes ->
  tell s' = tell s + totalBits writes /\
  streamBit s' (tell s + k) = sourceBit writes k /\
  forall dest s'' dest',
    readBits (seek s' (tell s)) dest (totalBits writes) = Ok (s'', dest') ->
    getBit dest' k = sourceBit writes k.
Proof.
  unfold tell. intros Hz Hwf Hzero Hpad Hfit H Hk.
  destruct (writeBits_all_bits writes s s' Hz Hwf Hzero Hpad Hfit H)
    as (Hwf' & Hcur' & _ & Hbits & _).
  split; [exact Hcur' |]. split; [apply Hbits; exact Hk |].
  intros dest s'' dest' Hr.
  pose proof Hwf as (_ & _ & HC & _).
  pose proof Hwf' as (_ & _ & _ & _ & HCM' & _).
  assert (Hseek : mCursor (seek s' (mCursor s)) = mCursor s).
  { change (mCursor (seek s' (mCursor s)))
      with (Z.min (mCursor s) (mMaxBits s')). unfold is_u32 in HC. lia. }
  assert (Hc1 : is_u32 (mCursor (seek s' (mCursor s))))
    by (rewrite Hseek; exact HC).
  assert (Ht : 0 <= totalBits writes) by lia.
  destruct (readBits_bits (seek s' (mCursor s)) dest (totalBits writes)
              s'' dest' Hc1 Ht Hr) as [Hread _].
  rewrite (Hread k Hk). unfold tell. rewrite Hseek.
  change (streamBit (seek s' (mCursor s)) (mCursor s + k))
    with (streamBit s' (mCursor s + k)).
  apply Hbits. exact Hk.
Qed.

(** X26.  [write(bool)] and [readBits] number the bits alike: booleans
    written one after the other are the bits that a [readBits] from the
    start position delivers, in order. *)
Theorem bools_read_as_bits (values : list bool) (s s' : Bitstream)
    (dest : list Z) (s'' : Bitstream) (dest' : list Z) (k : nat) (v : bool) :
  wf s -> tell s + Z.of_nat (length values) < 2 ^ 32 ->
  write_bools uninit s values = Ok s' ->
  readBits (seek s' (tell s)) dest (Z.of_nat (length values)) = Ok (s'', dest') ->
  values !! k = Some v ->
  getBit dest' (Z.of_nat k) = v.
Proof.
  unfold tell. intros Hwf Hfit H Hr Hk.
  pose proof Hwf as (_ & _ & HC & _).
  destruct (write_bools_bits uninit values s s' Hwf Hfit H)
    as (Hwf' & Hcur' & _ & _ & _ & Hbits).
  pose proof Hwf' as (_ & _ & _ & _ & HCM' & _).
  assert (Hseek : mCursor (seek s' (mCursor s)) = mCursor s).
  { change (mCursor (seek s' (mCursor s)))
      with (Z.min (mCursor s) (mMaxBits s')). lia. }
  assert (Hc1 : is_u32 (mCursor (seek s' (mCursor s))))
    by (rewrite Hseek; exact HC).
  destruct (readBits_bits (seek s' (mCursor s)) dest (Z.of_nat (length values))
              s'' dest' Hc1 ltac:(lia) Hr) as [Hread _].
  pose proof (lookup_lt_Some _ _ _ Hk) as Hlt.
  rewrite (Hread (Z.of_nat k)) by lia. unfold tell. rewrite Hseek.
  change (streamBit (seek s' (mCursor s)) (mCursor s + Z.of_nat k))
    with (streamBit s' (mCursor s + Z.of_nat k)).
  apply (Hbits k v Hk).
Qed.

End Appending.

(** ** The allocator *)

Lemma obind_Done {A B : Type} (r : outcome A) (k : A -> outcome B) (b : B) :
  obind r k = Done b -> exists a, r = Done a /\ k a = Done b.
Proof. destruct r as [a | f |]; simpl; [eauto | discriminate | discriminate]. Qed.

Lemma lift_Done {A : Type} (r : result A) (a : A) :
  lift r = Done a -> r = Ok a.
Proof. destruct r; simpl; [intros [= ->]; reflexivity | discriminate]. Qed.

Lemma lift_valid {A : Type} (r : result A) : lift r <> InvalidFree.
Proof. destruct r; discriminate. Qed.

Tactic Notation "inv_obind" hyp(H) "as" ident(a) ident(Ha) :=
  apply obind_Done in H; destruct H as (a & Ha & H).

Section LifetimeProps.

Variable uninit : Z -> Z -> Z.

(** The instrumented operations are the operations. *)
Lemma writeBits_split (s : Bitstream) (data : list Z) (count : Z) :
  writeBits uninit s data count =
  if count =? 0 then Ok s
  else do s1 <- reallocIfNeeded uninit s (u32 (mCursor s + count));
       writeBits_in_place s1 data count (u32 (mCursor s + count)).
Proof. reflexivity. Qed.

Lemma write_bool_split (s : Bitstream) (value : bool) :
  write_bool uninit s value =
  do s1 <- reallocIfNeeded uninit s (u32 (mCursor s + 1));
  write_bool_in_place s1 value.
Proof. reflexivity. Qed.

Lemma h_realloc_stream (h : heap) (o : Located) (n : Z) (h' : heap) (o' : Located) :
  h_realloc uninit h o n = Done (h', o') ->
  (address o = None <-> mData (stream o) = None) ->
  realloc uninit (stream o) n = Ok (stream o') /\
  (address o' = None <-> mData (stream o') = None).
Proof.
  unfold h_realloc, realloc. intros H Hcons. cbv zeta in *.
  destruct (_ =? mMaxBits (stream o)).
  - injection H as <- <-. auto.
  - inv_obind H as u Hu. apply lift_Done in Hu. rewrite Hu. simpl bind.
    inv_obind H as r Hr. injection H as <- <-. simpl.
    destruct (address o) as [old |] eqn:Ea.
    + inv_obind Hr as content Hc. apply lift_Done in Hc.
      inv_obind Hr as buffer Hb. apply lift_Done in Hb.
      inv_obind Hr as h1 Hf. injection Hr as <-.
      destruct (mData (stream o)) as [c |]; [| discriminate].
      injection Hc as ->. rewrite Hb. simpl.
      split; [reflexivity | split; discriminate].
    + injection Hr as <-. rewrite (proj1 Hcons eq_refl). simpl.
      split; [reflexivity | split; discriminate].
Qed.

Lemma h_reallocIfNeeded_stream (h : heap) (o : Located) (n : Z)
    (h' : heap) (o' : Located) :
  h_reallocIfNeeded uninit h o n = Done (h', o') ->
  (address o = None <-> mData (stream o) = None) ->
  reallocIfNeeded uninit (stream o) n = Ok (stream o') /\
  (address o' = None <-> mData (stream o') = None).
Proof.
  unfold h_reallocIfNeeded, reallocIfNeeded. intros H Hcons. cbv zeta in *.
  destruct (mMaxBits (stream o) <? n).
  - destruct (mOwnsMemory (stream o)).
    + apply (h_realloc_stream h o _ h' o' H Hcons).
    + discriminate.
  - injection H as <- <-. auto.
Qed.

(** A run with addresses is a run of the stream. *)
Lemma h_step_stream (h : heap) (o : Located) (op : operation)
    (h' : heap) (o' : Located) :
  h_step uninit h o op = Done (h', o') ->
  (address o = None <-> mData (stream o) = None) ->
  step uninit (stream o) op = Ok (stream o').
Proof.
  intros H Hcons.
  assert (Hw : forall data count,
    h_writeBits uninit h o data count = Done (h', o') ->
    writeBits uninit (stream o) data count = Ok (stream o')).
  { intros data count Hw. rewrite writeBits_split. unfold h_writeBits in Hw.
    destruct (count =? 0); [injection Hw as <- <-; reflexivity |].
    cbv zeta in Hw. inv_obind Hw as r Hr. destruct r as [h1 o1].
    apply h_reallocIfNeeded_stream in Hr as [Hr _]; [| exact Hcons].
    rewrite Hr. simpl bind. inv_obind Hw as s Hs. apply lift_Done in Hs.
    injection Hw as <- <-. exact Hs. }
  destruct op; simpl in H |- *; try (apply Hw; exact H);
    try (inv_obind H as s Hs; apply lift_Done in Hs; injection H as <- <-;
         exact Hs).
  rewrite write_bool_split. unfold h_write_bool in H.
  inv_obind H as r Hr. destruct r as [h1 o1].
  apply h_reallocIfNeeded_stream in Hr as [Hr _]; [| exact Hcons].
  rewrite Hr. simpl bind. inv_obind H as s Hs. apply lift_Done in Hs.
  injection H as <- <-. exact Hs.
  all: injection H as <- <-; reflexivity.
Qed.

(** *** A stream that owns its memory *)

Lemma is_live_last (h : heap) : is_live (h ++ [true]) (length h) = true.
Proof.
  unfold is_live. rewrite lookup_app_r by lia.
  rewrite Nat.sub_diag. reflexivity.
Qed.

Lemma free_last (h0 : heap) (k : nat) (tl : heap) :
  <[(length h0 + k)%nat := false]> (h0 ++ replicate k false ++ true :: tl) =
  h0 ++ replicate (S k) false ++ tl.
Proof.
  rewrite insert_app_r_alt by lia. f_equal.
  replace (length h0 + k - length h0)%nat with (length (replicate k false) + 0)%nat
    by (rewrite length_replicate; lia).
  rewrite insert_app_r, replicate_S_end, <- app_assoc. reflexivity.
Qed.

Lemma h_realloc_owned (h0 h : heap) (o : Located) (n : Z) :
  owned h0 h o ->
  match h_realloc uninit h o n with
  | Done (h', o') => owned h0 h' o'
  | Trap _ => True
  | InvalidFree => False
  end.
Proof.
  intros [Hown (k & Hk)]. unfold h_realloc. cbv zeta.
  destruct (_ =? mMaxBits (stream o)).
  { split; [exact Hown | exists k; exact Hk]. }
  destruct (assert _) as [u | f]; simpl; [| exact I].
  destruct Hk as [[Ea ->] | [Ea ->]]; rewrite Ea.
  - simpl. split; [exact Hown |]. exists k. right.
    rewrite length_app, length_replicate, <- app_assoc. auto.
  - destruct (deref _) as [content | f]; simpl; [| exact I].
    destruct (memcpy _ _ _ _) as [buffer | f]; simpl; [| exact I].
    unfold h_free.
    replace ((h0 ++ replicate k false ++ [true]) ++ [true])
      with (h0 ++ replicate k false ++ true :: [true])
      by (rewrite <- !app_assoc; reflexivity).
    assert (Hl : is_live (h0 ++ replicate k false ++ true :: [true])
                   (length h0 + k) = true).
    { unfold is_live. rewrite lookup_app_r by lia.
      rewrite lookup_app_r by (rewrite length_replicate; lia).
      rewrite length_replicate.
      replace (length h0 + k - length h0 - k)%nat with 0%nat by lia.
      reflexivity. }
    rewrite Hl. simpl. rewrite free_last.
    split; [exact Hown |]. exists (S k). right.
    rewrite !length_app, length_replicate. simpl length.
    split; [simpl; f_equal; lia | reflexivity].
Qed.

Lemma h_reallocIfNeeded_owned (h0 h : heap) (o : Located) (n : Z) :
  owned h0 h o ->
  match h_reallocIfNeeded uninit h o n with
  | Done (h', o') => owned h0 h' o'
  | Trap _ => True
  | InvalidFree => False
  end.
Proof.
  intros Ho. unfold h_reallocIfNeeded. cbv zeta.
  destruct (mMaxBits (stream o) <? n); [| exact Ho].
  destruct (mOwnsMemory (stream o)); [| exact I].
  apply h_realloc_owned. exact Ho.
Qed.

Lemma writeBits_in_place_owns (s : Bitstream) (data : list Z) (count nc : Z)
    (s' : Bitstream) :
  writeBits_in_place s data count nc = Ok s' -> mOwnsMemory s' = mOwnsMemory s.
Proof.
  unfold writeBits_in_place. intros H. cbv zeta in H.
  inv_bind H as buf Hbuf. inv_bind H as buf' Hbuf'. injection H as <-.
  reflexivity.
Qed.

Lemma write_bool_in_place_owns (s : Bitstream) (value : bool) (s' : Bitstream) :
  write_bool_in_place s value = Ok s' -> mOwnsMemory s' = mOwnsMemory s.
Proof.
  unfold write_bool_in_place. intros H. cbv zeta in H.
  inv_bind H as buf Hbuf. inv_bind H as old Hold. inv_bind H as buf' Hbuf'.
  injection H as <-. reflexivity.
Qed.

(** What the writes do to the heap is what their [reallocIfNeeded] does. *)
Lemma h_step_cases (h : heap) (o : Located) (op : operation) :
  (exists n,
     match h_reallocIfNeeded uninit h o n with
     | Done (h1, o1) =>
         match h_step uninit h o op with
         | Done (h', o') =>
             h' = h1 /\ address o' = address o1 /\
             mOwnsMemory (stream o') = mOwnsMemory (stream o1)
         | Trap _ => True
         | InvalidFree => False
         end
     | Trap _ => exists f, h_step uninit h o op = Trap f
     | InvalidFree => True
     end) \/
  match h_step uninit h o op with
  | Done (h', o') =>
      h' = h /\ address o' = address o /\
      mOwnsMemory (stream o') = mOwnsMemory (stream o)
  | Trap _ => True
  | InvalidFree => False
  end.
Proof.
  assert (Hw : forall data count,
    (exists n,
     match h_reallocIfNeeded uninit h o n with
     | Done (h1, o1) =>
         match h_writeBits uninit h o data count with
         | Done (h', o') =>
             h' = h1 /\ address o' = address o1 /\
             mOwnsMemory (stream o') = mOwnsMemory (stream o1)
         | Trap _ => True
         | InvalidFree => False
         end
     | Trap _ => exists f, h_writeBits uninit h o data count = Trap f
     | InvalidFree => True
     end) \/
    match h_writeBits uninit h o data count with
    | Done (h', o') =>
        h' = h /\ address o' = address o /\
        mOwnsMemory (stream o') = mOwnsMemory (stream o)
    | Trap _ => True
    | InvalidFree => False
    end).
  { intros data count. unfold h_writeBits.
    destruct (count =? 0); [right; auto |]. left.
    exists (u32 (mCursor (stream o) + count)). cbv zeta.
    destruct (h_reallocIfNeeded _ _ _ _) as [[h1 o1] | f |]; simpl; eauto.
    destruct (writeBits_in_place _ _ _ _) as [s' | f] eqn:E; simpl; [| exact I].
    apply writeBits_in_place_owns in E. auto. }
  destruct op; cbn [h_step]; try apply Hw;
    try (right; destruct (lift _) as [s' | f |] eqn:E; simpl; [| exact I |];
         [| exact (lift_valid _ E)]; apply lift_Done in E; simpl in E).
  - inv_bind E as r Hr. injection E as <-. destruct r as [s1 d].
    apply readBits_capacity in Hr as (_ & Ho & _). auto.
  - inv_bind E as r Hr. injection E as <-. destruct r as [s1 d].
    apply readBits_capacity in Hr as (_ & Ho & _). auto.
  - left. exists (u32 (mCursor (stream o) + 1)). unfold h_write_bool.
    destruct (h_reallocIfNeeded _ _ _ _) as [[h1 o1] | f |]; simpl; eauto.
    destruct (write_bool_in_place _ _) as [s' | f] eqn:E; simpl; [| exact I].
    apply write_bool_in_place_owns in E. auto.
  - inv_bind E as r Hr. injection E as <-. destruct r as [s1 d].
    apply read_bool_capacity in Hr as (_ & Ho & _). auto.
  - apply skip_capacity in E as (_ & Ho & _). auto.
  - injection E as <-. auto.
  - apply align_capacity in E as (_ & Ho & _). auto.
Qed.

Lemma h_step_owned (h0 h : heap) (o : Located) (op : operation) :
  owned h0 h o ->
  match h_step uninit h o op with
  | Done (h', o') => owned h0 h' o'
  | Trap _ => True
  | InvalidFree => False
  end.
Proof.
  intros Ho. destruct (h_step_cases h o op) as [[n Hn] | Hsame].
  - pose proof (h_reallocIfNeeded_owned h0 h o n Ho) as Hr.
    destruct (h_reallocIfNeeded uninit h o n) as [[h1 o1] | f |];
      [| destruct Hn as [f' ->]; exact I | contradiction].
    destruct (h_step uninit h o op) as [[h' o'] | f |]; auto.
    destruct Hn as (-> & Ha & Hm). destruct Hr as [Hown Hk].
    split; [congruence |]. rewrite Ha. exact Hk.
  - destruct (h_step uninit h o op) as [[h' o'] | f |]; auto.
    destruct Hsame as (-> & Ha & Hm). destruct Ho as [Hown Hk].
    split; [congruence |]. rewrite Ha. exact Hk.
Qed.

Lemma h_run_owned (h0 : heap) (ops : list operation) :
  forall (h : heap) (o : Located),
  owned h0 h o ->
  match h_run uninit h o ops with
  | Done (h', o') => owned h0 h' o'
  | Trap _ => True
  | InvalidFree => False
  end.
Proof.
  induction ops as [| op ops IH]; intros h o Ho; simpl.
  - exact Ho.
  - pose proof (h_step_owned h0 h o op Ho) as Hs.
    destruct (h_step uninit h o op) as [[h1 o1] | f |]; simpl;
      [apply IH; exact Hs | exact I | exact Hs].
Qed.

Lemma is_live_released (h0 : heap) (k a : nat) :
  is_live (h0 ++ replicate k false) a = is_live h0 a.
Proof.
  unfold is_live. destruct (Nat.lt_ge_cases a (length h0)) as [Hlt | Hge].
  - rewrite lookup_app_l by exact Hlt. reflexivity.
  - rewrite lookup_app_r by exact Hge.
    rewrite (lookup_ge_None_2 h0 a Hge).
    destruct (replicate k false !! (a - length h0)%nat) as [b |] eqn:E;
      [| reflexivity].
    apply lookup_replicate in E as [-> _]. reflexivity.
Qed.

Lemma h_destroy_owned (h0 h : heap) (o : Located) :
  owned h0 h o ->
  exists k, h_destroy h o = Done (h0 ++ replicate k false).
Proof.
  intros [Hown (k & [[Ea ->] | [Ea ->]])]; unfold h_destroy; rewrite Ea.
  - eauto.
  - rewrite Hown. unfold h_free.
    assert (Hl : is_live (h0 ++ replicate k false ++ [true]) (length h0 + k) = true).
    { unfold is_live. rewrite lookup_app_r by lia.
      rewrite lookup_app_r by (rewrite length_replicate; lia).
      rewrite length_replicate.
      replace (length h0 + k - length h0 - k)%nat with 0%nat by lia.
      reflexivity. }
    rewrite Hl. exists (S k). rewrite free_last, app_nil_r. reflexivity.
Qed.

Lemma h_reserve_owned (h0 : heap) (capacity : Z) :
  match h_reserve uninit h0 capacity with
  | Done (h, o) => owned h0 h o
  | Trap _ => True
  | InvalidFree => False
  end.
Proof.
  apply h_realloc_owned. split; [reflexivity |].
  exists 0%nat. left. simpl. rewrite app_nil_r. auto.
Qed.

(** X23.  A stream that owns its memory, constructed with [Bitstream()] or
    [Bitstream(capacity)], never releases what is not a live block, whatever
    operations run; and when the operations complete, the destructor
    completes and leaves live exactly the blocks that were live before the
    stream was constructed. *)
Theorem owned_stream_returns_its_memory (h0 : heap) (capacity : Z)
    (ops : list operation) (a : nat) :
  (doo r <- h_reserve uninit h0 capacity; h_run uninit (fst r) (snd r) ops)
    <> InvalidFree /\
  h_run uninit h0 h_default ops <> InvalidFree /\
  forall (h : heap) (o : Located),
    (doo r <- h_reserve uninit h0 capacity; h_run uninit (fst r) (snd r) ops)
      = Done (h, o) \/
    h_run uninit h0 h_default ops = Done (h, o) ->
    exists h', h_destroy h o = Done h' /\ is_live h' a = is_live h0 a.
Proof.
  assert (Hdef : owned h0 h0 h_default).
  { split; [reflexivity |]. exists 0%nat. left. simpl. rewrite app_nil_r. auto. }
  pose proof (h_reserve_owned h0 capacity) as Hres.
  pose proof (h_run_owned h0 ops h0 h_default Hdef) as Hrun0.
  assert (Hrun1 :
    match (doo r <- h_reserve uninit h0 capacity;
           h_run uninit (fst r) (snd r) ops) with
    | Done (h', o') => owned h0 h' o'
    | Trap _ => True
    | InvalidFree => False
    end).
  { destruct (h_reserve uninit h0 capacity) as [[h1 o1] | f |]; simpl; auto.
    apply h_run_owned. exact Hres. }
  split; [| split].
  - intros E. rewrite E in Hrun1. exact Hrun1.
  - intros E. rewrite E in Hrun0. exact Hrun0.
  - intros h o [E | E].
    + rewrite E in Hrun1. destruct (h_destroy_owned h0 h o Hrun1) as [k ->].
      eexists. split; [reflexivity | apply is_live_released].
    + rewrite E in Hrun0. destruct (h_destroy_owned h0 h o Hrun0) as [k ->].
      eexists. split; [reflexivity | apply is_live_released].
Qed.

(** *** A stream on the caller's memory *)

Lemma h_run_external (ops : list operation) :
  forall (h : heap) (o : Located),
  mOwnsMemory (stream o) = false ->
  match h_run uninit h o ops with
  | Done (h', o') =>
      h' = h /\ address o' = address o /\ mOwnsMemory (stream o') = false
  | Trap _ => True
  | InvalidFree => False
  end.
Proof.
  induction ops as [| op ops IH]; intros h o Hown; simpl; [auto |].
  assert (Hr : forall n, h_reallocIfNeeded uninit h o n = Done (h, o) \/
                         exists f, h_reallocIfNeeded uninit h o n = Trap f).
  { intros n. unfold h_reallocIfNeeded. cbv zeta. rewrite Hown.
    destruct (mMaxBits (stream o) <? n); simpl; eauto. }
  assert (Hs : match h_step uninit h o op with
               | Done (h', o') =>
                   h' = h /\ address o' = address o /\
                   mOwnsMemory (stream o') = false
               | Trap _ => True
               | InvalidFree => False
               end).
  { destruct (h_step_cases h o op) as [[n Hn] | Hsame].
    - destruct (Hr n) as [E | [f E]]; rewrite E in Hn.
      + destruct (h_step uninit h o op) as [[h' o'] | f |]; auto.
        destruct Hn as (-> & Ha & Hm). rewrite Hm. auto.
      + destruct Hn as [f' ->]. exact I.
    - destruct (h_step uninit h o op) as [[h' o'] | f |]; auto.
      destruct Hsame as (-> & Ha & Hm). rewrite Hm. auto. }
  destruct (h_step uninit h o op) as [[h1 o1] | f |]; simpl; auto.
  destruct Hs as (-> & Ha & Hm).
  specialize (IH h o1 Hm).
  destruct (h_run uninit h o1 ops) as [[h' o'] | f |]; auto.
  destruct IH as (-> & Ha' & Hm'). rewrite Ha', Ha. auto.
Qed.

(** X24.  A stream on the caller's memory calls the allocator neither while
    it is used nor when it is destroyed: the heap stays as it is, the stream
    keeps pointing to the caller's block, and the block is not released. *)
Theorem external_stream_leaves_heap_alone (h0 : heap) (a : nat)
    (data : list Z) (count : Z) (ops : list operation) :
  h_run uninit h0 (h_external a data count) ops <> InvalidFree /\
  forall (h : heap) (o : Located),
    h_run uninit h0 (h_external a data count) ops = Done (h, o) ->
    h = h0 /\ address o = Some a /\ h_destroy h o = Done h0.
Proof.
  pose proof (h_run_external ops h0 (h_external a data count) eq_refl) as Hrun.
  split.
  - intros E. rewrite E in Hrun. exact Hrun.
  - intros h o E. rewrite E in Hrun. destruct Hrun as (-> & Ha & Hm).
    split; [reflexivity |]. split; [exact Ha |].
    unfold h_destroy. rewrite Ha, Hm. reflexivity.
Qed.

End LifetimeProps.

(** * The code on concrete inputs *)

Lemma growth_policy_witness :
  (exists s',
     reallocIfNeeded zero_fill Bitstream_default 3 = Ok s' /\
     mMaxBits s' = roundUpQuanta (3 + 4 * BITS_PER_QUANT + 3 / 2) /\
     forall old, mData Bitstream_default = Some old ->
       exists new, mData s' = Some new /\
         forall i : nat, Z.of_nat i < bytesFor (mMaxBits Bitstream_default) ->
           new !! i = old !! i) /\
  mMaxBits Bitstream_default <=
  mMaxBits (mkBitstream (Some [5; 0; 0; 0; 0]) 40 3 true 3).
Proof.
  apply (growth_policy zero_fill Bitstream_default 3
           [OpWriteBits [5] 3] Bitstream_default).
  - unfold wf, is_u32, bufLen. simpl. repeat split; lia.
  - reflexivity.
  - simpl. lia.
  - vm_compute. reflexivity.
  - vm_compute. reflexivity.
Defined.

(** C3, the claim as stated fails: a first write of 4294967280 bits to an
    empty stream needs 4294967280 bits; the sum
    [4294967280 + 32 + 2147483640] wraps in [uint32_t], the assertion of
    [realloc] holds, and the new capacity, 2147483656 bits, is neither the
    rounded sum nor enough for the write. *)
Lemma growth_policy_wraps :
  exists s',
    reallocIfNeeded zero_fill Bitstream_default 4294967280 = Ok s' /\
    mMaxBits s' = 2147483656 /\
    mMaxBits s' <>
      roundUpQuanta (4294967280 + 4 * BITS_PER_QUANT + 4294967280 / 2) /\
    mMaxBits s' < 4294967280.
Proof.
  eexists. split; [reflexivity |]. simpl. vm_compute. 
  split; [reflexivity |]. split; [discriminate | reflexivity].
Qed.

(** C5, the claim as stated fails: with an alignment of 3 bytes, from bit 9
    of a 64-bit stream [align] moves to bit 32, where the next multiple of
    24 is 24; and from bit 48, a multiple of 24, it moves on to bit 64. *)
Lemma align_three_bytes :
  align (seek (Bitstream_external [0; 0; 0; 0; 0; 0; 0; 0] 64) 9) 3 =
    Ok (mkBitstream (Some [0; 0; 0; 0; 0; 0; 0; 0]) 64 64 false 32) /\
  Z.min (nextBoundary 9 (3 * 8)) 64 = 24 /\
  48 mod (3 * 8) = 0 /\
  align (seek (Bitstream_external [0; 0; 0; 0; 0; 0; 0; 0] 64) 48) 3 =
    Ok (mkBitstream (Some [0; 0; 0; 0; 0; 0; 0; 0]) 64 64 false 64).
Proof. repeat split; vm_compute; reflexivity. Qed.

Lemma align_next_boundary_witness :
  (exists s1,
     align (seek (Bitstream_external [0; 0; 0; 0; 0; 0; 0; 0] 64) 9) (2 ^ 2) =
       Ok s1 /\
     tell s1 =
       Z.min (nextBoundary
                (tell (seek (Bitstream_external [0; 0; 0; 0; 0; 0; 0; 0] 64) 9))
                (2 ^ 2 * 8))
             (capacity (seek (Bitstream_external [0; 0; 0; 0; 0; 0; 0; 0] 64) 9)) /\
     (tell (seek (Bitstream_external [0; 0; 0; 0; 0; 0; 0; 0] 64) 9)
        mod (2 ^ 2 * 8) = 0 ->
      tell s1 = tell (seek (Bitstream_external [0; 0; 0; 0; 0; 0; 0; 0] 64) 9))) /\
  align (seek (Bitstream_external [0; 0; 0; 0; 0; 0; 0; 0] 64) 9) 0 =
    Ok (seek (Bitstream_external [0; 0; 0; 0; 0; 0; 0; 0] 64) 9) /\
  (exists s1,
     align (seek (Bitstream_external [0; 0; 0; 0; 0; 0; 0; 0] 64) 9) 3 = Ok s1 /\
     align s1 3 = Ok s1).
Proof.
  destruct (align_next_boundary
              (seek (Bitstream_external [0; 0; 0; 0; 0; 0; 0; 0] 64) 9) 2 3)
    as (Hnext & Hzero & Htwice); [simpl; lia |].
  split; [apply Hnext; simpl; lia |].
  split; [exact Hzero |].
  apply Htwice; simpl; lia.
Defined.

Lemma write_bool_changes_one_bit_witness :
  (streamBit (mkBitstream (Some [173; 90]) 16 16 false 4)
     (tell (seek (Bitstream_external [165; 90] 16) 3)) = true /\
   forall i, 0 <= i < 8 * bufLen (seek (Bitstream_external [165; 90] 16) 3) ->
     i <> tell (seek (Bitstream_external [165; 90] 16) 3) ->
     streamBit (mkBitstream (Some [173; 90]) 16 16 false 4) i =
     streamBit (seek (Bitstream_external [165; 90] 16) 3) i) /\
  ((forall v, last [true; false] = Some v ->
      streamBit (mkBitstream (Some [165; 82]) 16 16 false 12) 11 = v) /\
   forall i, 0 <= i < 8 * bufLen (seek (Bitstream_external [165; 90] 16) 3) ->
     i <> 11 ->
     streamBit (mkBitstream (Some [165; 82]) 16 16 false 12) i =
     streamBit (seek (Bitstream_external [165; 90] 16) 3) i).
Proof.
  apply (write_bool_changes_one_bit zero_fill
           (seek (Bitstream_external [165; 90] 16) 3) true
           (mkBitstream (Some [173; 90]) 16 16 false 4)
           11 [true; false]
           (mkBitstream (Some [165; 82]) 16 16 false 12)).
  - unfold wf, is_u32, bufLen. simpl. repeat split; (lia || discriminate).
  - vm_compute. reflexivity.
  - simpl. lia.
  - vm_compute. reflexivity.
Defined.

(** C8, the claim as stated fails: on a 16-bit external buffer with the
    cursor at bit 16, a write of 4294967288 bits ends far beyond the buffer,
    but [cursor + count] wraps to 8 in [uint32_t], the assertion is not
    reached, and the bulk copy runs past the end of the buffer. *)
Lemma external_write_wraps :
  writeBits zero_fill (seek (Bitstream_external [0; 0] 16) 16)
    (repeat 0 (Z.to_nat 536870911)) 4294967288 = Fault OutOfBounds /\
  mMaxBits (seek (Bitstream_external [0; 0] 16) 16) <
    mCursor (seek (Bitstream_external [0; 0] 16) 16) + 4294967288.
Proof. split; [lazy; reflexivity | simpl; lia]. Qed.

Lemma external_buffer_never_grows_witness :
  writeBits zero_fill (seek (Bitstream_external [0; 0] 16) 10) [255] 7 =
    Fault AssertionFailed /\
  mMaxBits (mkBitstream (Some [0; 28]) 16 16 false 16) =
    mMaxBits (seek (Bitstream_external [0; 0] 16) 10) /\
  mOwnsMemory (mkBitstream (Some [0; 28]) 16 16 false 16) = false.
Proof.
  destruct (external_buffer_never_grows zero_fill
              (seek (Bitstream_external [0; 0] 16) 10) [255] 7
              [OpWriteBits [7] 3; OpSeek 100]
              (mkBitstream (Some [0; 28]) 16 16 false 16))
    as [Htrap Hkeep]; [reflexivity |].
  split.
  - apply Htrap; simpl; lia.
  - apply Hkeep. vm_compute. reflexivity.
Defined.

(** C9, the claim as stated fails: on a zeroed block the read of 3 bits
    delivers the byte 213 (0xD5), not 5 (0b101): [readBits] fills the whole
    destination byte with stream bits, here the five bits that follow. *)
Lemma scenario_first_read_fills_byte :
  (do s <- writeBits zero_fill Bitstream_default [5] 3;
   do s <- writeBits zero_fill s [26] 5;
   do r1 <- readBits (seek s 0) [0] 3;
   Ok (snd r1)) = Ok [213] /\
  [213] <> [5].
Proof. split; [vm_compute; reflexivity | discriminate]. Qed.

Lemma scenario_three_then_five_bits_witness :
  (do s <- writeBits zero_fill Bitstream_default [5] 3;
   do s <- writeBits zero_fill s [26] 5;
   do r1 <- readBits (seek s 0) [0] 3;
   do r2 <- readBits (fst r1) [0] 5;
   Ok (snd r1, snd r2, tell (fst r2), size (fst r2))) =
  Ok ([213], [26], 8, 8) /\
  Z.land 213 (Z.ones 3) = 5.
Proof.
  apply (scenario_three_then_five_bits zero_fill). reflexivity.
Defined.

(** The scenario on a block whose bytes were left at 0xFF by an earlier use
    of the heap: the first write ORs its bits into the old byte, and the
    reads deliver 0xFF and 0b11111. *)
Lemma scenario_on_used_memory :
  (do s <- writeBits ones_fill Bitstream_default [5] 3;
   do s <- writeBits ones_fill s [26] 5;
   do r1 <- readBits (seek s 0) [0] 3;
   do r2 <- readBits (fst r1) [0] 5;
   Ok (snd r1, snd r2, tell (fst r2), size (fst r2))) =
  Ok ([255], [31], 8, 8).
Proof. vm_compute. reflexivity. Qed.

Lemma readBits_overwrites_whole_quanta_witness :
  getBit [213] (8 * (3 / 8) + 5) =
  if (tell (Bitstream_external [213; 170] 16) mod 8 + 5 <? 8)
     || (8 - tell (Bitstream_external [213; 170] 16) mod 8 <? 3 mod 8)
  then streamBit (Bitstream_external [213; 170] 16)
         (tell (Bitstream_external [213; 170] 16) + 8 * (3 / 8) + 5)
  else false.
Proof.
  apply (readBits_overwrites_whole_quanta
           (Bitstream_external [213; 170] 16) [0] 3
           (mkBitstream (Some [213; 170]) 16 16 false 3) [213]).
  - simpl. lia.
  - lia.
  - change (3 mod 8) with 3. lia.
  - vm_compute. reflexivity.
  - change (3 mod 8) with 3. lia.
Defined.

Lemma readBits_delivers_stream_bits_witness :
  getBit [26] 4 =
    streamBit (seek (Bitstream_external [213; 170] 16) 3)
      (tell (seek (Bitstream_external [213; 170] 16) 3) + 4) /\
  tell (mkBitstream (Some [213; 170]) 16 16 false 8) =
    u32 (tell (seek (Bitstream_external [213; 170] 16) 3) + 5) /\
  mData (mkBitstream (Some [213; 170]) 16 16 false 8) =
    mData (seek (Bitstream_external [213; 170] 16) 3) /\
  size (mkBitstream (Some [213; 170]) 16 16 false 8) =
    size (seek (Bitstream_external [213; 170] 16) 3) /\
  capacity (mkBitstream (Some [213; 170]) 16 16 false 8) =
    capacity (seek (Bitstream_external [213; 170] 16) 3).
Proof.
  apply (readBits_delivers_stream_bits
           (seek (Bitstream_external [213; 170] 16) 3) [0] 5
           (mkBitstream (Some [213; 170]) 16 16 false 8) [26] 4).
  - unfold is_u32. simpl. lia.
  - lia.
  - vm_compute. reflexivity.
  - lia.
Defined.

(** C2, the claim as stated fails: a write of 3 bits at bit 0 stores the
    whole source byte; with the source byte 0xFF the bits 3 to 7 of the
    stream, outside the range, change from 0 to 1. *)
Lemma writeBits_stores_whole_source_byte :
  writeBits zero_fill (Bitstream_external [0] 8) [255] 3 =
    Ok (mkBitstream (Some [255]) 8 8 false 3) /\
  streamBit (Bitstream_external [0] 8) 5 = false /\
  streamBit (mkBitstream (Some [255]) 8 8 false 3) 5 = true.
Proof. repeat split; vm_compute; reflexivity. Qed.

Lemma writeBits_frame_witness :
  streamBit (mkBitstream (Some [165; 28; 90]) 24 24 false 13) 17 =
  streamBit (seek (Bitstream_external [165; 0; 90] 24) 10) 17.
Proof.
  apply (writeBits_frame zero_fill
           (seek (Bitstream_external [165; 0; 90] 24) 10) [7] 3).
  - unfold wf, is_u32, bufLen. simpl. repeat split; (lia || discriminate).
  - unfold is_u32. lia.
  - vm_compute. reflexivity.
  - unfold bufLen. simpl. lia.
  - right. vm_compute. discriminate.
Defined.

Lemma roundtrip_over_cleared_bits_witness :
  getBit [171; 205] 9 = getBit [171; 205] 9.
Proof.
  apply (roundtrip_over_cleared_bits zero_fill
           (seek (mkBitstream (Some [0; 0; 0; 0; 0]) 40 0 true 0) 5)
           (seek (mkBitstream (Some [0; 0; 0; 0; 0]) 40 0 true 0) 5)
           [171; 205] 16
           (mkBitstream (Some [96; 181; 25; 0; 0]) 40 21 true 21)
           [0; 0]
           (mkBitstream (Some [96; 181; 25; 0; 0]) 40 21 true 21)
           [171; 205] 9).
  - unfold wf, is_u32, bufLen. simpl. repeat split; lia.
  - unfold is_u32. lia.
  - vm_compute. reflexivity.
  - intros j Hj. apply (getBit_zeros 5).
  - vm_compute. reflexivity.
  - vm_compute. reflexivity.
  - lia.
Defined.

Lemma writeBits_completes_witness :
  exists s', writeBits zero_fill Bitstream_default [5] 3 = Ok s'.
Proof.
  apply (writeBits_completes zero_fill Bitstream_default [5] 3).
  - unfold wf, is_u32, bufLen. simpl. repeat split; lia.
  - unfold is_u32. lia.
  - simpl. lia.
  - intros _. vm_compute. reflexivity.
  - intros H. discriminate H.
Defined.

Lemma readBits_completes_witness :
  exists s' data',
    readBits (seek (Bitstream_external [213; 170] 16) 3) [0] 5 = Ok (s', data').
Proof.
  apply (readBits_completes (seek (Bitstream_external [213; 170] 16) 3) [0] 5);
    unfold bufLen; simpl; lia.
Defined.

Lemma roundtrip_of_aligned_bytes_witness :
  getBit [171; 205] 9 = getBit [171; 205] 9.
Proof.
  apply (roundtrip_of_aligned_bytes zero_fill
           (seek (Bitstream_external [255; 255; 255; 255] 32) 8)
           [171; 205] 16
           (mkBitstream (Some [255; 171; 205; 255]) 32 32 false 24)
           [0; 0]
           (mkBitstream (Some [255; 171; 205; 255]) 32 32 false 24)
           [171; 205] 9).
  - unfold wf, is_u32, bufLen. simpl. repeat split; (lia || discriminate).
  - unfold is_u32. lia.
  - reflexivity.
  - reflexivity.
  - vm_compute. reflexivity.
  - vm_compute. reflexivity.
  - lia.
Defined.

Lemma roundtrip_of_bool_witness : false = false.
Proof.
  apply (roundtrip_of_bool zero_fill
           (seek (Bitstream_external [255; 255] 16) 11) false
           (mkBitstream (Some [255; 247]) 16 16 false 12)
           (mkBitstream (Some [255; 247]) 16 16 false 12) false).
  - unfold wf, is_u32, bufLen. simpl. repeat split; (lia || discriminate).
  - vm_compute. reflexivity.
  - vm_compute. reflexivity.
Defined.

(** C6, the claim as stated fails: from position 5 of a 16-bit stream,
    [skip(2147483647)] adds [5 + 2147483647] in [int32_t]; the sum is not a
    value of the type, so the code gives the cursor no defined position,
    where the claim has it at the capacity, 16.  And on a stream reserved
    with 536870850 bytes, of capacity 4294966800 bits, the argument of
    [seek(capacity + 1000)] is 504 in [uint32_t], and the cursor ends at 504,
    not at the capacity. *)
Lemma skip_seek_out_of_range :
  (skip (seek (Bitstream_external [0; 0] 16) 5) 2147483647 =
     Fault SignedOverflow /\
   s32 (mCursor (seek (Bitstream_external [0; 0] 16) 5)) + 2147483647 =
     2 ^ 31 + 4 /\
   Z.max 0 (Z.min (mCursor (seek (Bitstream_external [0; 0] 16) 5) + 2147483647)
                  (mMaxBits (seek (Bitstream_external [0; 0] 16) 5))) = 16) /\
  (do s <- Bitstream_reserve zero_fill 536870850;
   Ok (capacity s, tell (seek s (u32 (capacity s + 1000))))) =
  Ok (4294966800, 504).
Proof.
  split; [repeat split; vm_compute; reflexivity |].
  lazy. reflexivity.
Qed.

Lemma skip_seek_clamp_witness :
  (exists s',
     skip (seek (Bitstream_external [0; 0] 16) 5) 7 = Ok s' /\
     mCursor s' =
       Z.max 0 (Z.min (mCursor (seek (Bitstream_external [0; 0] 16) 5) + 7)
                      (mMaxBits (seek (Bitstream_external [0; 0] 16) 5)))) /\
  mCursor (seek (seek (Bitstream_external [0; 0] 16) 5) 9) =
    Z.min 9 (mMaxBits (seek (Bitstream_external [0; 0] 16) 5)) /\
  (mMaxBits (mkBitstream (Some [0; 0]) 16 16 false 12) =
     mMaxBits (seek (Bitstream_external [0; 0] 16) 5) /\
   mData (mkBitstream (Some [0; 0]) 16 16 false 12) =
     mData (seek (Bitstream_external [0; 0] 16) 5)) /\
  (mMaxBits (seek (seek (Bitstream_external [0; 0] 16) 5) 9) =
     mMaxBits (seek (Bitstream_external [0; 0] 16) 5) /\
   mData (seek (seek (Bitstream_external [0; 0] 16) 5) 9) =
     mData (seek (Bitstream_external [0; 0] 16) 5)) /\
  tell (seek (seek (Bitstream_external [0; 0] 16) 5)
          (u32 (capacity (seek (Bitstream_external [0; 0] 16) 5) + 1000))) =
    capacity (seek (Bitstream_external [0; 0] 16) 5) /\
  (exists s',
     skip (seek (Bitstream_external [0; 0] 16) 5) (-1000) = Ok s' /\
     tell s' = 0).
Proof.
  destruct (skip_seek_clamp (seek (Bitstream_external [0; 0] 16) 5) 7 9)
    as (Hskip & Hseek & Hkeep & Hkeep' & Hpast & Hback).
  split; [apply Hskip; simpl; lia |].
  split; [exact Hseek |].
  split; [apply Hkeep; vm_compute; reflexivity |].
  split; [exact Hkeep' |].
  split; [apply Hpast; unfold capacity; simpl; lia |].
  apply Hback. reflexivity.
Defined.

(** C4, the claim as stated fails: after one boolean written to an empty
    stream the cursor is at bit 1, and [skip(2147483647)], which has no
    stated precondition, adds [1 + 2147483647] in [int32_t]: the sum is not
    a value of the type and the code bounds the cursor by nothing. *)
Lemma skip_outside_int32 :
  Forall well_typed [OpWriteBool true; OpSkip 2147483647] /\
  run zero_fill Bitstream_default [OpWriteBool true] =
    Ok (mkBitstream (Some [1; 0; 0; 0; 0]) 40 1 true 1) /\
  s32 (mCursor (mkBitstream (Some [1; 0; 0; 0; 0]) 40 1 true 1)) + 2147483647 =
    2 ^ 31 /\
  run zero_fill Bitstream_default [OpWriteBool true; OpSkip 2147483647] =
    Fault SignedOverflow.
Proof.
  split.
  { repeat constructor; unfold is_s32; lia. }
  repeat split; vm_compute; reflexivity.
Qed.

Lemma length_and_cursor_within_capacity_witness :
  mNumBits (mkBitstream (Some [5; 0; 0; 0; 0]) 40 3 true 1) <=
  mMaxBits (mkBitstream (Some [5; 0; 0; 0; 0]) 40 3 true 1) /\
  0 <= mCursor (mkBitstream (Some [5; 0; 0; 0; 0]) 40 3 true 1) <=
  mMaxBits (mkBitstream (Some [5; 0; 0; 0; 0]) 40 3 true 1).
Proof.
  apply (length_and_cursor_within_capacity zero_fill).
  apply (reachable_step zero_fill
           (mkBitstream (Some [5; 0; 0; 0; 0]) 40 3 true 3) (OpSkip (-2))).
  - apply (reachable_step zero_fill Bitstream_default (OpWriteBits [5] 3)).
    + apply reachable_constructed. apply constructed_default.
    + unfold well_typed, is_u32. lia.
    + vm_compute. reflexivity.
  - unfold well_typed, is_s32. lia.
  - vm_compute. reflexivity.
Defined.

(** ** The rest of the class on concrete inputs *)

Lemma reads_past_length_trap_witness :
  readBits (seek (Bitstream_external [213; 170] 16) 10) [0] 8 =
    Fault AssertionFailed /\
  (8 = 1 -> read_bool (seek (Bitstream_external [213; 170] 16) 10) =
            Fault AssertionFailed) /\
  (8 = Z.of_nat (length [0]) * 8 ->
   read (seek (Bitstream_external [213; 170] 16) 10) [0] = Fault AssertionFailed).
Proof.
  apply (reads_past_length_trap (seek (Bitstream_external [213; 170] 16) 10) [0] 8);
    simpl; lia.
Defined.

Lemma read_bool_completes_before_eof_witness :
  exists s',
    read_bool (seek (Bitstream_external [213; 170] 16) 3) =
      Ok (s', streamBit (seek (Bitstream_external [213; 170] 16) 3)
                (tell (seek (Bitstream_external [213; 170] 16) 3))) /\
    tell s' = tell (seek (Bitstream_external [213; 170] 16) 3) + 1 /\
    data s' = data (seek (Bitstream_external [213; 170] 16) 3) /\
    size s' = size (seek (Bitstream_external [213; 170] 16) 3).
Proof.
  apply (read_bool_completes_before_eof (seek (Bitstream_external [213; 170] 16) 3)).
  - unfold wf, is_u32, bufLen. simpl. repeat split; (lia || discriminate).
  - unfold size, bufLen. simpl. lia.
  - reflexivity.
Defined.

Lemma align_moves_forward_witness :
  exists s',
    align (seek (Bitstream_external [0; 0; 0; 0; 0; 0; 0; 0] 64) 9) 3 = Ok s' /\
    tell (seek (Bitstream_external [0; 0; 0; 0; 0; 0; 0; 0] 64) 9) <= tell s' <=
      capacity (seek (Bitstream_external [0; 0; 0; 0; 0; 0; 0; 0] 64) 9) /\
    tell s' - tell (seek (Bitstream_external [0; 0; 0; 0; 0; 0; 0; 0] 64) 9) <
      8 * 3.
Proof.
  apply (align_moves_forward
           (seek (Bitstream_external [0; 0; 0; 0; 0; 0; 0; 0] 64) 9) 3);
    simpl; lia.
Defined.

Lemma skip_back_undoes_read_witness :
  skip (mkBitstream (Some [213; 170]) 16 16 false 8) (- 5) =
  Ok (seek (Bitstream_external [213; 170] 16) 3).
Proof.
  apply (skip_back_undoes_read (seek (Bitstream_external [213; 170] 16) 3)
           [0] 5 (mkBitstream (Some [213; 170]) 16 16 false 8) [26]).
  - unfold wf, is_u32, bufLen. simpl. repeat split; (lia || discriminate).
  - unfold capacity. simpl. lia.
  - lia.
  - vm_compute. reflexivity.
Defined.

Lemma owned_capacity_whole_quanta_witness :
  capacity (mkBitstream (Some [5; 0; 0; 0; 0]) 40 3 true 3) mod 8 = 0 /\
  8 * bufLen (mkBitstream (Some [5; 0; 0; 0; 0]) 40 3 true 3) =
    capacity (mkBitstream (Some [5; 0; 0; 0; 0]) 40 3 true 3) /\
  capacity (mkBitstream (Some [5; 0; 0; 0; 0]) 40 3 true 3) <= 2 ^ 32 - 8.
Proof.
  apply (owned_capacity_whole_quanta zero_fill).
  - apply (reachable_step zero_fill Bitstream_default (OpWriteBits [5] 3)).
    + apply reachable_constructed. apply constructed_default.
    + unfold well_typed, is_u32. lia.
    + vm_compute. reflexivity.
  - reflexivity.
Defined.

Lemma length_never_shrinks_witness :
  size Bitstream_default <=
    size (mkBitstream (Some [5; 0; 0; 0; 0]) 40 3 true 0) /\
  mOwnsMemory (mkBitstream (Some [5; 0; 0; 0; 0]) 40 3 true 0) =
    mOwnsMemory Bitstream_default.
Proof.
  apply (length_never_shrinks zero_fill [OpWriteBits [5] 3; OpSeek 0]).
  vm_compute. reflexivity.
Defined.

Lemma seek_restores_position_witness :
  tell (seek (mkBitstream (Some [32; 0]) 16 16 false 9)
          (tell (seek (Bitstream_external [0; 0] 16) 5))) =
  tell (seek (Bitstream_external [0; 0] 16) 5).
Proof.
  apply (seek_restores_position zero_fill (seek (Bitstream_external [0; 0] 16) 5)
           [OpWriteBool true; OpSkip 3]).
  - unfold wf, is_u32, bufLen. simpl. repeat split; (lia || discriminate).
  - vm_compute. reflexivity.
Defined.

Lemma reserve_gives_empty_stream_witness :
  exists s, Bitstream_reserve zero_fill 2 = Ok s /\
    capacity s = u32 (2 * 8) /\ size s = 0 /\ tell s = 0 /\
    mOwnsMemory s = true /\ 8 * bufLen s = capacity s /\
    (capacity s = 0 -> s = Bitstream_default).
Proof.
  apply (reserve_gives_empty_stream zero_fill 2). unfold is_u32. lia.
Defined.

Lemma write_advances_cursor_witness :
  tell (mkBitstream (Some [5; 0; 0; 0; 0]) 40 3 true 3) =
    tell Bitstream_default + 3 /\
  size (mkBitstream (Some [5; 0; 0; 0; 0]) 40 3 true 3) =
    (if 3 =? 0 then size Bitstream_default
     else Z.max (size Bitstream_default) (tell Bitstream_default + 3)) /\
  tell Bitstream_default + 3 <=
    capacity (mkBitstream (Some [5; 0; 0; 0; 0]) 40 3 true 3).
Proof.
  apply (write_advances_cursor zero_fill Bitstream_default [5] 3).
  - unfold wf, is_u32, bufLen. simpl. repeat split; lia.
  - unfold is_u32. lia.
  - left. reflexivity.
  - vm_compute. reflexivity.
Defined.

Lemma readBits_keeps_rest_of_destination_witness :
  length [26; 99] = length [0; 99] /\
  ((5 + 7) / 8 <= Z.of_nat 1 -> [26; 99] !! 1%nat = [0; 99] !! 1%nat).
Proof.
  apply (readBits_keeps_rest_of_destination
           (seek (Bitstream_external [213; 170] 16) 3) [0; 99] 5
           (mkBitstream (Some [213; 170]) 16 16 false 8) [26; 99] 1).
  - lia.
  - vm_compute. reflexivity.
Defined.

Lemma aligned_write_stores_bytes_verbatim_witness :
  ((0 < length [171; 205])%nat ->
   streamByte (mkBitstream (Some [255; 171; 205; 255]) 32 32 false 24)
     (Z.to_nat (tell (seek (Bitstream_external [255; 255; 255; 255] 32) 8) / 8) + 0) =
   [171; 205] !! 0%nat) /\
  (Z.of_nat 0 < tell (seek (Bitstream_external [255; 255; 255; 255] 32) 8) / 8 ->
   streamByte (mkBitstream (Some [255; 171; 205; 255]) 32 32 false 24) 0 =
   streamByte (seek (Bitstream_external [255; 255; 255; 255] 32) 8) 0).
Proof.
  apply (aligned_write_stores_bytes_verbatim zero_fill
           (seek (Bitstream_external [255; 255; 255; 255] 32) 8) [171; 205]
           (mkBitstream (Some [255; 171; 205; 255]) 32 32 false 24) 0).
  - unfold wf, is_u32, bufLen. simpl. repeat split; (lia || discriminate).
  - reflexivity.
  - discriminate.
  - simpl. lia.
  - vm_compute. reflexivity.
Defined.

Lemma aligned_writes_read_back_witness :
  exists s'',
    read (seek (mkBitstream (Some [1; 2; 3; 0; 0; 0; 0]) 56 24 true 24)
            (tell Bitstream_default)) [0; 0; 0] =
      Ok (s'', concat [[1; 2]; [3]]) /\
    tell s'' = tell (mkBitstream (Some [1; 2; 3; 0; 0; 0; 0]) 56 24 true 24).
Proof.
  apply (aligned_writes_read_back zero_fill [[1; 2]; [3]] Bitstream_default).
  - unfold wf, is_u32, bufLen. simpl. repeat split; lia.
  - reflexivity.
  - simpl. lia.
  - vm_compute. reflexivity.
  - reflexivity.
Defined.

Lemma bools_read_back_witness :
  exists s'',
    read_bools (seek (mkBitstream (Some [239; 255]) 16 16 false 6)
                  (tell (seek (Bitstream_external [255; 255] 16) 3)))
      (length [true; false; true]) = Ok (s'', [true; false; true]) /\
    tell s'' = tell (mkBitstream (Some [239; 255]) 16 16 false 6).
Proof.
  apply (bools_read_back zero_fill [true; false; true]
           (seek (Bitstream_external [255; 255] 16) 3)).
  - unfold wf, is_u32, bufLen. simpl. repeat split; (lia || discriminate).
  - simpl. lia.
  - vm_compute. reflexivity.
Defined.

Lemma LOG2_of_type_size_witness :
  2 ^ LOG2 4 = 4 * 8 /\
  LOG2 BYTES_PER_QUANT = BITS_PER_QUANT_LOG2 /\
  Z.shiftr 77 (LOG2 4) = 77 / (4 * 8) /\
  Z.land 77 (4 * 8 - 1) = 77 mod (4 * 8).
Proof.
  apply (LOG2_of_type_size 4 77); [right; right; left; reflexivity | lia].
Defined.

Lemma writeBits_merges_into_old_bits_witness :
  streamBit (mkBitstream (Some [255; 0]) 16 16 false 12)
    (tell (seek (Bitstream_external [255; 255] 16) 4) + 2) =
  getBit [0] 2 ||
  ((if tell (seek (Bitstream_external [255; 255] 16) 4) mod 8 =? 0
    then 8 * (8 / 8) <=? 2
    else 2 <? 8 - tell (seek (Bitstream_external [255; 255] 16) 4) mod 8)
   && streamBit (seek (Bitstream_external [255; 255] 16) 4)
        (tell (seek (Bitstream_external [255; 255] 16) 4) + 2)).
Proof.
  apply (writeBits_merges_into_old_bits zero_fill
           (seek (Bitstream_external [255; 255] 16) 4)
           (seek (Bitstream_external [255; 255] 16) 4)
           (mkBitstream (Some [255; 0]) 16 16 false 12) [0] 8 2).
  - unfold is_u32. simpl. lia.
  - unfold is_u32. lia.
  - vm_compute. reflexivity.
  - vm_compute. reflexivity.
  - lia.
Defined.

Lemma write_within_capacity_keeps_buffer_witness :
  capacity (mkBitstream (Some [165; 28; 90]) 24 24 false 13) =
    capacity (seek (Bitstream_external [165; 0; 90] 24) 10) /\
  bufLen (mkBitstream (Some [165; 28; 90]) 24 24 false 13) =
    bufLen (seek (Bitstream_external [165; 0; 90] 24) 10).
Proof.
  apply (write_within_capacity_keeps_buffer zero_fill
           (seek (Bitstream_external [165; 0; 90] 24) 10) [7] 3).
  - simpl. lia.
  - lia.
  - unfold capacity. simpl. lia.
  - unfold capacity. simpl. lia.
  - vm_compute. reflexivity.
Defined.

Lemma owned_stream_returns_its_memory_witness :
  exists h',
    h_destroy [true; false; true]
      (mkLocated (Some 2%nat)
         (mkBitstream (Some [1; 2; 3; 0; 0; 0; 0; 0; 0]) 72 24 true 1)) =
      Done h' /\
    is_live h' 2 = is_live [true] 2.
Proof.
  apply (proj2 (proj2 (owned_stream_returns_its_memory zero_fill [true] 1
                         [OpWrite [1; 2; 3]; OpSeek 0; OpReadBool] 2))).
  left. vm_compute. reflexivity.
Defined.

Lemma external_stream_leaves_heap_alone_witness :
  [true] = [true] /\
  address (mkLocated (Some 0%nat) (mkBitstream (Some [57; 0]) 16 16 false 11)) =
    Some 0%nat /\
  h_destroy [true]
    (mkLocated (Some 0%nat) (mkBitstream (Some [57; 0]) 16 16 false 11)) =
    Done [true].
Proof.
  apply (proj2 (external_stream_leaves_heap_alone zero_fill [true] 0 [0; 0] 16
                  [OpWriteBool true; OpSeek 3; OpWrite [7]])).
  vm_compute. reflexivity.
Defined.

Lemma appends_over_zeroed_memory_witness :
  tell (mkBitstream (Some [213; 0; 0; 0; 0]) 40 8 true 8) =
    tell Bitstream_default + totalBits [([5], 3); ([26], 5)] /\
  streamBit (mkBitstream (Some [213; 0; 0; 0; 0]) 40 8 true 8)
    (tell Bitstream_default + 4) = sourceBit [([5], 3); ([26], 5)] 4 /\
  forall dest s'' dest',
    readBits (seek (mkBitstream (Some [213; 0; 0; 0; 0]) 40 8 true 8)
                (tell Bitstream_default)) dest
      (totalBits [([5], 3); ([26], 5)]) = Ok (s'', dest') ->
    getBit dest' 4 = sourceBit [([5], 3); ([26], 5)] 4.
Proof.
  apply (appends_over_zeroed_memory zero_fill [([5], 3); ([26], 5)]
           Bitstream_default).
  - intros n i. reflexivity.
  - unfold wf, is_u32, bufLen. simpl. repeat split; lia.
  - intros i Hi. reflexivity.
  - repeat constructor; unfold is_u32; simpl; try lia.
    + intros k Hk. destruct (Z.lt_ge_cases k 8).
      * assert (Hk3 : k = 3 \/ k = 4 \/ k = 5 \/ k = 6 \/ k = 7) by lia.
        destruct Hk3 as [-> | [-> | [-> | [-> | ->]]]]; reflexivity.
      * apply getBit_beyond. simpl. lia.
    + intros k Hk. destruct (Z.lt_ge_cases k 8).
      * assert (Hk3 : k = 5 \/ k = 6 \/ k = 7) by lia.
        destruct Hk3 as [-> | [-> | ->]]; reflexivity.
      * apply getBit_beyond. simpl. lia.
  - simpl. lia.
  - vm_compute. reflexivity.
  - simpl. lia.
Defined.

Lemma bools_read_as_bits_witness : getBit [29] (Z.of_nat 1) = false.
Proof.
  apply (bools_read_as_bits zero_fill [true; false; true]
           (seek (Bitstream_external [255; 255] 16) 3)
           (mkBitstream (Some [239; 255]) 16 16 false 6) [0]
           (mkBitstream (Some [239; 255]) 16 16 false 6) [29] 1 false).
  - unfold wf, is_u32, bufLen. simpl. repeat split; (lia || discriminate).
  - simpl. lia.
  - vm_compute. reflexivity.
  - vm_compute. reflexivity.
  - reflexivity.
Defined.
